(** * esbulk: the [Runner.Run] driver, its settings requests and its line filter

    A shallow embedding of [Run], [indexSettingsRequest] and [IsJSON] of
    package [esbulk].  [Run] is sequential code that talks to the outside
    world (HTTP servers, the file system, the input reader, the worker
    goroutines); it is embedded as a function in a small state-and-stop
    monad that records every external interaction in a trace.  The answers
    of the outside world are the fields of a [World] record. *)

From Stdlib Require Import List String Ascii Bool Arith ZArith Lia.
From Stdlib Require Import DecimalString Permutation.
Import ListNotations.
Local Open Scope string_scope.
Local Open Scope nat_scope.
Local Open Scope list_scope.

Infix "^^" := String.append (at level 60, right associativity).

Set Implicit Arguments.

(** ** Strings *)

(** The double-quote character, for JSON bodies. *)
Definition dq : string := String (ascii_of_nat 34) EmptyString.

Definition bytes (s : string) : list nat := map nat_of_ascii (list_ascii_of_string s).
Definition unbytes (l : list nat) : string := string_of_list_ascii (map ascii_of_nat l).

(** [fmt.Sprintf("%d", i)] for a non-negative [i]. *)
Definition itoa (n : nat) : string := NilEmpty.string_of_uint (Nat.to_uint n).

Definition nonempty (s : string) : bool :=
  match s with EmptyString => false | String _ _ => true end.

(** *** [strings.TrimSpace]

    Go trims every leading and trailing rune with the Unicode White_Space
    property.  On the UTF-8 bytes these are the one-byte runes
    [\t \n \v \f \r] and space, the two-byte runes U+0085 and U+00A0, and the
    three-byte runes U+1680, U+2000..U+200A, U+2028, U+2029, U+202F, U+205F
    and U+3000. *)
Definition asciiSpace (c : nat) : bool :=
  ((9 <=? c) && (c <=? 13)) || (c =? 32).

Definition space2 (a b : nat) : bool :=
  (a =? 194) && ((b =? 133) || (b =? 160)).

Definition space3 (a b c : nat) : bool :=
  ((a =? 225) && (b =? 154) && (c =? 128))
  || ((a =? 226) && (b =? 128)
      && (((128 <=? c) && (c <=? 138)) || (c =? 168) || (c =? 169) || (c =? 175)))
  || ((a =? 226) && (b =? 129) && (c =? 159))
  || ((a =? 227) && (b =? 128) && (c =? 128)).

(** Width in bytes of the white-space rune at the head of [l]; [0] when the
    head is not white space. *)
Definition spaceWidth (l : list nat) : nat :=
  match l with
  | a :: t =>
      if asciiSpace a then 1
      else match t with
           | b :: t' =>
               if space2 a b then 2
               else match t' with
                    | c :: _ => if space3 a b c then 3 else 0
                    | [] => 0
                    end
           | [] => 0
           end
  | [] => 0
  end.

(** The same, reading a reversed string: the rune that ends the string. *)
Definition spaceWidthRev (l : list nat) : nat :=
  match l with
  | a :: t =>
      if asciiSpace a then 1
      else match t with
           | b :: t' =>
               if space2 b a then 2
               else match t' with
                    | c :: _ => if space3 c b a then 3 else 0
                    | [] => 0
                    end
           | [] => 0
           end
  | [] => 0
  end.

Fixpoint trimWith (width : list nat -> nat) (fuel : nat) (l : list nat) : list nat :=
  match fuel with
  | 0 => l
  | S fuel' =>
      match width l with
      | 0 => l
      | n => trimWith width fuel' (skipn n l)
      end
  end.

Definition TrimSpace (s : string) : string :=
  let l := bytes s in
  let l1 := trimWith spaceWidth (List.length l) l in
  let l2 := trimWith spaceWidthRev (List.length l1) (rev l1) in
  unbytes (rev l2).

(** *** [IsJSON]

    [json.Unmarshal] into a [json.RawMessage] succeeds exactly when the
    scanner of [encoding/json] accepts the whole text as one JSON value
    surrounded by optional white space.  The scanner is written here as a
    recursive-descent recogniser over the bytes; each function returns the
    rest of the input after what it accepted. *)
Definition jsonSpace (c : nat) : bool :=
  (c =? 32) || (c =? 9) || (c =? 13) || (c =? 10).

Fixpoint skipWs (l : list nat) : list nat :=
  match l with
  | c :: t => if jsonSpace c then skipWs t else l
  | [] => []
  end.

Definition isDigit (c : nat) : bool := (48 <=? c) && (c <=? 57).

Definition isHex (c : nat) : bool :=
  isDigit c || ((97 <=? c) && (c <=? 102)) || ((65 <=? c) && (c <=? 70)).

(** After the opening quote: the rest of a string literal. *)
Fixpoint scanString (l : list nat) : option (list nat) :=
  match l with
  | [] => None
  | c :: t =>
      if c =? 34 then Some t
      else if c =? 92 then
        match t with
        | e :: t1 =>
            if (e =? 98) || (e =? 102) || (e =? 110) || (e =? 114) || (e =? 116)
               || (e =? 92) || (e =? 47) || (e =? 34)
            then scanString t1
            else if e =? 117 then
              match t1 with
              | h1 :: ((h2 :: ((h3 :: ((h4 :: t5) as t4)) as t3)) as t2) =>
                  if isHex h1 && isHex h2 && isHex h3 && isHex h4
                  then scanString t5 else None
              | _ => None
              end
            else None
        | [] => None
        end
      else if c <? 32 then None
      else scanString t
  end.

Fixpoint skipDigits (l : list nat) : list nat :=
  match l with
  | c :: t => if isDigit c then skipDigits t else l
  | [] => []
  end.

(** One or more digits. *)
Definition scanDigits1 (l : list nat) : option (list nat) :=
  match l with
  | c :: t => if isDigit c then Some (skipDigits t) else None
  | [] => None
  end.

Definition scanExp (l : list nat) : option (list nat) :=
  match l with
  | c :: t =>
      if (c =? 101) || (c =? 69) then
        match t with
        | s :: t' => if (s =? 43) || (s =? 45) then scanDigits1 t' else scanDigits1 t
        | [] => None
        end
      else Some l
  | [] => Some l
  end.

Definition scanFrac (l : list nat) : option (list nat) :=
  match l with
  | c :: t =>
      if c =? 46 then
        match scanDigits1 t with
        | Some r => scanExp r
        | None => None
        end
      else scanExp l
  | [] => Some l
  end.

(** After an optional minus sign: the integer part, then fraction and exponent. *)
Definition scanInt (l : list nat) : option (list nat) :=
  match l with
  | c :: t =>
      if c =? 48 then scanFrac t
      else if isDigit c then scanFrac (skipDigits t)
      else None
  | [] => None
  end.

Fixpoint scanLiteral (lit l : list nat) : option (list nat) :=
  match lit with
  | [] => Some l
  | a :: lit' =>
      match l with
      | c :: t => if c =? a then scanLiteral lit' t else None
      | [] => None
      end
  end.

Fixpoint scanValue (fuel : nat) (l : list nat) : option (list nat) :=
  match fuel with
  | 0 => None
  | S f =>
      match skipWs l with
      | [] => None
      | c :: t =>
          if c =? 123 then
            match skipWs t with
            | d :: t' => if d =? 125 then Some t' else scanMembers f (d :: t')
            | [] => None
            end
          else if c =? 91 then
            match skipWs t with
            | d :: t' => if d =? 93 then Some t' else scanElements f (d :: t')
            | [] => None
            end
          else if c =? 34 then scanString t
          else if c =? 45 then scanInt t
          else if isDigit c then scanInt (c :: t)
          else if c =? 116 then scanLiteral (bytes "rue") t
          else if c =? 102 then scanLiteral (bytes "alse") t
          else if c =? 110 then scanLiteral (bytes "ull") t
          else None
      end
  end

with scanMembers (fuel : nat) (l : list nat) : option (list nat) :=
  match fuel with
  | 0 => None
  | S f =>
      match skipWs l with
      | c :: t =>
          if c =? 34 then
            match scanString t with
            | Some r =>
                match skipWs r with
                | k :: r1 =>
                    if k =? 58 then
                      match scanValue f r1 with
                      | Some r2 =>
                          match skipWs r2 with
                          | e :: r3 =>
                              if e =? 44 then scanMembers f r3
                              else if e =? 125 then Some r3
                              else None
                          | [] => None
                          end
                      | None => None
                      end
                    else None
                | [] => None
                end
            | None => None
            end
          else None
      | [] => None
      end
  end

with scanElements (fuel : nat) (l : list nat) : option (list nat) :=
  match fuel with
  | 0 => None
  | S f =>
      match scanValue f l with
      | Some r =>
          match skipWs r with
          | e :: r1 =>
              if e =? 44 then scanElements f r1
              else if e =? 93 then Some r1
              else None
          | [] => None
          end
      | None => None
      end
  end.

(** [json.Unmarshal([]byte(str), &js) == nil] *)
Definition IsJSON (str : string) : bool :=
  let l := bytes str in
  match scanValue (2 * List.length l + 2) l with
  | Some r => match skipWs r with [] => true | _ :: _ => false end
  | None => false
  end.

(** ** Data model *)

(** Go's [error] values are compared with [nil] only; they are kept as their
    message. *)
Definition error := string.

(** A decoded JSON document ([interface{}] after [json.Unmarshal]); a JSON
    object is a [map[string]interface{}]. *)
#[warnings="-register-all"]
Inductive jvalue :=
| JNull
| JBool (b : bool)
| JNum (literal : string)
| JStr (s : string)
| JArr (l : list jvalue)
| JObj (m : list (string * jvalue)).

(** [m[key]]: the value, or [nil] when the key is absent. *)
Fixpoint index (m : list (string * jvalue)) (key : string) : jvalue :=
  match m with
  | [] => JNull
  | (k, v) :: m' => if String.eqb k key then v else index m' key
  end.

(** The type assertion [v.(map[string]interface{})]; [None] is the run-time
    panic of a failed assertion. *)
Definition assertMap (v : jvalue) : option (list (string * jvalue)) :=
  match v with
  | JObj m => Some m
  | _ => None
  end.

Module Options.
(** The fields that [Run] sets in its [Options] literal. *)
Record t := {
  Servers : list string;
  Index : string;
  DocType : string;
  BatchSize : Z;
  Verbose : bool;
  Scheme : string;
  IDField : string;
  Username : string;
  Password : string;
  Pipeline : string
}.
End Options.

Module Runner.
(** [Runner]; the open input file [File] is part of the [World] below. *)
Record t := {
  BatchSize : Z;
  CpuProfile : string;
  DocType : string;
  FileGzipped : bool;
  IdentifierField : string;
  IndexName : string;
  Mapping : string;
  MemProfile : string;
  NumWorkers : Z;
  Password : string;
  Pipeline : string;
  Purge : bool;
  RefreshInterval : string;
  Scheme : string;
  Servers : list string;
  ShowVersion : bool;
  SkipBroken : bool;
  Username : string;
  Verbose : bool;
  ZeroReplica : bool
}.

(** [r.Servers = servers] *)
Definition with_Servers (r : t) (servers : list string) : t :=
  {| BatchSize := BatchSize r; CpuProfile := CpuProfile r; DocType := DocType r;
     FileGzipped := FileGzipped r; IdentifierField := IdentifierField r;
     IndexName := IndexName r; Mapping := Mapping r; MemProfile := MemProfile r;
     NumWorkers := NumWorkers r; Password := Password r; Pipeline := Pipeline r;
     Purge := Purge r; RefreshInterval := RefreshInterval r; Scheme := Scheme r;
     Servers := servers; ShowVersion := ShowVersion r; SkipBroken := SkipBroken r;
     Username := Username r; Verbose := Verbose r; ZeroReplica := ZeroReplica r |}.
End Runner.

(** An [http.Request] as [indexSettingsRequest] builds it. *)
Record Request := {
  Method : string;
  URL : string;
  Body : string;
  BasicAuth : option (string * string);
  Header : list (string * string)
}.

Record Response := {
  StatusCode : nat;
  Status : string
}.

(** The second result of [reader.ReadString]. *)
Inductive readErr :=
| io_EOF
| io_error (e : error).

(** The reader handed to [PutMapping]. *)
Inductive mappingSource :=
| MappingString (s : string)
| MappingFile (path : string).

(** The four places of [Run] that call [indexSettingsRequest], with the
    iteration of the server loop they belong to. *)
Inductive site :=
| MutRefresh (i : nat)
| MutReplicas (i : nat)
| RestoreRefresh (i : nat)
| RestoreReplicas (i : nat).

Inductive logmsg :=
| LogUsingServers (n : nat)
| LogOptions (o : Options.t)
| LogReplicasBack (numberOfReplicas : jvalue)
| LogRefreshBack (refreshInterval : string)
| LogApplied (body status : string)
| LogReport (counter : nat) (workers : Z).

(** What [Run] does to the outside world, in the order it does it. *)
Inductive event :=
| EvPrintln (s : string)
| EvLog (m : logmsg)
| EvStartCPUProfile (path : string)
| EvStopCPUProfile
| EvDeleteIndex (o : Options.t) (res : option error)
| EvSleep5s
| EvCreateIndex (o : Options.t) (res : option error)
| EvPutMapping (o : Options.t) (src : mappingSource) (res : option error)
| EvWgAdd (n : Z)
| EvGoWorker (name : string) (o : Options.t)
| EvGetSettings (i : nat) (o : Options.t) (res : error + list (string * jvalue))
| EvDefer (i : nat) (numberOfReplicas : jvalue)
| EvRunDeferred (i : nat)
| EvDo (at_ : site) (req : Request) (res : error + Response)
| EvFlushIndex (i : nat) (o : Options.t) (res : option error)
| EvReadString (line : string) (err : option readErr)
| EvSkipped (line : string)
| EvSend (line : string)
| EvClose
| EvWait
| EvWriteHeapProfile (path : string)
| EvFatal (e : error).

(** The outside world: the results of the calls [Run] makes.  [DeleteIndex],
    [CreateIndex], [PutMapping], [GetSettings], [FlushIndex] and [Worker] are
    functions of the package that live in other files; the rest is the Go
    library and the servers. *)
Record World := {
  os_Create : string -> option error;
  os_Stat_IsNotExist : string -> bool;
  os_Open : string -> option error;
  DeleteIndex : Options.t -> option error;
  CreateIndex : Options.t -> option error;
  PutMapping : Options.t -> mappingSource -> option error;
  GetSettings : nat -> Options.t -> error + list (string * jvalue);
  (** [FlushIndex(i, options)], called by the shutdown function registered
      in iteration [iter] *)
  FlushIndex : nat -> nat -> Options.t -> option error;
  (** [rand.Intn(n)] at a call site *)
  rand_Intn : site -> nat -> nat;
  (** the error of [url.Parse], which is the way [http.NewRequest] fails *)
  url_Parse : string -> option error;
  pester_Do : site -> Request -> error + Response;
  httputil_DumpResponse : Response -> error + string;
  (** [%q] of [fmt] on a decoded JSON value *)
  fmt_q : jvalue -> string;
  gzip_NewReader : option error;
  (** the successive results of [reader.ReadString('\n')] *)
  input : list (string * option readErr);
  (** whether the [n]-th send on the queue is taken by a worker; [false]:
      a worker has ended the process with [log.Fatal] by then *)
  queue_recv : nat -> bool;
  (** whether all workers call [wg.Done]; [false]: one ended the process *)
  workers_done : bool;
  (** [true]: every iteration of a loop has its own loop variable (Go 1.22
      and later); [false]: one variable for the whole loop *)
  loopvar_per_iteration : bool
}.

(** ** The monad of [Run]

    A computation writes events, updates the control state (the stack of
    deferred calls and the loop variable the closures share) and either
    yields a value or stops the function. *)
Inductive stop :=
| Returned (err : option error)   (* [return err]; [None] is [nil] *)
| Panicked (msg : string)         (* run-time panic *)
| Exited                          (* [os.Exit] by [log.Fatal]: deferred calls do not run *)
| Blocked.                        (* blocked for ever on the queue *)

Inductive res (A : Type) :=
| Val (a : A)
| Stop (s : stop).
Arguments Val {A} a.
Arguments Stop {A} s.

(** A deferred call: the function and the variables its closure captured.
    The loop variable [i] is captured by reference when the loop has one
    variable; [Shutdown] carries the iteration that registered it. *)
Inductive deferred :=
| StopCPUProfile
| Shutdown (r : Runner.t) (options : Options.t) (i : nat) (numberOfReplicas : jvalue).

Record control := {
  defers : list deferred;   (* most recent first *)
  loopvar : nat             (* the variable [i] of the server loop *)
}.

Definition M (A : Type) : Type := control -> list event * control * res A.

Definition ret {A} (a : A) : M A := fun c => ([], c, Val a).

Definition bind {A B} (m : M A) (k : A -> M B) : M B :=
  fun c =>
    match m c with
    | (evs, c', Val a) =>
        match k a c' with
        | (evs', c'', r) => (evs ++ evs', c'', r)
        end
    | (evs, c', Stop s) => (evs, c', Stop s)
    end.

Notation "x <- m ;; k" := (bind m (fun x => k))
  (at level 61, m at next level, right associativity).
Notation "m ;; k" := (bind m (fun _ => k))
  (at level 61, right associativity).

Definition emit (e : event) : M unit := fun c => ([e], c, Val tt).
Definition halt {A} (s : stop) : M A := fun c => ([], c, Stop s).
Definition return_ {A} (err : option error) : M A := halt (Returned err).
Definition when (b : bool) (m : M unit) : M unit := if b then m else ret tt.
Definition defer (d : deferred) : M unit :=
  fun c => ([], {| defers := d :: defers c; loopvar := loopvar c |}, Val tt).
Definition setLoopvar (i : nat) : M unit :=
  fun c => ([], {| defers := defers c; loopvar := i |}, Val tt).
Definition getLoopvar : M nat := fun c => ([], c, Val (loopvar c)).

(** A call whose only result is an [error]: record it, and [return err] when
    it is not [nil]. *)
Definition try (ev : option error -> event) (r : option error) : M unit :=
  emit (ev r) ;;
  match r with
  | Some e => return_ (Some e)
  | None => ret tt
  end.

Fixpoint forEach {A} (l : list A) (f : A -> M unit) : M unit :=
  match l with
  | [] => ret tt
  | a :: l' => f a ;; forEach l' f
  end.

(** ** [indexSettingsRequest] *)

(** [http.NewRequest("PUT", link, r)] *)
Definition http_NewRequest (w : World) (method link body : string) : error + Request :=
  match url_Parse w link with
  | Some e => inl e
  | None => inr {| Method := method; URL := link; Body := body;
                   BasicAuth := None; Header := [] |}
  end.

Definition SetBasicAuth (req : Request) (username password : string) : Request :=
  {| Method := Method req; URL := URL req; Body := Body req;
     BasicAuth := Some (username, password); Header := Header req |}.

Definition Header_Set (req : Request) (key value : string) : Request :=
  {| Method := Method req; URL := URL req; Body := Body req;
     BasicAuth := BasicAuth req;
     Header := (key, value)
               :: filter (fun kv => negb (String.eqb (fst kv) key)) (Header req) |}.

(** [at_] names the calling statement; it selects the answers of the world
    and labels the event, and has no other use. *)
Definition indexSettingsRequest (w : World) (at_ : site) (body : string)
    (options : Options.t) : M (error + Response) :=
  let servers := Options.Servers options in
  match List.length servers with
  | 0 => halt (Panicked "invalid argument to Intn")
  | S _ =>
      let server :=
        nth (rand_Intn w at_ (List.length servers) mod List.length servers) servers "" in
      let link := server ^^ "/" ^^ Options.Index options ^^ "/_settings" in
      match http_NewRequest w "PUT" link body with
      | inl e => ret (inl e)
      | inr req =>
          (* Auth handling. *)
          let req :=
            if nonempty (Options.Username options) && nonempty (Options.Password options)
            then SetBasicAuth req (Options.Username options) (Options.Password options)
            else req in
          let req := Header_Set req "Content-Type" "application/json" in
          match pester_Do w at_ req with
          | inl e => emit (EvDo at_ req (inl e)) ;; ret (inl e)
          | inr resp =>
              emit (EvDo at_ req (inr resp)) ;;
              when (Options.Verbose options) (emit (EvLog (LogApplied body (Status resp)))) ;;
              ret (inr resp)
          end
      end
  end.

(** ** [Run] *)

Definition Version : string := "dev".

Definition defaultServer : string := "http://localhost:9200".

(** [{"index": {"refresh_interval": "%s"}}] *)
Definition refreshBody (v : string) : string :=
  "{" ^^ dq ^^ "index" ^^ dq ^^ ": {" ^^ dq ^^ "refresh_interval" ^^ dq ^^ ": "
      ^^ dq ^^ v ^^ dq ^^ "}}".

(** [{"index": {"number_of_replicas": %v}}], with the value already formatted *)
Definition replicasBody (v : string) : string :=
  "{" ^^ dq ^^ "index" ^^ dq ^^ ": {" ^^ dq ^^ "number_of_replicas" ^^ dq ^^ ": "
      ^^ v ^^ "}}".

Definition makeOptions (r : Runner.t) : Options.t :=
  {| Options.Servers := Runner.Servers r;
     Options.Index := Runner.IndexName r;
     Options.DocType := Runner.DocType r;
     Options.BatchSize := Runner.BatchSize r;
     Options.Verbose := Runner.Verbose r;
     Options.Scheme := "http";
     Options.IDField := Runner.IdentifierField r;
     Options.Username := Runner.Username r;
     Options.Password := Runner.Password r;
     Options.Pipeline := Runner.Pipeline r |}.

(** [doc[options.Index].(map[string]interface{})["settings"].(map[string]interface{})["index"].(map[string]interface{})["number_of_replicas"]];
    [None] when one of the three assertions panics. *)
Definition numberOfReplicasOf (options : Options.t) (doc : list (string * jvalue))
    : option jvalue :=
  match assertMap (index doc (Options.Index options)) with
  | None => None
  | Some m1 =>
      match assertMap (index m1 "settings") with
      | None => None
      | Some m2 =>
          match assertMap (index m2 "index") with
          | None => None
          | Some m3 => Some (index m3 "number_of_replicas")
          end
      end
  end.

(** The function deferred in iteration [iter] of the server loop.  The [err]
    it assigns is the variable that [doc, err := GetSettings(i, options)]
    declares in the loop body, not the result of [Run]: what the requests
    return decides only where the function stops. *)
Definition shutdown (w : World) (r : Runner.t) (options : Options.t) (iter : nat)
    (numberOfReplicas : jvalue) : M unit :=
  emit (EvRunDeferred iter) ;;
  (* Realtime search. *)
  r1 <- indexSettingsRequest w (RestoreRefresh iter)
          (refreshBody (Runner.RefreshInterval r)) options ;;
  match r1 with
  | inl _ => ret tt
  | inr _ =>
      (* Reset number of replicas. *)
      r2 <- indexSettingsRequest w (RestoreReplicas iter)
              (replicasBody (fmt_q w numberOfReplicas)) options ;;
      match r2 with
      | inl _ => ret tt
      | inr _ =>
          (* Persist documents. *)
          shared <- getLoopvar ;;
          let i := if loopvar_per_iteration w then iter else shared in
          emit (EvFlushIndex i options (FlushIndex w iter i options))
      end
  end.

(** The settings changes of iteration [i]: refreshing off, and no replicas
    when [r.ZeroReplica] is set. *)
Definition mutate (w : World) (r : Runner.t) (options : Options.t) (i : nat) : M unit :=
  (* Realtime search. *)
  r1 <- indexSettingsRequest w (MutRefresh i) (refreshBody "-1") options ;;
  match r1 with
  | inl e => return_ (Some e)
  | inr resp =>
      (if 400 <=? StatusCode resp then
         match httputil_DumpResponse w resp with
         | inl e => return_ (Some e)
         | inr b => return_ (Some ("got " ^^ itoa (StatusCode resp) ^^ ": " ^^ b))
         end
       else ret tt) ;;
      when (Runner.ZeroReplica r)
        (* Reset number of replicas. *)
        (r2 <- indexSettingsRequest w (MutReplicas i) (replicasBody "0") options ;;
         match r2 with
         | inl e => return_ (Some e)
         | inr _ => ret tt
         end)
  end.

(** One iteration of [for i, _ := range options.Servers]: the snapshot, the
    [defer] statement, the settings changes. *)
Definition serverIter (w : World) (r : Runner.t) (options : Options.t) (i : nat) : M unit :=
  setLoopvar i ;;
  (* Store number_of_replicas settings for restoration later. *)
  emit (EvGetSettings i options (GetSettings w i options)) ;;
  match GetSettings w i options with
  | inl e => return_ (Some e)
  | inr doc =>
      match numberOfReplicasOf options doc with
      | None => halt (Panicked "interface conversion")
      | Some numberOfReplicas =>
          when (Runner.Verbose r) (emit (EvLog (LogReplicasBack numberOfReplicas))) ;;
          when (Runner.Verbose r) (emit (EvLog (LogRefreshBack (Runner.RefreshInterval r)))) ;;
          (* Shutdown procedure. *)
          emit (EvDefer i numberOfReplicas) ;;
          defer (Shutdown r options i numberOfReplicas) ;;
          mutate w r options i
      end
  end.

Definition serverLoop (w : World) (r : Runner.t) (options : Options.t) : M unit :=
  forEach (seq 0 (List.length (Options.Servers options))) (serverIter w r options).

(** [queue <- line], the [counter]-th send *)
Definition send (w : World) (r : Runner.t) (counter : nat) (line : string) : M unit :=
  if (Runner.NumWorkers r <=? 0)%Z then halt Blocked
  else if queue_recv w counter then emit (EvSend line)
  else halt Exited.

(** The read loop; the result is the final [counter]. *)
Fixpoint readLoop (w : World) (r : Runner.t) (reads : list (string * option readErr))
    (counter : nat) : M nat :=
  match reads with
  | [] => emit (EvReadString "" (Some io_EOF)) ;; ret counter
  | (line, err) :: rest =>
      emit (EvReadString line err) ;;
      match err with
      | Some io_EOF => ret counter
      | Some (io_error e) => return_ (Some e)
      | None =>
          let line := TrimSpace line in
          if negb (nonempty line) then readLoop w r rest counter
          else if Runner.SkipBroken r && negb (IsJSON line) then
            when (Runner.Verbose r) (emit (EvSkipped line)) ;;
            readLoop w r rest counter
          else
            send w r counter line ;;
            readLoop w r rest (S counter)
      end
  end.

(** [wg.Wait()] *)
Definition wait (w : World) (r : Runner.t) : M unit :=
  emit EvWait ;;
  if (0 <? Runner.NumWorkers r)%Z && negb (workers_done w) then halt Exited else ret tt.

(** From [reader = bufio.NewReader(r.File)] to the end of [Run]. *)
Definition feed (w : World) (r : Runner.t) : M unit :=
  when (Runner.FileGzipped r)
    (match gzip_NewReader w with
     | Some e => emit (EvFatal e) ;; halt Exited
     | None => ret tt
     end) ;;
  counter <- readLoop w r (input w) 0 ;;
  emit EvClose ;;
  wait w r ;;
  when (nonempty (Runner.MemProfile r))
    (match os_Create w (Runner.MemProfile r) with
     | Some e => return_ (Some e)
     | None => emit (EvWriteHeapProfile (Runner.MemProfile r))
     end) ;;
  when (Runner.Verbose r) (emit (EvLog (LogReport counter (Runner.NumWorkers r)))) ;;
  return_ None.

(** [wg.Add(r.NumWorkers)] and the loop that starts the workers. *)
Definition startWorkers (r : Runner.t) (options : Options.t) : M unit :=
  emit (EvWgAdd (Runner.NumWorkers r)) ;;
  (if (Runner.NumWorkers r <? 0)%Z
   then halt (Panicked "sync: negative WaitGroup counter") else ret tt) ;;
  forEach (seq 0 (Z.to_nat (Runner.NumWorkers r)))
    (fun i => emit (EvGoWorker ("worker-" ^^ itoa i) options)).

(** [if len(r.Servers) == 0 { r.Servers = append(r.Servers, "http://localhost:9200") }] *)
Definition withDefaultServer (r : Runner.t) : Runner.t :=
  match Runner.Servers r with
  | [] => Runner.with_Servers r (Runner.Servers r ++ [defaultServer])
  | _ :: _ => r
  end.

(** The start of [Run]: the version, the CPU profile, the index name. *)
Definition prologue (w : World) (r : Runner.t) : M unit :=
  when (Runner.ShowVersion r) (emit (EvPrintln Version) ;; return_ None) ;;
  when (nonempty (Runner.CpuProfile r))
    (match os_Create w (Runner.CpuProfile r) with
     | Some e => return_ (Some e)
     | None => emit (EvStartCPUProfile (Runner.CpuProfile r)) ;; defer StopCPUProfile
     end) ;;
  when (negb (nonempty (Runner.IndexName r))) (return_ (Some "index name required")).

(** From the default server to the mapping: the options, purge, index
    creation and mapping.  The result is the runner with its server list
    filled in, and the options. *)
Definition preflight (w : World) (r : Runner.t) : M (Runner.t * Options.t) :=
  let r := withDefaultServer r in
  when (Runner.Verbose r) (emit (EvLog (LogUsingServers (List.length (Runner.Servers r))))) ;;
  let options := makeOptions r in
  when (Runner.Verbose r) (emit (EvLog (LogOptions options))) ;;
  when (Runner.Purge r)
    (try (EvDeleteIndex options) (DeleteIndex w options) ;; emit EvSleep5s) ;;
  try (EvCreateIndex options) (CreateIndex w options) ;;
  when (nonempty (Runner.Mapping r))
    (src <- (if os_Stat_IsNotExist w (Runner.Mapping r)
             then ret (MappingString (Runner.Mapping r))
             else match os_Open w (Runner.Mapping r) with
                  | Some e => return_ (Some e)
                  | None => ret (MappingFile (Runner.Mapping r))
                  end) ;;
     try (EvPutMapping options src) (PutMapping w options src)) ;;
  ret (r, options).

Definition prepare (w : World) (r : Runner.t) : M (Runner.t * Options.t) :=
  prologue w r ;; preflight w r.

Definition RunBody (w : World) (r : Runner.t) : M unit :=
  ro <- prepare w r ;;
  let '(r, options) := ro in
  startWorkers r options ;;
  serverLoop w r options ;;
  feed w r.

Definition runDeferredCall (w : World) (d : deferred) : M unit :=
  match d with
  | StopCPUProfile => emit EvStopCPUProfile
  | Shutdown r options i numberOfReplicas => shutdown w r options i numberOfReplicas
  end.

(** The deferred calls, last registered first.  Each runs to its end whatever
    the one before it did. *)
Fixpoint runDefers (w : World) (ds : list deferred) (c : control) : list event :=
  match ds with
  | [] => []
  | d :: ds' =>
      match runDeferredCall w d c with
      | (evs, c', _) => evs ++ runDefers w ds' c'
      end
  end.

(** Whether leaving [Run] this way runs the deferred calls: a return and a
    panic do; [os.Exit] and a goroutine blocked for ever do not. *)
Definition runsDeferred (s : stop) : bool :=
  match s with
  | Returned _ | Panicked _ => true
  | Exited | Blocked => false
  end.

Definition leave (w : World) (evs : list event) (c : control) (s : stop)
    : list event * stop :=
  if runsDeferred s then (evs ++ runDefers w (defers c) c, s) else (evs, s).

Definition entry : control := {| defers := []; loopvar := 0 |}.

(** [Run]: the events, and how the function ended. *)
Definition Run (w : World) (r : Runner.t) : list event * stop :=
  match RunBody w r entry with
  | (evs, c, Val _) => leave w evs c (Returned None)
  | (evs, c, Stop s) => leave w evs c s
  end.

(** ** Vocabulary for the properties of [Run] *)

Definition events {A} (x : list event * control * res A) : list event := fst (fst x).
Definition ctl {A} (x : list event * control * res A) : control := snd (fst x).
Definition result {A} (x : list event * control * res A) : res A := snd x.

(** [emits P m]: every event [m] writes satisfies [P]. *)
Definition emits {A} (P : event -> Prop) (m : M A) : Prop :=
  forall c, Forall P (events (m c)).

(** [keeps m]: [m] leaves the control state as it found it. *)
Definition keeps {A} (m : M A) : Prop := forall c, ctl (m c) = c.

(** The events of each part of [Run]. *)
Definition prepareEvent (e : event) : bool :=
  match e with
  | EvPrintln _ | EvStartCPUProfile _ | EvDeleteIndex _ _ | EvSleep5s
  | EvCreateIndex _ _ | EvPutMapping _ _ _
  | EvLog (LogUsingServers _) | EvLog (LogOptions _) => true
  | _ => false
  end.

Definition workerEvent (e : event) : bool :=
  match e with
  | EvWgAdd _ | EvGoWorker _ _ => true
  | _ => false
  end.

Definition loopEvent (e : event) : bool :=
  match e with
  | EvGetSettings _ _ _ | EvDefer _ _
  | EvDo (MutRefresh _) _ _ | EvDo (MutReplicas _) _ _
  | EvLog (LogReplicasBack _) | EvLog (LogRefreshBack _) | EvLog (LogApplied _ _) => true
  | _ => false
  end.

Definition feedEvent (e : event) : bool :=
  match e with
  | EvFatal _ | EvReadString _ _ | EvSkipped _ | EvSend _ | EvClose | EvWait
  | EvWriteHeapProfile _ | EvLog (LogReport _ _) => true
  | _ => false
  end.

Definition cleanupEvent (e : event) : bool :=
  match e with
  | EvStopCPUProfile | EvRunDeferred _ | EvFlushIndex _ _ _
  | EvDo (RestoreRefresh _) _ _ | EvDo (RestoreReplicas _) _ _
  | EvLog (LogApplied _ _) => true
  | _ => false
  end.

Definition isLog (e : event) : bool :=
  match e with EvLog _ => true | _ => false end.

(** The URL of the settings endpoint of [server]. *)
Definition settingsLink (options : Options.t) (server : string) : string :=
  server ^^ "/" ^^ Options.Index options ^^ "/_settings".

(** What a settings request looks like, whoever sends it. *)
Definition settingsRequest (options : Options.t) (req : Request) : Prop :=
  Method req = "PUT"
  /\ (exists server, In server (Options.Servers options)
        /\ URL req = settingsLink options server)
  /\ BasicAuth req =
       (if nonempty (Options.Username options) && nonempty (Options.Password options)
        then Some (Options.Username options, Options.Password options) else None)
  /\ Header req = [("Content-Type", "application/json")].

(** The events of [indexSettingsRequest] called at [at_] with [body]. *)
Definition requestEvent (options : Options.t) (at_ : site) (body : string) (e : event) : Prop :=
  match e with
  | EvDo s req _ => s = at_ /\ Body req = body /\ settingsRequest options req
  | EvLog (LogApplied b _) => b = body
  | _ => False
  end.

(** The request that switches refreshing off did not succeed: a transport
    error, or a status code of 400 and above. *)
Definition failed (rs : error + Response) : Prop :=
  match rs with
  | inl _ => True
  | inr resp => 400 <= StatusCode resp
  end.

(** The site belongs to the settings changes of iteration [i]. *)
Definition mutationSite (i : nat) (s : site) : bool :=
  match s with
  | MutRefresh j | MutReplicas j => j =? i
  | _ => false
  end.

(** An event of the settings changes of iteration [i]. *)
Definition mutationEvent (i : nat) (e : event) : Prop :=
  isLog e = true \/ exists s req rsp, e = EvDo s req rsp /\ mutationSite i s = true.

(** The shutdown functions that the [defer] statements in [evs] registered,
    oldest first. *)
Definition registered (evs : list event) : list (nat * jvalue) :=
  flat_map (fun e => match e with EvDefer i nr => [(i, nr)] | _ => [] end) evs.

(** The deferred calls they stand for. *)
Definition closures (r : Runner.t) (o : Options.t) (l : list (nat * jvalue)) : list deferred :=
  map (fun p => Shutdown r o (fst p) (snd p)) l.

(** What the server loop, or a part of it, has done when it wrote [evs] and
    went from the control state [c] to [c'] with the result [rs]: the
    deferred calls are the registered ones, last first; a settings change
    comes after the [defer] statement of its iteration; a failed request to
    switch refreshing off is an error return; a registered number of
    replicas is the one of the snapshot. *)
Definition loopFacts (r : Runner.t) (o : Options.t) (c : control) (evs : list event)
    (c' : control) (rs : res unit) : Prop :=
  defers c' = closures r o (rev (registered evs)) ++ defers c
  /\ (forall i s req rsp, mutationSite i s = true -> In (EvDo s req rsp) evs ->
      exists nr l1 l2 l3, evs = l1 ++ EvDefer i nr :: l2 ++ EvDo s req rsp :: l3)
  /\ (forall i req rsp, In (EvDo (MutRefresh i) req rsp) evs -> failed rsp ->
      exists e, rs = Stop (Returned (Some e)))
  /\ (forall i nr, In (EvDefer i nr) evs ->
      exists doc, In (EvGetSettings i o (inr doc)) evs
                  /\ numberOfReplicasOf o doc = Some nr).

(** [occursBefore P Q tr]: some event with [P] comes before some event with [Q]. *)
Fixpoint occursBefore (P Q : event -> bool) (tr : list event) : bool :=
  match tr with
  | [] => false
  | e :: tr' => (P e && existsb Q tr') || occursBefore P Q tr'
  end.

Definition isMutation (i : nat) (e : event) : bool :=
  match e with EvDo s _ _ => mutationSite i s | _ => false end.

Definition isDefer (i : nat) (e : event) : bool :=
  match e with EvDefer j _ => j =? i | _ => false end.

Definition isFlush (e : event) : bool :=
  match e with EvFlushIndex _ _ _ => true | _ => false end.

Definition isRestoreReplicas (e : event) : bool :=
  match e with EvDo (RestoreReplicas _) _ _ => true | _ => false end.

(** The next deferred call begins, or there is none. *)
Definition deferredBoundary (post : list event) : Prop :=
  match post with
  | [] => True
  | e :: _ => e = EvStopCPUProfile \/ exists j, e = EvRunDeferred j
  end.

(** What the shutdown function of iteration [i] does after it has started,
    log lines left out: the three steps in their order, cut short at the
    first request that cannot be built or gets no answer. *)
Inductive cleanupSteps (w : World) (r : Runner.t) (options : Options.t) (i : nat)
    (numberOfReplicas : jvalue) : list event -> Prop :=
| refresh_not_built server e :
    In server (Options.Servers options) ->
    url_Parse w (settingsLink options server) = Some e ->
    cleanupSteps w r options i numberOfReplicas []
| refresh_no_answer req e :
    Body req = refreshBody (Runner.RefreshInterval r) ->
    settingsRequest options req ->
    cleanupSteps w r options i numberOfReplicas
      [EvDo (RestoreRefresh i) req (inl e)]
| replicas_not_built req resp server e :
    Body req = refreshBody (Runner.RefreshInterval r) ->
    settingsRequest options req ->
    In server (Options.Servers options) ->
    url_Parse w (settingsLink options server) = Some e ->
    cleanupSteps w r options i numberOfReplicas
      [EvDo (RestoreRefresh i) req (inr resp)]
| replicas_no_answer req resp req' e :
    Body req = refreshBody (Runner.RefreshInterval r) ->
    settingsRequest options req ->
    Body req' = replicasBody (fmt_q w numberOfReplicas) ->
    settingsRequest options req' ->
    cleanupSteps w r options i numberOfReplicas
      [EvDo (RestoreRefresh i) req (inr resp); EvDo (RestoreReplicas i) req' (inl e)]
| all_three req resp req' resp' j :
    (loopvar_per_iteration w = true -> j = i) ->
    Body req = refreshBody (Runner.RefreshInterval r) ->
    settingsRequest options req ->
    Body req' = replicasBody (fmt_q w numberOfReplicas) ->
    settingsRequest options req' ->
    cleanupSteps w r options i numberOfReplicas
      [EvDo (RestoreRefresh i) req (inr resp); EvDo (RestoreReplicas i) req' (inr resp');
       EvFlushIndex j options (FlushIndex w i j options)].

(** The lines put on the queue, the lines reported as skipped, the counts
    reported at the end. *)
Definition sent (evs : list event) : list string :=
  flat_map (fun e => match e with EvSend l => [l] | _ => [] end) evs.

Definition skipped (evs : list event) : list string :=
  flat_map (fun e => match e with EvSkipped l => [l] | _ => [] end) evs.

Definition reported (evs : list event) : list nat :=
  flat_map (fun e => match e with EvLog (LogReport n _) => [n] | _ => [] end) evs.

(** An event that neither sends nor skips a line, and reports no count but [k]. *)
Definition quiet (k : nat) (e : event) : Prop :=
  match e with
  | EvSend _ | EvSkipped _ => False
  | EvLog (LogReport n _) => n = k
  | _ => True
  end.

(** The lines that [ReadString] delivers before the end of the input or the
    first read error. *)
Fixpoint linesRead (reads : list (string * option readErr)) : list string :=
  match reads with
  | (line, None) :: rest => line :: linesRead rest
  | _ => []
  end.

(** The trimmed lines that are not empty. *)
Definition nonblank (lines : list string) : list string :=
  filter nonempty (map TrimSpace lines).

(** The lines that pass the tests of the read loop, and those that skip mode
    drops. *)
Definition accepted (r : Runner.t) (lines : list string) : list string :=
  filter (fun l => negb (Runner.SkipBroken r && negb (IsJSON l))) (nonblank lines).

Definition broken (r : Runner.t) (lines : list string) : list string :=
  filter (fun l => Runner.SkipBroken r && negb (IsJSON l)) (nonblank lines).

(** Every request goes to one of [servers], and every call of the package
    gets options that name exactly [servers]. *)
Definition usesServers (servers : list string) (index : string) (e : event) : Prop :=
  match e with
  | EvDo _ req _ => exists server, In server servers /\ URL req = server ^^ "/" ^^ index ^^ "/_settings"
  | EvDeleteIndex o _ | EvCreateIndex o _ | EvPutMapping o _ _ | EvGoWorker _ o
  | EvGetSettings _ o _ | EvFlushIndex _ o _ | EvLog (LogOptions o) => Options.Servers o = servers
  | _ => True
  end.

(** The events that come before any request, any index or any line. *)
Definition startupEvent (e : event) : bool :=
  match e with
  | EvPrintln _ | EvStartCPUProfile _ | EvStopCPUProfile => true
  | _ => false
  end.

(** ** The queue, the producer and the workers

    [Run] after the server loop is one producer; the goroutines it started
    are the consumers of the unbuffered channel [queue].  The whole is a
    transition system: a state of the producer, of the channel, of the
    [WaitGroup] and of every worker, and one function that performs a step
    chosen by the scheduler. *)

(** Modelled from the spec: the function [Worker] is in another file of the
    package.  Sections 4.1 and 4.2 give it three states, _accumulating_,
    _flushing_ (the batch is with the Transport Client) and _draining_ (the
    queue is closed, the final batch is being finished), and the end. *)
Inductive worker :=
| Accumulating (batch : list string)
| Flushing (batch : list string)
| Draining (batch : list string)
| Terminated.

(** Where the producer stands in [Run]. *)
Inductive producer :=
| Reading                    (* [line, err := reader.ReadString('\n')] *)
| Sending (line : string)    (* [queue <- line] *)
| Counting                   (* [counter++] *)
| Closing                    (* [close(queue)] *)
| Waiting                    (* [wg.Wait()] *)
| Joined                     (* past [wg.Wait()] *)
| ReadFailed (e : error).    (* [return err] out of the loop *)

Record pipeline := {
  prod : producer;
  reads : list (string * option readErr);   (* what the reader still holds *)
  counter : nat;                            (* the variable [counter] of [Run] *)
  closed : bool;                            (* [queue] is closed *)
  wg : nat;                                 (* the counter of the [WaitGroup] *)
  workers : list worker;
  delivered : list (list string);           (* the batches handed to the Transport Client *)
  enqueued : list string;                   (* the lines sent on [queue] so far *)
  aborted : bool                            (* a worker ended the process *)
}.

(** The scheduler's choice. *)
Inductive action :=
| Produce                        (* the producer's next statement, a send apart *)
| Handoff (k : nat)              (* the send meets the receive of worker [k] *)
| Flush (k : nat) (ok : bool)    (* the Transport Client answers worker [k] *)
| SeeClosed (k : nat)            (* worker [k] finds the queue closed *)
| Finish (k : nat) (ok : bool).  (* worker [k] sends its final batch, if any, and ends *)

Fixpoint update {A} (k : nat) (x : A) (l : list A) : list A :=
  match l, k with
  | [], _ => []
  | _ :: t, 0 => x :: t
  | h :: t, S k' => h :: update k' x t
  end.

Definition setProducer (p : producer) (rest : list (string * option readErr))
    (s : pipeline) : pipeline :=
  {| prod := p; reads := rest; counter := counter s; closed := closed s; wg := wg s;
     workers := workers s; delivered := delivered s; enqueued := enqueued s;
     aborted := aborted s |}.

(** The statements of the producer, from the source of [Run]. *)
Definition produce (r : Runner.t) (s : pipeline) : option pipeline :=
  match prod s with
  | Reading =>
      match reads s with
      | [] => Some (setProducer Closing [] s)
      | (_, Some io_EOF) :: rest => Some (setProducer Closing rest s)
      | (_, Some (io_error e)) :: rest => Some (setProducer (ReadFailed e) rest s)
      | (line, None) :: rest =>
          let line := TrimSpace line in
          if negb (nonempty line) then Some (setProducer Reading rest s)
          else if Runner.SkipBroken r && negb (IsJSON line)
               then Some (setProducer Reading rest s)
               else Some (setProducer (Sending line) rest s)
      end
  | Sending _ => None
  | Counting =>
      Some {| prod := Reading; reads := reads s; counter := S (counter s);
              closed := closed s; wg := wg s; workers := workers s;
              delivered := delivered s; enqueued := enqueued s; aborted := aborted s |}
  | Closing =>
      Some {| prod := Waiting; reads := reads s; counter := counter s;
              closed := true; wg := wg s; workers := workers s;
              delivered := delivered s; enqueued := enqueued s; aborted := aborted s |}
  | Waiting => if wg s =? 0 then Some (setProducer Joined (reads s) s) else None
  | Joined => None
  | ReadFailed _ => None
  end.

(** Modelled from the spec: what a worker does with a line it receives
    (section 4.2): it appends the line to its batch, and the batch is flushed
    when it reaches the configured size. *)
Definition receive (r : Runner.t) (batch : list string) (line : string) : worker :=
  let batch' := batch ++ [line] in
  if (Runner.BatchSize r <=? Z.of_nat (List.length batch'))%Z
  then Flushing batch' else Accumulating batch'.

Definition abort (s : pipeline) : pipeline :=
  {| prod := prod s; reads := reads s; counter := counter s; closed := closed s;
     wg := wg s; workers := workers s; delivered := delivered s;
     enqueued := enqueued s; aborted := true |}.

(** Modelled from the spec: the steps of the workers (sections 4.1 and 4.2).
    A send and a receive on the unbuffered queue are one step.  A batch that
    the Transport Client cannot submit ends the process; a closed queue makes
    a worker send its partial batch, if it has one, and terminate, which the
    [WaitGroup] counts. *)
Definition step (r : Runner.t) (a : action) (s : pipeline) : option pipeline :=
  if aborted s then None
  else
    match a with
    | Produce => produce r s
    | Handoff k =>
        match prod s, nth_error (workers s) k with
        | Sending line, Some (Accumulating batch) =>
            Some {| prod := Counting; reads := reads s; counter := counter s;
                    closed := closed s; wg := wg s;
                    workers := update k (receive r batch line) (workers s);
                    delivered := delivered s; enqueued := enqueued s ++ [line];
                    aborted := false |}
        | _, _ => None
        end
    | Flush k ok =>
        match nth_error (workers s) k with
        | Some (Flushing batch) =>
            if ok then
              Some {| prod := prod s; reads := reads s; counter := counter s;
                      closed := closed s; wg := wg s;
                      workers := update k (Accumulating []) (workers s);
                      delivered := delivered s ++ [batch]; enqueued := enqueued s;
                      aborted := false |}
            else Some (abort s)
        | _ => None
        end
    | SeeClosed k =>
        match nth_error (workers s) k with
        | Some (Accumulating batch) =>
            if closed s then
              Some {| prod := prod s; reads := reads s; counter := counter s;
                      closed := closed s; wg := wg s;
                      workers := update k (Draining batch) (workers s);
                      delivered := delivered s; enqueued := enqueued s;
                      aborted := false |}
            else None
        | _ => None
        end
    | Finish k ok =>
        match nth_error (workers s) k with
        | Some (Draining batch) =>
            match batch with
            | [] =>
                Some {| prod := prod s; reads := reads s; counter := counter s;
                        closed := closed s; wg := pred (wg s);
                        workers := update k Terminated (workers s);
                        delivered := delivered s; enqueued := enqueued s;
                        aborted := false |}
            | _ :: _ =>
                if ok then
                  Some {| prod := prod s; reads := reads s; counter := counter s;
                          closed := closed s; wg := pred (wg s);
                          workers := update k Terminated (workers s);
                          delivered := delivered s ++ [batch]; enqueued := enqueued s;
                          aborted := false |}
                else Some (abort s)
            end
        | _ => None
        end
    end.

Fixpoint exec (r : Runner.t) (acts : list action) (s : pipeline) : option pipeline :=
  match acts with
  | [] => Some s
  | a :: acts' =>
      match step r a s with
      | Some s' => exec r acts' s'
      | None => None
      end
  end.

(** The state when the read loop is entered: [wg.Add(r.NumWorkers)] is done,
    every worker waits for its first line, [counter = 0]. *)
Definition start (r : Runner.t) (w : World) : pipeline :=
  {| prod := Reading; reads := input w; counter := 0; closed := false;
     wg := Z.to_nat (Runner.NumWorkers r);
     workers := repeat (Accumulating []) (Z.to_nat (Runner.NumWorkers r));
     delivered := []; enqueued := []; aborted := false |}.

(** The lines a worker holds. *)
Definition pending (x : worker) : list string :=
  match x with
  | Accumulating b | Flushing b | Draining b => b
  | Terminated => []
  end.

Definition running (x : worker) : bool :=
  match x with Terminated => false | _ => true end.

(** What holds in every state the pipeline can reach. *)
Record pipelineInv (r : Runner.t) (w : World) (s : pipeline) : Prop := {
  inv_workers : List.length (workers s) = Z.to_nat (Runner.NumWorkers r);
  inv_wg : wg s = List.length (filter running (workers s));
  inv_lines : Permutation (enqueued s)
                (List.concat (delivered s) ++ List.concat (map pending (workers s)));
  inv_counter : counter s + (match prod s with Counting => 1 | _ => 0 end)
                = List.length (enqueued s);
  inv_closed : match prod s with
               | Waiting | Joined => closed s = true
               | _ => True
               end;
  inv_joined : prod s = Joined -> wg s = 0;
  inv_input : match prod s with
              | Reading | Counting =>
                  accepted r (linesRead (input w))
                  = enqueued s ++ accepted r (linesRead (reads s))
              | Sending line =>
                  accepted r (linesRead (input w))
                  = enqueued s ++ line :: accepted r (linesRead (reads s))
              | Closing | Waiting | Joined =>
                  accepted r (linesRead (input w)) = enqueued s
              | ReadFailed _ => True
              end
}.

(** ** Concrete runs *)

Definition newline : string := String (ascii_of_nat 10) EmptyString.

(** The answer of a server to [GET /<index>/_settings], decoded. *)
Definition settingsDoc (o : Options.t) (replicas : string) : list (string * jvalue) :=
  [(Options.Index o,
    JObj [("settings", JObj [("index", JObj [("number_of_replicas", JStr replicas)])])])].

Definition ok200 : Response := {| StatusCode := 200; Status := "200 OK" |}.

(** A world in which everything works but the settings requests, which get
    the answers of [answer], and the URLs that [parse] rejects; the reader
    holds [lines]. *)
Definition exampleWorld (lines : list string) (answer : site -> error + Response)
    (parse : string -> option error) : World :=
  {| os_Create := fun _ => None;
     os_Stat_IsNotExist := fun _ => true;
     os_Open := fun _ => None;
     DeleteIndex := fun _ => None;
     CreateIndex := fun _ => None;
     PutMapping := fun _ _ => None;
     GetSettings := fun i o => inr (settingsDoc o (itoa (S i)));
     FlushIndex := fun _ _ _ => None;
     rand_Intn := fun _ _ => 0;
     url_Parse := parse;
     pester_Do := fun s _ => answer s;
     httputil_DumpResponse := fun _ => inr "HTTP/1.1 503 Service Unavailable";
     fmt_q := fun v => match v with JStr s => dq ^^ s ^^ dq | _ => "%!q" end;
     gzip_NewReader := None;
     input := map (fun l => (l ^^ newline, None)) lines;
     queue_recv := fun _ => true;
     workers_done := true;
     loopvar_per_iteration := false |}.

Definition calm (lines : list string) : World :=
  exampleWorld lines (fun _ => inr ok200) (fun _ => None).

Definition exampleRunner (index : string) (servers : list string)
    (showVersion skipBroken verbose : bool) : Runner.t :=
  {| Runner.BatchSize := 2; Runner.CpuProfile := ""; Runner.DocType := "default";
     Runner.FileGzipped := false; Runner.IdentifierField := "";
     Runner.IndexName := index; Runner.Mapping := ""; Runner.MemProfile := "";
     Runner.NumWorkers := 2; Runner.Password := "secret"; Runner.Pipeline := "";
     Runner.Purge := false; Runner.RefreshInterval := "1s"; Runner.Scheme := "http";
     Runner.Servers := servers; Runner.ShowVersion := showVersion;
     Runner.SkipBroken := skipBroken; Runner.Username := "";
     Runner.Verbose := verbose; Runner.ZeroReplica := false |}.

Definition twoServers : list string := ["http://a:9200"; "http://b:9200"].

(** Ten lines of valid JSON and the line [not json]. *)
Definition tenAndOne : list string :=
  ["{}"; "[1, 2]"; "0"; "true"; "null"; "not json"; "-1.5e3"; "[]"; "{ }"; "[{}]"; "  7  "].

(** The second server does not answer the request that switches refreshing off. *)
Definition secondServerDown (s : site) : error + Response :=
  match s with
  | MutRefresh 1 => inl "connection refused"
  | _ => inr ok200
  end.

(** The request that restores the refresh interval gets no answer. *)
Definition restoreDown (s : site) : error + Response :=
  match s with
  | RestoreRefresh _ => inl "connection refused"
  | _ => inr ok200
  end.

(** The first server answers 503 to the request that switches refreshing off. *)
Definition unavailable (s : site) : error + Response :=
  match s with
  | MutRefresh 0 => inr {| StatusCode := 503; Status := "503 Service Unavailable" |}
  | _ => inr ok200
  end.

(** The settings request for [body] that a runner without credentials sends
    to [server]. *)
Definition exampleRequest (server index body : string) : Request :=
  {| Method := "PUT"; URL := server ^^ "/" ^^ index ^^ "/_settings"; Body := body;
     BasicAuth := None; Header := [("Content-Type", "application/json")] |}.

(** Three lines for two workers with batches of two: the first worker gets
    the first and the third line and sends them as a full batch, the second
    worker sends the second line when the queue is closed. *)
Definition threeLines : list string := ["{}"; "[1]"; "0"].

Definition exampleSchedule : list action :=
  [Produce; Handoff 0; Produce;
   Produce; Handoff 1; Produce;
   Produce; Handoff 0; Produce; Flush 0 true;
   Produce; Produce;
   SeeClosed 0; SeeClosed 1; Finish 0 true; Finish 1 true;
   Produce].

(** Two lines, both taken by the first worker: its batch is full, and the
    producer has not yet counted the second line. *)
Definition fullBatchSchedule : list action :=
  [Produce; Handoff 0; Produce; Produce; Handoff 0].

(** The states these schedules lead to. *)
Definition stateAfter (r : Runner.t) (w : World) (acts : list action) : pipeline :=
  match exec r acts (start r w) with
  | Some s => s
  | None => start r w
  end.

Definition joinedState : pipeline :=
  Eval vm_compute in
    stateAfter (exampleRunner "idx" twoServers false true false) (calm threeLines)
      exampleSchedule.

Definition fullBatchState : pipeline :=
  Eval vm_compute in
    stateAfter (exampleRunner "idx" twoServers false true false) (calm threeLines)
      fullBatchSchedule.

Definition flushedState : pipeline :=
  Eval vm_compute in
    stateAfter (exampleRunner "idx" twoServers false true false) (calm threeLines)
      (fullBatchSchedule ++ [Flush 0 true]).

(** ** More vocabulary: what else a run does and does not do *)


(** A pre-flight call of the package that returned the error [e]. *)
Definition preflightError (e : error) (ev : event) : Prop :=
  match ev with
  | EvDeleteIndex _ (Some e') | EvCreateIndex _ (Some e') | EvPutMapping _ _ (Some e') =>
      e' = e
  | _ => False
  end.

(** An event that is no part of any deferred call. *)
Definition notDeferred (e : event) : Prop :=
  match e with
  | EvStopCPUProfile | EvRunDeferred _ | EvFlushIndex _ _ _
  | EvDo (RestoreRefresh _) _ _ | EvDo (RestoreReplicas _) _ _ => False
  | _ => True
  end.

(** An event that deletes nothing. *)
Definition notPurge (e : event) : Prop :=
  match e with
  | EvDeleteIndex _ _ | EvSleep5s => False
  | _ => True
  end.

(** [aborts bad m]: when [m] writes an event that [bad] relates to an
    error, [m] returns this error. *)
Definition aborts {A} (bad : error -> event -> Prop) (m : M A) : Prop :=
  forall c e ev, In ev (events (m c)) -> bad e ev ->
                 result (m c) = Stop (Returned (Some e)).

(** [same m m']: two computations that do the same from every control state. *)
Definition same {A} (m m' : M A) : Prop := forall c, m c = m' c.

(** The world in which no cleanup succeeds: the requests of the shutdown
    functions get no answer and the flush fails; all else is as in [w]. *)
Definition failCleanup (w : World) : World :=
  {| os_Create := os_Create w;
     os_Stat_IsNotExist := os_Stat_IsNotExist w;
     os_Open := os_Open w;
     DeleteIndex := DeleteIndex w;
     CreateIndex := CreateIndex w;
     PutMapping := PutMapping w;
     GetSettings := GetSettings w;
     FlushIndex := fun _ _ _ => Some "flush failed";
     rand_Intn := rand_Intn w;
     url_Parse := url_Parse w;
     pester_Do := fun s req =>
                    match s with
                    | RestoreRefresh _ | RestoreReplicas _ => inl "no answer"
                    | _ => pester_Do w s req
                    end;
     httputil_DumpResponse := httputil_DumpResponse w;
     fmt_q := fmt_q w;
     gzip_NewReader := gzip_NewReader w;
     input := input w;
     queue_recv := queue_recv w;
     workers_done := workers_done w;
     loopvar_per_iteration := loopvar_per_iteration w |}.

(** [w] with other answers of the reader, of [gzip.NewReader], of
    [GetSettings] and of [CreateIndex]. *)
Definition otherWorld (w : World) (reads : list (string * option readErr))
    (gz : option error) (settings : nat -> Options.t -> error + list (string * jvalue))
    (create : Options.t -> option error) : World :=
  {| os_Create := os_Create w;
     os_Stat_IsNotExist := os_Stat_IsNotExist w;
     os_Open := os_Open w;
     DeleteIndex := DeleteIndex w;
     CreateIndex := create;
     PutMapping := PutMapping w;
     GetSettings := settings;
     FlushIndex := FlushIndex w;
     rand_Intn := rand_Intn w;
     url_Parse := url_Parse w;
     pester_Do := pester_Do w;
     httputil_DumpResponse := httputil_DumpResponse w;
     fmt_q := fmt_q w;
     gzip_NewReader := gz;
     input := reads;
     queue_recv := queue_recv w;
     workers_done := workers_done w;
     loopvar_per_iteration := loopvar_per_iteration w |}.

(** [r] with another number of workers and other flags. *)
Definition otherRunner (r : Runner.t) (workers : Z) (gzipped purge zeroReplica : bool)
    : Runner.t :=
  {| Runner.BatchSize := Runner.BatchSize r; Runner.CpuProfile := Runner.CpuProfile r;
     Runner.DocType := Runner.DocType r; Runner.FileGzipped := gzipped;
     Runner.IdentifierField := Runner.IdentifierField r;
     Runner.IndexName := Runner.IndexName r; Runner.Mapping := Runner.Mapping r;
     Runner.MemProfile := Runner.MemProfile r; Runner.NumWorkers := workers;
     Runner.Password := Runner.Password r; Runner.Pipeline := Runner.Pipeline r;
     Runner.Purge := purge; Runner.RefreshInterval := Runner.RefreshInterval r;
     Runner.Scheme := Runner.Scheme r; Runner.Servers := Runner.Servers r;
     Runner.ShowVersion := Runner.ShowVersion r; Runner.SkipBroken := Runner.SkipBroken r;
     Runner.Username := Runner.Username r; Runner.Verbose := Runner.Verbose r;
     Runner.ZeroReplica := zeroReplica |}.


(** A world in which the index cannot be created. *)
Definition createFails : World :=
  otherWorld (calm ["{}"]) (input (calm ["{}"])) None (GetSettings (calm ["{}"]))
    (fun _ => Some "connection refused").

(** An event of the read loop itself. *)
Definition lineEvent (e : event) : Prop :=
  match e with
  | EvReadString _ _ | EvSkipped _ | EvSend _ => True
  | _ => False
  end.

(** A world whose input is not a gzip stream, and a runner that expects one. *)
Definition notGzipped : World :=
  otherWorld (calm ["{}"]) (input (calm ["{}"])) (Some "gzip: invalid header")
    (GetSettings (calm ["{}"])) (CreateIndex (calm ["{}"])).

Definition gzipRunner : Runner.t :=
  otherRunner (exampleRunner "idx" twoServers false false false) 2 true false false.

(** A world whose reader fails after the first line. *)
Definition readFails : World :=
  otherWorld (calm []) [("{}" ^^ newline, None); ("", Some (io_error "unexpected EOF"))]
    None (GetSettings (calm [])) (CreateIndex (calm [])).

(** A world whose input ends with a line that has no newline. *)
Definition unterminated : World :=
  otherWorld (calm []) [("{}" ^^ newline, None); ("[1]", Some io_EOF)]
    None (GetSettings (calm [])) (CreateIndex (calm [])).

(** A runner without workers, and one with a negative number of them. *)
Definition noWorkers : Runner.t :=
  otherRunner (exampleRunner "idx" twoServers false false false) 0 false false false.



(** [keepsVar m]: [m] leaves the loop variable of the server loop as it is. *)
Definition keepsVar {A} (m : M A) : Prop := forall c, loopvar (ctl (m c)) = loopvar c.

(** [stopsWith Q m]: when [m] ends the function, it ends it in a way that
    [Q] holds of. *)
Definition stopsWith {A} (Q : stop -> Prop) (m : M A) : Prop :=
  forall c s, result (m c) = Stop s -> Q s.

(** Every way to leave [Run] but [return nil]. *)
Definition notNil (s : stop) : Prop := s <> Returned None.

(** What a run that does all of its work writes: the index is created,
    refreshing is switched off in every iteration of the server loop with a
    status below 400, the input is read to its end, the queue is closed and
    the workers are waited for. *)
Definition complete (r : Runner.t) (tr : list event) : Prop :=
  let o := makeOptions (withDefaultServer r) in
  In (EvCreateIndex o None) tr
  /\ (forall i, i < List.length (Options.Servers o) ->
        exists req resp, In (EvDo (MutRefresh i) req (inr resp)) tr
                         /\ StatusCode resp < 400)
  /\ (exists line, In (EvReadString line (Some io_EOF)) tr)
  /\ In EvClose tr
  /\ In EvWait tr.

(** A runner that writes a CPU profile and a heap profile. *)
Definition profiledRunner : Runner.t :=
  {| Runner.BatchSize := 2; Runner.CpuProfile := "cpu.prof"; Runner.DocType := "default";
     Runner.FileGzipped := false; Runner.IdentifierField := "";
     Runner.IndexName := "idx"; Runner.Mapping := ""; Runner.MemProfile := "mem.prof";
     Runner.NumWorkers := 2; Runner.Password := ""; Runner.Pipeline := "";
     Runner.Purge := false; Runner.RefreshInterval := "1s"; Runner.Scheme := "http";
     Runner.Servers := twoServers; Runner.ShowVersion := false;
     Runner.SkipBroken := false; Runner.Username := "";
     Runner.Verbose := false; Runner.ZeroReplica := false |}.

(** [yields P m]: when [m] goes on, it does so with a value that [P] holds of. *)
Definition yields {A} (P : A -> Prop) (m : M A) : Prop :=
  forall c a, result (m c) = Val a -> P a.

(** Where an error that [Run] returns can come from: the check of the index
    name; [os.Create] for one of the profiles; [DeleteIndex], [CreateIndex],
    [os.Open] of the mapping file, [PutMapping]; [GetSettings]; the parsing
    of a settings URL; [pester.Do] for a request of the server loop;
    [httputil.DumpResponse], or the message made of a status of 400 and
    above and the dump, for an answer to the request that switches
    refreshing off; the reader. *)
Definition origin (w : World) (r : Runner.t) (e : error) : Prop :=
  let o := makeOptions (withDefaultServer r) in
  e = "index name required"
  \/ os_Create w (Runner.CpuProfile r) = Some e
  \/ DeleteIndex w o = Some e
  \/ CreateIndex w o = Some e
  \/ os_Open w (Runner.Mapping r) = Some e
  \/ (exists src, PutMapping w o src = Some e)
  \/ (exists i, GetSettings w i o = inl e)
  \/ (exists link, url_Parse w link = Some e)
  \/ (exists i req, pester_Do w (MutRefresh i) req = inl e
                    \/ pester_Do w (MutReplicas i) req = inl e)
  \/ (exists i req resp,
         pester_Do w (MutRefresh i) req = inr resp
         /\ 400 <= StatusCode resp
         /\ (httputil_DumpResponse w resp = inl e
             \/ exists b, httputil_DumpResponse w resp = inr b
                          /\ e = "got " ^^ itoa (StatusCode resp) ^^ ": " ^^ b))
  \/ (exists line, In (line, Some (io_error e)) (input w))
  \/ os_Create w (Runner.MemProfile r) = Some e.

(** A way to leave [Run] that is no error, or an error with an [origin]. *)
Definition explained (w : World) (r : Runner.t) (s : stop) : Prop :=
  match s with
  | Returned (Some e) => origin w r e
  | _ => True
  end.

(** ** The user flag of [main]

    The command reads the flag [-u] itself, before it builds the options:
    when the flag is not empty it is split at the colons; unless there are
    exactly two parts the program ends with [log.Fatal]; the first part is
    the user name and the second the password. *)

(** [strings.Split(s, sep)] for a separator of one byte: the parts of [s]
    between the separators; a string without separator is its only part. *)
Fixpoint Split (s : string) (sep : ascii) : list string :=
  match s with
  | EmptyString => [EmptyString]
  | String c rest =>
      if Ascii.eqb c sep then EmptyString :: Split rest sep
      else match Split rest sep with
           | [] => [String c EmptyString]
           | part :: parts => String c part :: parts
           end
  end.

Definition colon : ascii := ":"%char.

(** The user name and the password that [main] puts into the options;
    [inl] is the message of [log.Fatal]. *)
Definition credentials (user : string) : error + (string * string) :=
  if nonempty user then
    match Split user colon with
    | [username; password] => inr (username, password)
    | _ => inl "http basic auth syntax is: username:password"
    end
  else inr ("", "").

(** No byte of [s] is a colon. *)
Fixpoint noColon (s : string) : bool :=
  match s with
  | EmptyString => true
  | String c rest => negb (Ascii.eqb c colon) && noColon rest
  end.

(** * Proofs *)

(** ** Rules for computations *)

Lemma bind_inv A B (m : M A) (k : A -> M B) c evs c' r :
  bind m k c = (evs, c', r) ->
  (exists s, m c = (evs, c', Stop s) /\ r = Stop s) \/
  (exists e1 c1 a e2, m c = (e1, c1, Val a) /\ k a c1 = (e2, c', r) /\ evs = e1 ++ e2).
Proof.
  unfold bind. destruct (m c) as [[e1 c1] [a|s]].
  - destruct (k a c1) as [[e2 c2] r2] eqn:K. intros H. inversion H; subst.
    right. exists e1, c1, a, e2. auto.
  - intros H. inversion H; subst. left. exists s. auto.
Qed.

Lemma bind_val A B (m : M A) (k : A -> M B) c e1 c1 a :
  m c = (e1, c1, Val a) ->
  bind m k c = (e1 ++ events (k a c1), ctl (k a c1), result (k a c1)).
Proof.
  unfold bind, events, ctl, result. intros ->. now destruct (k a c1) as [[e2 c2] r2].
Qed.

Lemma bind_stop A B (m : M A) (k : A -> M B) c e1 c1 s :
  m c = (e1, c1, Stop s) -> bind m k c = (e1, c1, Stop s).
Proof. unfold bind. now intros ->. Qed.

Section Rules.
Context {A B : Type} (P : event -> Prop).

Lemma emits_ret (a : A) : emits P (ret a).
Proof. intros c. constructor. Qed.

Lemma emits_halt (s : stop) : emits P (@halt A s).
Proof. intros c. constructor. Qed.

Lemma emits_emit (e : event) : P e -> emits P (emit e).
Proof. intros H c. repeat constructor. exact H. Qed.

Lemma emits_defer d : emits P (defer d).
Proof. intros c. constructor. Qed.

Lemma emits_setLoopvar i : emits P (setLoopvar i).
Proof. intros c. constructor. Qed.

Lemma emits_getLoopvar : emits P getLoopvar.
Proof. intros c. constructor. Qed.

Lemma emits_bind (m : M A) (k : A -> M B) :
  emits P m -> (forall a, emits P (k a)) -> emits P (bind m k).
Proof.
  intros Hm Hk c. specialize (Hm c). unfold bind, events in *.
  destruct (m c) as [[e1 c1] [a|s]]; simpl in *; auto.
  specialize (Hk a c1). unfold events in Hk.
  destruct (k a c1) as [[e2 c2] r2]; simpl in *.
  apply Forall_app; auto.
Qed.

Lemma keeps_ret (a : A) : keeps (ret a).
Proof. intros c. reflexivity. Qed.

Lemma keeps_halt (s : stop) : keeps (@halt A s).
Proof. intros c. reflexivity. Qed.

Lemma keeps_bind (m : M A) (k : A -> M B) :
  keeps m -> (forall a, keeps (k a)) -> keeps (bind m k).
Proof.
  intros Hm Hk c. specialize (Hm c). unfold bind, ctl in *.
  destruct (m c) as [[e1 c1] [a|s]]; simpl in *; auto.
  specialize (Hk a c1). unfold ctl in Hk.
  destruct (k a c1) as [[e2 c2] r2]; simpl in *. congruence.
Qed.
End Rules.

Lemma emits_when (P : event -> Prop) b m : emits P m -> emits P (when b m).
Proof. destruct b; simpl; auto. apply emits_ret. Qed.

Lemma emits_forEach A (P : event -> Prop) (l : list A) f :
  (forall a, In a l -> emits P (f a)) -> emits P (forEach l f).
Proof.
  induction l as [|a l IH]; simpl; intros H.
  - apply emits_ret.
  - apply emits_bind; [apply H; auto | intros _; apply IH; intros; apply H; auto].
Qed.

Lemma emits_weaken A (P Q : event -> Prop) (m : M A) :
  (forall e, P e -> Q e) -> emits P m -> emits Q m.
Proof. intros H Hm c. eapply Forall_impl; [exact H | apply Hm]. Qed.

Lemma keeps_emit e : keeps (emit e).
Proof. intros c. reflexivity. Qed.

Lemma keeps_getLoopvar : keeps getLoopvar.
Proof. intros c. reflexivity. Qed.

Lemma keeps_when b m : keeps m -> keeps (when b m).
Proof. destruct b; simpl; auto. apply keeps_ret. Qed.

(** Breaks a goal [emits P m] or [keeps m] along the structure of [m]. *)
Ltac step_rule :=
  first
    [ apply emits_bind; [ | intros ? ]
    | apply emits_when
    | apply emits_ret
    | apply emits_halt
    | apply emits_defer
    | apply emits_setLoopvar
    | apply emits_getLoopvar
    | apply emits_emit
    | apply keeps_bind; [ | intros ? ]
    | apply keeps_when
    | apply keeps_ret
    | apply keeps_halt
    | apply keeps_emit
    | apply keeps_getLoopvar
    | match goal with
      | |- emits _ (match ?x with _ => _ end) => destruct x
      | |- keeps (match ?x with _ => _ end) => destruct x
      end ].

Ltac rules := unfold return_, try; repeat step_rule.

Lemma indexSettingsRequest_emits w at_ body options :
  emits (requestEvent options at_ body) (indexSettingsRequest w at_ body options).
Proof.
  unfold indexSettingsRequest.
  destruct (List.length (Options.Servers options)) eqn:L; [apply emits_halt|].
  set (server := nth _ _ _).
  assert (Hin : In server (Options.Servers options)).
  { apply nth_In. rewrite L. apply Nat.mod_upper_bound. discriminate. }
  unfold http_NewRequest. destruct (url_Parse w _); [apply emits_ret|].
  assert (forall rs, requestEvent options at_ body (EvDo at_
            (Header_Set
               (if nonempty (Options.Username options) && nonempty (Options.Password options)
                then SetBasicAuth
                       {| Method := "PUT";
                          URL := server ^^ "/" ^^ Options.Index options ^^ "/_settings";
                          Body := body; BasicAuth := None; Header := [] |}
                       (Options.Username options) (Options.Password options)
                else {| Method := "PUT";
                        URL := server ^^ "/" ^^ Options.Index options ^^ "/_settings";
                        Body := body; BasicAuth := None; Header := [] |})
               "Content-Type" "application/json") rs)) as Hreq.
  { intros rs. simpl. unfold settingsRequest.
    destruct (nonempty (Options.Username options) && nonempty (Options.Password options));
      simpl; repeat split; eauto. }
  destruct (pester_Do w at_ _); rules; auto. simpl. reflexivity.
Qed.

Lemma indexSettingsRequest_keeps w at_ body options :
  keeps (indexSettingsRequest w at_ body options).
Proof.
  unfold indexSettingsRequest.
  destruct (List.length (Options.Servers options)); [apply keeps_halt|].
  destruct (http_NewRequest w _ _ _); [apply keeps_ret|].
  destruct (pester_Do w at_ _); rules.
Qed.

(** ** [indexSettingsRequest] *)

Lemma isr_emits (P : event -> Prop) w at_ body options :
  (forall e, requestEvent options at_ body e -> P e) ->
  emits P (indexSettingsRequest w at_ body options).
Proof. intros H. eapply emits_weaken; [exact H | apply indexSettingsRequest_emits]. Qed.

(** The three ways a call ends when there is a server to pick. *)
Lemma indexSettingsRequest_cases w at_ body options c :
  Options.Servers options <> [] ->
  (exists server e,
      In server (Options.Servers options)
      /\ url_Parse w (settingsLink options server) = Some e
      /\ indexSettingsRequest w at_ body options c = ([], c, Val (inl e)))
  \/ (exists req e,
         Body req = body /\ settingsRequest options req
         /\ indexSettingsRequest w at_ body options c
            = ([EvDo at_ req (inl e)], c, Val (inl e)))
  \/ (exists req resp,
         Body req = body /\ settingsRequest options req
         /\ indexSettingsRequest w at_ body options c
            = (EvDo at_ req (inr resp)
                 :: (if Options.Verbose options
                     then [EvLog (LogApplied body (Status resp))] else []),
               c, Val (inr resp))).
Proof.
  intros Hne. unfold indexSettingsRequest.
  destruct (List.length (Options.Servers options)) eqn:L.
  { destruct (Options.Servers options); [congruence | discriminate]. }
  set (server := nth _ _ _).
  assert (Hin : In server (Options.Servers options)).
  { apply nth_In. rewrite L. apply Nat.mod_upper_bound. discriminate. }
  unfold http_NewRequest. fold (settingsLink options server).
  destruct (url_Parse w (settingsLink options server)) as [e|] eqn:U.
  { left. exists server, e. auto. }
  right.
  set (req := Header_Set _ _ _).
  assert (Hreq : Body req = body /\ settingsRequest options req).
  { subst req. unfold settingsRequest.
    destruct (nonempty (Options.Username options) && nonempty (Options.Password options));
      simpl; repeat split; eauto. }
  destruct Hreq as [Hb Hs].
  destruct (pester_Do w at_ req) as [e|resp].
  - left. exists req, e. auto.
  - right. exists req, resp. split; [exact Hb | split; [exact Hs|]].
    unfold bind, emit, when, ret. destruct (Options.Verbose options); reflexivity.
Qed.

(** ** The parts of [Run] *)

Lemma withDefaultServer_nonempty r : Runner.Servers (withDefaultServer r) <> [].
Proof.
  unfold withDefaultServer. destruct (Runner.Servers r) eqn:E; simpl.
  - discriminate.
  - rewrite E. discriminate.
Qed.

Lemma prepare_emits w r : emits (fun e => prepareEvent e = true) (prepare w r).
Proof. unfold prepare, prologue, preflight. cbv zeta. rules; reflexivity. Qed.

Lemma preflight_keeps w r : keeps (preflight w r).
Proof. unfold preflight. cbv zeta. rules. Qed.

Lemma prepare_val w r c ep cp r' o :
  prepare w r c = (ep, cp, Val (r', o)) ->
  r' = withDefaultServer r /\ o = makeOptions r'.
Proof.
  unfold prepare, preflight. cbv zeta. intros H.
  repeat (apply bind_inv in H; destruct H as [(? & _ & ?) | (? & ? & ? & ? & _ & H & _)];
          [discriminate|]).
  unfold ret in H. inversion H. subst. auto.
Qed.

Lemma prologue_defers w r c :
  defers (ctl (prologue w r c)) = defers c
  \/ defers (ctl (prologue w r c)) = StopCPUProfile :: defers c.
Proof.
  unfold prologue.
  destruct (Runner.ShowVersion r), (nonempty (Runner.CpuProfile r)),
    (os_Create w (Runner.CpuProfile r)), (nonempty (Runner.IndexName r));
    cbn; auto.
Qed.

Lemma prepare_defers w r c :
  defers (ctl (prepare w r c)) = defers c
  \/ defers (ctl (prepare w r c)) = StopCPUProfile :: defers c.
Proof.
  pose proof (prologue_defers w r c) as H. unfold prepare, bind, ctl in *.
  destruct (prologue w r c) as [[e1 c1] [a|s]]; simpl in *; auto.
  pose proof (preflight_keeps w r c1) as K. unfold ctl in K.
  destruct (preflight w r c1) as [[e2 c2] r2]. simpl in *. now subst c2.
Qed.

Lemma startWorkers_emits r o : emits (fun e => workerEvent e = true) (startWorkers r o).
Proof.
  unfold startWorkers. rules; try reflexivity.
  apply emits_forEach. intros; rules. reflexivity.
Qed.

Lemma keeps_forEach A (l : list A) f : (forall a, keeps (f a)) -> keeps (forEach l f).
Proof.
  intros H. induction l; simpl; [apply keeps_ret | apply keeps_bind; auto].
Qed.

Lemma startWorkers_keeps r o : keeps (startWorkers r o).
Proof.
  unfold startWorkers. rules. apply keeps_forEach. intros; rules.
Qed.

Lemma readLoop_emits w r reads counter :
  emits (fun e => feedEvent e = true) (readLoop w r reads counter).
Proof.
  revert counter. induction reads as [|[line err] rest IH]; intros counter; simpl.
  - rules; reflexivity.
  - rules; try reflexivity; try apply IH.
    unfold send. rules; reflexivity.
Qed.

Lemma readLoop_keeps w r reads counter : keeps (readLoop w r reads counter).
Proof.
  revert counter. induction reads as [|[line err] rest IH]; intros counter; simpl.
  - rules.
  - rules; try apply IH. unfold send. rules.
Qed.

Lemma feed_emits w r : emits (fun e => feedEvent e = true) (feed w r).
Proof.
  unfold feed, wait. rules; try reflexivity. apply readLoop_emits.
Qed.

Lemma feed_keeps w r : keeps (feed w r).
Proof.
  unfold feed, wait. rules. apply readLoop_keeps.
Qed.

Lemma bind_stops A B (m : M A) (k : A -> M B) :
  (forall a c, exists s, result (k a c) = Stop s) ->
  forall c, exists s, result (bind m k c) = Stop s.
Proof.
  intros H c. unfold bind, result. destruct (m c) as [[e1 c1] [a|s]].
  - destruct (H a c1) as [s Hs]. unfold result in Hs.
    destruct (k a c1) as [[e2 c2] r2]. simpl in *. eauto.
  - simpl. eauto.
Qed.

Lemma feed_stops w r c : exists s, result (feed w r c) = Stop s.
Proof.
  unfold feed. revert c.
  repeat (apply bind_stops; intros ?). intros c. eexists. reflexivity.
Qed.

Lemma requestEvent_class (P : event -> bool) options at_ body e :
  (forall req rs, P (EvDo at_ req rs) = true) ->
  (forall b st, P (EvLog (LogApplied b st)) = true) ->
  requestEvent options at_ body e -> P e = true.
Proof.
  intros Hdo Hlog. destruct e; simpl; try contradiction.
  - destruct m; try contradiction. auto.
  - intros [<- _]. auto.
Qed.

Lemma isr_emits_class (P : event -> bool) w at_ body options :
  (forall req rs, P (EvDo at_ req rs) = true) ->
  (forall b st, P (EvLog (LogApplied b st)) = true) ->
  emits (fun e => P e = true) (indexSettingsRequest w at_ body options).
Proof.
  intros Hdo Hlog. apply isr_emits. intros e. now apply requestEvent_class.
Qed.

Lemma shutdown_emits w r o i nr :
  emits (fun e => cleanupEvent e = true) (shutdown w r o i nr).
Proof.
  unfold shutdown. rules; try reflexivity; apply isr_emits_class; reflexivity.
Qed.

Lemma shutdown_keeps w r o i nr : keeps (shutdown w r o i nr).
Proof.
  unfold shutdown. rules; apply indexSettingsRequest_keeps.
Qed.

Lemma runDeferredCall_keeps w d : keeps (runDeferredCall w d).
Proof. destruct d; simpl; [apply keeps_emit | apply shutdown_keeps]. Qed.

Lemma runDeferredCall_emits w d : emits (fun e => cleanupEvent e = true) (runDeferredCall w d).
Proof. destruct d; simpl; [rules; reflexivity | apply shutdown_emits]. Qed.

Lemma runDefers_events w ds c :
  runDefers w ds c = flat_map (fun d => events (runDeferredCall w d c)) ds.
Proof.
  induction ds as [|d ds IH]; simpl; [reflexivity|].
  pose proof (runDeferredCall_keeps w d c) as K. unfold ctl, events in *.
  destruct (runDeferredCall w d c) as [[e c'] x]. simpl in *. subst c'. now rewrite IH.
Qed.

Lemma runDefers_cleanup w ds c : Forall (fun e => cleanupEvent e = true) (runDefers w ds c).
Proof.
  rewrite runDefers_events. induction ds; simpl; [constructor|].
  apply Forall_app. split; [apply runDeferredCall_emits | assumption].
Qed.

(** ** The server loop *)

Lemma mutationEvent_do i s req rsp : mutationSite i s = true -> mutationEvent i (EvDo s req rsp).
Proof. intros H. right. eauto. Qed.

Lemma mutationEvent_log i m : mutationEvent i (EvLog m).
Proof. now left. Qed.

Lemma mutate_emits w r o i : emits (mutationEvent i) (mutate w r o i).
Proof.
  unfold mutate. rules;
    apply isr_emits; intros e He; destruct e; simpl in He; try contradiction;
    try apply mutationEvent_log;
    destruct He as [-> _]; apply mutationEvent_do; simpl; apply Nat.eqb_refl.
Qed.

Lemma mutate_keeps w r o i : keeps (mutate w r o i).
Proof. unfold mutate. rules; apply indexSettingsRequest_keeps. Qed.

(** A request that switches refreshing off and fails makes the iteration
    return an error. *)
Lemma mutate_failed w r o i c req rsp :
  Options.Servers o <> [] ->
  In (EvDo (MutRefresh i) req rsp) (events (mutate w r o i c)) ->
  failed rsp ->
  exists e, result (mutate w r o i c) = Stop (Returned (Some e)).
Proof.
  intros Hne Hin Hf. unfold mutate in *.
  destruct (indexSettingsRequest_cases w (MutRefresh i) (refreshBody "-1") o c Hne)
    as [(server & e & _ & _ & E) | [(req0 & e & _ & _ & E) | (req0 & resp & _ & _ & E)]];
    rewrite (bind_val _ _ _ E) in *.
  - eexists. reflexivity.
  - eexists. reflexivity.
  - unfold events, result in *. cbn [fst snd] in *.
    apply in_app_or in Hin. destruct Hin as [Hin | Hin].
    + destruct Hin as [Heq | Hin].
      * inversion Heq; subst. simpl in Hf. apply Nat.leb_le in Hf. rewrite Hf.
        unfold bind, return_, halt.
        destruct (httputil_DumpResponse w resp); eexists; reflexivity.
      * destruct (Options.Verbose o); simpl in Hin; [destruct Hin as [Hin|[]]|destruct Hin];
          discriminate.
    + exfalso.
      assert (Hem : emits (fun e => forall q a, e <> EvDo (MutRefresh i) q a)
                (fun c0 =>
                   ((if 400 <=? StatusCode resp
                     then match httputil_DumpResponse w resp with
                          | inl e => return_ (Some e)
                          | inr b => return_ (Some ("got " ^^ itoa (StatusCode resp) ^^ ": " ^^ b))
                          end
                     else ret tt) ;;
                    when (Runner.ZeroReplica r)
                      (r2 <- indexSettingsRequest w (MutReplicas i) (replicasBody "0") o ;;
                       match r2 with
                       | inl e => return_ (Some e)
                       | inr _ => ret tt
                       end)) c0)).
      { rules. apply isr_emits. intros e He q a0 ->. simpl in He. destruct He. discriminate. }
      specialize (Hem c). unfold events in Hem. rewrite Forall_forall in Hem.
      eapply Hem; [exact Hin | reflexivity].
Qed.

(** What one iteration does: it stops at the snapshot, or it registers the
    shutdown function and then changes the settings. *)
Lemma serverIter_shape w r o i c evs c' rs :
  Options.Servers o <> [] ->
  serverIter w r o i c = (evs, c', rs) ->
  (exists s res, rs = Stop s /\ defers c' = defers c /\ evs = [EvGetSettings i o res])
  \/ (exists doc nr logs post,
        evs = EvGetSettings i o (inr doc) :: logs ++ EvDefer i nr :: post
        /\ numberOfReplicasOf o doc = Some nr
        /\ Forall (fun e => isLog e = true) logs
        /\ Forall (mutationEvent i) post
        /\ defers c' = Shutdown r o i nr :: defers c
        /\ (forall req rsp, In (EvDo (MutRefresh i) req rsp) post -> failed rsp ->
            exists e, rs = Stop (Returned (Some e)))).
Proof.
  intros Hne. unfold serverIter.
  destruct (GetSettings w i o) as [e|doc] eqn:G.
  { cbn. intros H. inversion H; subst. left. do 2 eexists. eauto. }
  destruct (numberOfReplicasOf o doc) as [nr|] eqn:N.
  2:{ cbn. intros H. inversion H; subst. left. do 2 eexists. eauto. }
  intros H. right. exists doc, nr.
  set (c1 := {| defers := Shutdown r o i nr :: defers c; loopvar := i |}).
  pose proof (mutate_emits w r o i c1) as Hem.
  pose proof (mutate_keeps w r o i c1) as Hk.
  pose proof (fun q a => @mutate_failed w r o i c1 q a Hne) as Hf.
  unfold events, ctl, result in *.
  destruct (Runner.Verbose r) eqn:V; cbn -[mutate] in H; fold c1 in H;
    destruct (mutate w r o i c1) as [[em cm] rm]; cbn [fst snd] in *;
    inversion H; subst.
  - exists [EvLog (LogReplicasBack nr); EvLog (LogRefreshBack (Runner.RefreshInterval r))], em.
    repeat split; auto.
  - exists [], em. repeat split; auto.
Qed.

Lemma registered_app l1 l2 : registered (l1 ++ l2) = registered l1 ++ registered l2.
Proof. unfold registered. apply flat_map_app. Qed.

Lemma registered_In i nr evs : In (i, nr) (registered evs) <-> In (EvDefer i nr) evs.
Proof.
  unfold registered. rewrite in_flat_map. split.
  - intros (e & He & Hin). destruct e; simpl in Hin; try contradiction.
    destruct Hin as [Heq|[]]. now inversion Heq; subst.
  - intros H. exists (EvDefer i nr). simpl. auto.
Qed.

Lemma registered_none P evs :
  Forall P evs -> (forall i nr, ~ P (EvDefer i nr)) -> registered evs = [].
Proof.
  intros H Hn. induction H as [|e l He _ IH]; [reflexivity|].
  unfold registered in *. simpl. rewrite IH.
  destruct e; try reflexivity. now apply Hn in He.
Qed.

Lemma mutationEvent_not_defer i j nr : ~ mutationEvent i (EvDefer j nr).
Proof. intros [H | (s & q & a & H & _)]; discriminate. Qed.

Lemma mutationSite_inj i j s : mutationSite i s = true -> mutationSite j s = true -> i = j.
Proof.
  destruct s; simpl; try discriminate; intros H1 H2;
    apply Nat.eqb_eq in H1, H2; congruence.
Qed.

Lemma isLog_not_do logs s req rsp :
  Forall (fun e => isLog e = true) logs -> ~ In (EvDo s req rsp) logs.
Proof. rewrite Forall_forall. intros H Hin. apply H in Hin. discriminate. Qed.

Lemma isLog_not_defer logs i nr :
  Forall (fun e => isLog e = true) logs -> ~ In (EvDefer i nr) logs.
Proof. rewrite Forall_forall. intros H Hin. apply H in Hin. discriminate. Qed.

Lemma mutation_not_defer post i j nr :
  Forall (mutationEvent i) post -> ~ In (EvDefer j nr) post.
Proof.
  rewrite Forall_forall. intros H Hin. apply H in Hin.
  now apply mutationEvent_not_defer in Hin.
Qed.

Lemma serverIter_facts w r o i c evs c' rs :
  Options.Servers o <> [] ->
  serverIter w r o i c = (evs, c', rs) ->
  loopFacts r o c evs c' rs.
Proof.
  intros Hne H. apply serverIter_shape in H; [|exact Hne].
  destruct H as [(s & res & -> & Hd & ->)
                | (doc & nr & logs & post & -> & N & Hlogs & Hpost & Hd & Hfail)].
  - repeat split.
    + exact Hd.
    + intros j s0 req rsp _ [Hin|[]]. discriminate.
    + intros j req rsp [Hin|[]]. discriminate.
    + intros j nr [Hin|[]]. discriminate.
  - assert (Hreg : registered (EvGetSettings i o (inr doc) :: logs ++ EvDefer i nr :: post)
                   = [(i, nr)]).
    { change (EvGetSettings i o (inr doc) :: logs ++ EvDefer i nr :: post)
        with ([EvGetSettings i o (inr doc)] ++ logs ++ [EvDefer i nr] ++ post).
      rewrite !registered_app.
      rewrite (registered_none (P := fun e => isLog e = true) Hlogs)
        by (intros; discriminate).
      rewrite (registered_none Hpost) by (intros; apply mutationEvent_not_defer).
      reflexivity. }
    repeat split.
    + rewrite Hreg. exact Hd.
    + intros j s req rsp Hs [Hin|Hin]; [discriminate|].
      apply in_app_or in Hin. destruct Hin as [Hin|[Hin|Hin]];
        [now apply isLog_not_do in Hin | discriminate |].
      assert (j = i) as ->.
      { rewrite Forall_forall in Hpost. apply Hpost in Hin.
        destruct Hin as [Hl | (s' & q & a & Heq & Hm)]; [discriminate|].
        inversion Heq; subst. eapply mutationSite_inj; eauto. }
      apply in_split in Hin. destruct Hin as (p1 & p2 & ->).
      exists nr, (EvGetSettings i o (inr doc) :: logs), p1, p2.
      reflexivity.
    + intros j req rsp [Hin|Hin]; [discriminate|].
      apply in_app_or in Hin. destruct Hin as [Hin|[Hin|Hin]];
        [now apply isLog_not_do in Hin | discriminate |].
      assert (j = i) as ->.
      { rewrite Forall_forall in Hpost. apply Hpost in Hin.
        destruct Hin as [Hl | (s' & q & a & Heq & Hm)]; [discriminate|].
        inversion Heq; subst. simpl in Hm. now apply Nat.eqb_eq in Hm. }
      eauto.
    + intros j nr' [Hin|Hin]; [discriminate|].
      apply in_app_or in Hin. destruct Hin as [Hin|[Hin|Hin]];
        [now apply isLog_not_defer in Hin | | now apply (mutation_not_defer j nr' Hpost) in Hin].
      inversion Hin; subst. exists doc. split; [now left | exact N].
Qed.

Lemma loopFacts_seq r o c e1 c1 e2 c2 rs :
  loopFacts r o c e1 c1 (Val tt) ->
  loopFacts r o c1 e2 c2 rs ->
  loopFacts r o c (e1 ++ e2) c2 rs.
Proof.
  intros (D1 & B1 & F1 & S1) (D2 & B2 & F2 & S2). repeat split.
  - rewrite registered_app, rev_app_distr. unfold closures in *.
    rewrite map_app, <- app_assoc. now rewrite D2, D1.
  - intros i s req rsp Hs Hin. apply in_app_or in Hin. destruct Hin as [Hin|Hin].
    + destruct (B1 i s req rsp Hs Hin) as (nr & l1 & l2 & l3 & ->).
      exists nr, l1, l2, (l3 ++ e2). rewrite <- app_assoc. simpl.
      rewrite <- app_assoc. reflexivity.
    + destruct (B2 i s req rsp Hs Hin) as (nr & l1 & l2 & l3 & ->).
      exists nr, (e1 ++ l1), l2, l3. now rewrite <- app_assoc.
  - intros i req rsp Hin Hf. apply in_app_or in Hin. destruct Hin as [Hin|Hin].
    + destruct (F1 i req rsp Hin Hf) as [e He]. discriminate.
    + eauto.
  - intros i nr Hin. apply in_app_or in Hin. destruct Hin as [Hin|Hin].
    + destruct (S1 i nr Hin) as (doc & Hg & Hn). exists doc. split; [|exact Hn].
      apply in_or_app. now left.
    + destruct (S2 i nr Hin) as (doc & Hg & Hn). exists doc. split; [|exact Hn].
      apply in_or_app. now right.
Qed.

Lemma loopFacts_nil r o c : loopFacts r o c [] c (Val tt).
Proof.
  repeat split; simpl; try contradiction; auto.
Qed.

Lemma forEach_serverIter w r o l :
  Options.Servers o <> [] ->
  forall c evs c' rs,
    forEach l (serverIter w r o) c = (evs, c', rs) ->
    loopFacts r o c evs c' rs.
Proof.
  intros Hne. induction l as [|i l IH]; intros c evs c' rs H.
  - inversion H; subst. apply loopFacts_nil.
  - simpl in H. apply bind_inv in H.
    destruct H as [(s & H & ->) | (e1 & c1 & [] & e2 & H1 & H2 & ->)].
    + eapply serverIter_facts; eauto.
    + eapply loopFacts_seq; [eapply serverIter_facts; eauto | eauto].
Qed.

Lemma serverLoop_facts w r o c evs c' rs :
  Options.Servers o <> [] ->
  serverLoop w r o c = (evs, c', rs) ->
  loopFacts r o c evs c' rs.
Proof. intros Hne H. eapply forEach_serverIter; eauto. Qed.

Lemma serverLoop_emits w r o : emits (fun e => loopEvent e = true) (serverLoop w r o).
Proof.
  unfold serverLoop. apply emits_forEach. intros i _.
  unfold serverIter, mutate. rules; try reflexivity; apply isr_emits_class; reflexivity.
Qed.

(** ** The structure of a run *)

Ltac conjs := repeat match goal with |- _ /\ _ => split end.

Lemma emits_at A (P : event -> Prop) (m : M A) c evs c' x :
  emits P m -> m c = (evs, c', x) -> Forall P evs.
Proof. intros H E. specialize (H c). now rewrite E in H. Qed.

Lemma keeps_at A (m : M A) c evs c' x : keeps m -> m c = (evs, c', x) -> c' = c.
Proof. intros H E. specialize (H c). now rewrite E in H. Qed.

(** The body of [Run] is four parts in a row, each with its own events; a
    part that stops ends the body. *)
Lemma RunBody_structure w r :
  let r' := withDefaultServer r in
  let o := makeOptions r' in
  exists ep ew el ef cp c rl s,
    RunBody w r entry = (ep ++ ew ++ el ++ ef, c, Stop s)
    /\ Forall (fun e => prepareEvent e = true) ep
    /\ Forall (fun e => workerEvent e = true) ew
    /\ Forall (fun e => loopEvent e = true) el
    /\ Forall (fun e => feedEvent e = true) ef
    /\ ep = events (prepare w r entry)
    /\ (ew = [] \/ ew = events (startWorkers r' o cp))
    /\ (el = [] \/ el = events (serverLoop w r' o cp))
    /\ (defers cp = [] \/ defers cp = [StopCPUProfile])
    /\ loopFacts r' o cp el c rl
    /\ ((rl = Stop s /\ ef = [])
        \/ (rl = Val tt /\ (ef = [] \/ feed w r' c = (ef, c, Stop s)))).
Proof.
  cbv zeta. unfold RunBody.
  pose proof (prepare_defers w r entry) as Hcp.
  destruct (prepare w r entry) as [[ep cp] [[r1 o1]|s]] eqn:P;
    unfold ctl in Hcp; simpl in Hcp.
  2:{ rewrite (bind_stop _ _ _ P).
      exists ep, [], [], [], cp, cp, (Val tt), s. rewrite !app_nil_r.
      conjs; auto using loopFacts_nil.
      eapply emits_at; [apply prepare_emits | exact P]. }
  destruct (prepare_val _ _ _ P) as [-> ->].
  set (r' := withDefaultServer r) in *. set (o := makeOptions r') in *.
  rewrite (bind_val _ _ _ P). cbv beta iota.
  assert (Hep : Forall (fun e => prepareEvent e = true) ep)
    by (eapply emits_at; [apply prepare_emits | exact P]).
  destruct (startWorkers r' o cp) as [[ew cw] [[]|s]] eqn:W.
  2:{ rewrite (bind_stop _ _ _ W). unfold events, ctl, result. cbn [fst snd].
      pose proof (keeps_at _ (startWorkers_keeps r' o) W) as ->.
      exists ep, ew, [], [], cp, cp, (Val tt), s. rewrite !app_nil_r, ?W.
      unfold events; cbn [fst snd].
      conjs; auto using loopFacts_nil.
      eapply emits_at; [apply startWorkers_emits | exact W]. }
  pose proof (keeps_at _ (startWorkers_keeps r' o) W) as ->.
  assert (Hew : Forall (fun e => workerEvent e = true) ew)
    by (eapply emits_at; [apply startWorkers_emits | exact W]).
  rewrite (bind_val _ _ _ W).
  destruct (serverLoop w r' o cp) as [[el cl] [[]|s]] eqn:L.
  2:{ rewrite (bind_stop _ _ _ L). unfold events, ctl, result. cbn [fst snd].
      exists ep, ew, el, [], cp, cl, (Stop s), s. rewrite !app_nil_r, ?W, ?L.
      unfold events; cbn [fst snd].
      conjs; auto.
      - eapply emits_at; [apply serverLoop_emits | exact L].
      - eapply serverLoop_facts; [apply withDefaultServer_nonempty | exact L]. }
  rewrite (bind_val _ _ _ L).
  destruct (feed_stops w r' cl) as [s Hs].
  destruct (feed w r' cl) as [[ef cf] rf] eqn:F. unfold result in Hs. simpl in Hs. subst rf.
  pose proof (keeps_at _ (feed_keeps w r') F) as ->.
  unfold events, ctl, result. cbn [fst snd].
  exists ep, ew, el, ef, cp, cl, (Val tt), s. rewrite ?W, ?L.
  unfold events; cbn [fst snd].
  conjs; auto.
  - eapply emits_at; [apply serverLoop_emits | exact L].
  - eapply emits_at; [apply feed_emits | exact F].
  - eapply serverLoop_facts; [apply withDefaultServer_nonempty | exact L].
Qed.

(** A run: the four parts, then the deferred calls when the function
    returns or panics. *)
Lemma Run_structure w r :
  let r' := withDefaultServer r in
  let o := makeOptions r' in
  exists ep ew el ef cp c rl s,
    Run w r = leave w (ep ++ ew ++ el ++ ef) c s
    /\ Forall (fun e => prepareEvent e = true) ep
    /\ Forall (fun e => workerEvent e = true) ew
    /\ Forall (fun e => loopEvent e = true) el
    /\ Forall (fun e => feedEvent e = true) ef
    /\ ep = events (prepare w r entry)
    /\ (ew = [] \/ ew = events (startWorkers r' o cp))
    /\ (el = [] \/ el = events (serverLoop w r' o cp))
    /\ (defers cp = [] \/ defers cp = [StopCPUProfile])
    /\ loopFacts r' o cp el c rl
    /\ ((rl = Stop s /\ ef = [])
        \/ (rl = Val tt /\ (ef = [] \/ feed w r' c = (ef, c, Stop s)))).
Proof.
  intros r' o.
  destruct (RunBody_structure w r) as (ep & ew & el & ef & cp & c & rl & s & E & H).
  exists ep, ew, el, ef, cp, c, rl, s. split; [|exact H].
  unfold Run. now rewrite E.
Qed.

Lemma leave_fst w evs c s :
  fst (leave w evs c s)
  = evs ++ (if runsDeferred s then runDefers w (defers c) c else []).
Proof. unfold leave. destruct (runsDeferred s); simpl; now rewrite ?app_nil_r. Qed.

Lemma leave_snd w evs c s : snd (leave w evs c s) = s.
Proof. unfold leave. now destruct (runsDeferred s). Qed.

Lemma runDefers_forall (P : event -> Prop) w ds c :
  (forall d, In d ds -> emits P (runDeferredCall w d)) ->
  Forall P (runDefers w ds c).
Proof.
  intros H. rewrite runDefers_events. induction ds as [|d ds IH]; simpl; [constructor|].
  apply Forall_app. split.
  - apply H. now left.
  - apply IH. intros d' Hd'. apply H. now right.
Qed.

Lemma closures_In r o l d :
  In d (closures r o l) -> exists i nr, d = Shutdown r o i nr /\ In (i, nr) l.
Proof.
  unfold closures. rewrite in_map_iff. intros ([i nr] & <- & Hin). eauto.
Qed.

(** The deferred calls at the end of a run are the registered shutdown
    functions, and [pprof.StopCPUProfile] when profiling was started. *)
Lemma exit_defers r o cp el c rl d :
  loopFacts r o cp el c rl ->
  (defers cp = [] \/ defers cp = [StopCPUProfile]) ->
  In d (defers c) ->
  d = StopCPUProfile \/ exists i nr, d = Shutdown r o i nr /\ In (EvDefer i nr) el.
Proof.
  intros (D & _) Hcp Hin. rewrite D in Hin. apply in_app_or in Hin.
  destruct Hin as [Hin|Hin].
  - right. apply closures_In in Hin. destruct Hin as (i & nr & -> & Hin).
    exists i, nr. split; [reflexivity|]. apply registered_In. now apply in_rev.
  - left. destruct Hcp as [E|E]; rewrite E in Hin; simpl in Hin; intuition.
Qed.

(** A property of every event that each part of [Run] can write holds of
    every event of a run. *)
Lemma Run_forall (P : event -> Prop) w r :
  let r' := withDefaultServer r in
  let o := makeOptions r' in
  emits P (prepare w r) ->
  emits P (startWorkers r' o) ->
  emits P (serverLoop w r' o) ->
  emits P (feed w r') ->
  P EvStopCPUProfile ->
  (forall i nr, emits P (shutdown w r' o i nr)) ->
  Forall P (fst (Run w r)).
Proof.
  intros r' o Hp Hw Hl Hf Hcpu Hs.
  destruct (Run_structure w r)
    as (ep & ew & el & ef & cp & c & rl & s & E & _ & _ & _ & _
        & Eep & Eew & Eel & Hcp & HL & Hend).
  fold r' o in Eew, Eel, HL, Hend.
  rewrite E, leave_fst. rewrite !Forall_app. conjs.
  - subst ep. apply Hp.
  - destruct Eew as [->| ->]; [constructor | apply Hw].
  - destruct Eel as [->| ->]; [constructor | apply Hl].
  - destruct Hend as [[_ ->] | [_ [->|F]]]; try constructor.
    eapply emits_at; [apply Hf | exact F].
  - destruct (runsDeferred s); [|constructor].
    apply runDefers_forall. intros d Hd.
    destruct (exit_defers _ HL Hcp Hd) as [-> | (i & nr & -> & _)]; simpl.
    + now apply emits_emit.
    + apply Hs.
Qed.

Lemma nonempty_true s : nonempty s = true <-> s <> "".
Proof. destruct s; simpl; split; intros; congruence. Qed.

Lemma nonempty_false s : nonempty s = false <-> s = "".
Proof. destruct s; simpl; split; intros; congruence. Qed.

(** * The claims *)

(** Finds an element in a list that computes. *)
Ltac find_in := vm_compute; repeat (first [ left; reflexivity | right ]).

(** ** Authentication of settings requests *)

(** C10: a settings request that [indexSettingsRequest] sends carries the
    basic-auth credentials exactly when the configured username and the
    configured password are both non-empty, and then they are the configured
    ones; with an empty username or an empty password the request is sent
    without authentication. *)
Theorem settings_request_basic_auth w at_ body options c s req rs :
  In (EvDo s req rs) (events (indexSettingsRequest w at_ body options c)) ->
  (BasicAuth req = Some (Options.Username options, Options.Password options)
   /\ Options.Username options <> "" /\ Options.Password options <> "")
  \/ (BasicAuth req = None
      /\ (Options.Username options = "" \/ Options.Password options = "")).
Proof.
  intros Hin.
  pose proof (indexSettingsRequest_emits w at_ body options c) as H.
  rewrite Forall_forall in H. apply H in Hin.
  destruct Hin as (_ & _ & _ & _ & Hauth & _).
  destruct (nonempty (Options.Username options)) eqn:U;
    destruct (nonempty (Options.Password options)) eqn:Pw; simpl in Hauth.
  - left. apply nonempty_true in U, Pw. auto.
  - right. apply nonempty_false in Pw. auto.
  - right. apply nonempty_false in U. auto.
  - right. apply nonempty_false in U. auto.
Qed.

Lemma settings_request_basic_auth_witness :
  (BasicAuth (exampleRequest "http://a:9200" "idx" "{}") = Some ("", "secret")
   /\ "" <> "" /\ "secret" <> "")
  \/ (BasicAuth (exampleRequest "http://a:9200" "idx" "{}") = None
      /\ ("" = "" \/ "secret" = "")).
Proof.
  apply (@settings_request_basic_auth (calm []) (MutRefresh 0) "{}"
           (makeOptions (exampleRunner "idx" twoServers false false false))
           entry (MutRefresh 0) (exampleRequest "http://a:9200" "idx" "{}") (inr ok200)).
  find_in.
Defined.

(** ** The default server *)

Lemma requestEvent_usesServers o at_ body e :
  requestEvent o at_ body e -> usesServers (Options.Servers o) (Options.Index o) e.
Proof.
  destruct e; simpl; try contradiction; auto.
  - destruct m; auto. contradiction.
  - intros (_ & _ & _ & Hurl & _). exact Hurl.
Qed.

Lemma Run_usesServers w r :
  let o := makeOptions (withDefaultServer r) in
  Forall (usesServers (Options.Servers o) (Options.Index o)) (fst (Run w r)).
Proof.
  intros o. apply Run_forall; fold o.
  - unfold prepare, prologue, preflight. cbv zeta. fold o. rules; simpl; auto.
  - unfold startWorkers. rules; simpl; auto.
    apply emits_forEach. intros; rules. reflexivity.
  - unfold serverLoop. apply emits_forEach. intros i _.
    unfold serverIter, mutate. rules; simpl; auto;
      apply isr_emits; apply requestEvent_usesServers.
  - assert (Hr : forall rd n,
               emits (usesServers (Options.Servers o) (Options.Index o))
                 (readLoop w (withDefaultServer r) rd n)).
    { intros rd. induction rd as [|[line err] rest IH]; intros n; simpl.
      - rules; simpl; auto.
      - rules; simpl; auto. unfold send. rules; simpl; auto. }
    unfold feed, wait. rules; simpl; auto.
  - exact I.
  - intros i nr. unfold shutdown. rules; simpl; auto;
      apply isr_emits; apply requestEvent_usesServers.
Qed.

(** C9: with an empty server list [Run] behaves as with the list that holds
    only [http://localhost:9200]: the same events and the same result, so the
    empty list is no reason to fail; every call of the package gets options
    whose only server is the default one, and every settings request goes to
    its settings endpoint. *)
Theorem empty_server_list_uses_default w r :
  Runner.Servers r = [] ->
  Run w r = Run w (Runner.with_Servers r [defaultServer])
  /\ Forall (usesServers [defaultServer] (Runner.IndexName r)) (fst (Run w r)).
Proof.
  intros H. split.
  - destruct r. simpl in H. subst. reflexivity.
  - pose proof (Run_usesServers w r) as HU. cbv zeta in HU.
    unfold withDefaultServer in HU. rewrite H in HU. exact HU.
Qed.

Lemma empty_server_list_uses_default_witness :
  Run (calm ["{}"]) (exampleRunner "idx" [] false false true)
  = Run (calm ["{}"]) (Runner.with_Servers (exampleRunner "idx" [] false false true)
                         [defaultServer])
  /\ Forall (usesServers [defaultServer] "idx")
       (fst (Run (calm ["{}"]) (exampleRunner "idx" [] false false true))).
Proof.
  apply (@empty_server_list_uses_default (calm ["{}"])
           (exampleRunner "idx" [] false false true)).
  reflexivity.
Defined.

(** ** Blank lines *)

(** C8: a line that is empty after [strings.TrimSpace] leaves nothing but
    its read behind: the loop goes on with the next line with the same
    counter, and nothing is put on the queue for it. *)
Theorem blank_line_ignored w r line rest counter c :
  TrimSpace line = "" ->
  readLoop w r ((line, None) :: rest) counter c
  = (EvReadString line None :: events (readLoop w r rest counter c),
     ctl (readLoop w r rest counter c),
     result (readLoop w r rest counter c)).
Proof.
  intros H. simpl readLoop. rewrite H. simpl nonempty. cbv iota. simpl negb. cbv iota.
  unfold bind at 1. unfold emit, events, ctl, result.
  destruct (readLoop w r rest counter c) as [[evs c'] x]. reflexivity.
Qed.

Lemma blank_line_ignored_witness :
  readLoop (calm []) (exampleRunner "idx" [] false false false)
    [("  " ^^ newline, None); ("{}" ^^ newline, None)] 3 entry
  = (EvReadString ("  " ^^ newline) None
       :: events (readLoop (calm []) (exampleRunner "idx" [] false false false)
                    [("{}" ^^ newline, None)] 3 entry),
     ctl (readLoop (calm []) (exampleRunner "idx" [] false false false)
            [("{}" ^^ newline, None)] 3 entry),
     result (readLoop (calm []) (exampleRunner "idx" [] false false false)
               [("{}" ^^ newline, None)] 3 entry)).
Proof.
  apply (@blank_line_ignored (calm []) (exampleRunner "idx" [] false false false)
           ("  " ^^ newline) [("{}" ^^ newline, None)] 3 entry).
  reflexivity.
Defined.

(** ** The index name *)

(** C7, as the code has it: with an empty index name [Run] writes nothing
    but the version and the start and stop of the CPU profile, so no request
    is sent, no setting is changed and no line is read or put on the queue;
    it returns an error, unless the version was asked for, which is printed
    with a [nil] result. *)
Theorem empty_index_name_stops w r :
  Runner.IndexName r = "" ->
  Forall (fun e => startupEvent e = true) (fst (Run w r))
  /\ (if Runner.ShowVersion r
      then snd (Run w r) = Returned None
      else exists e, snd (Run w r) = Returned (Some e)).
Proof.
  intros H. unfold Run, RunBody, prepare, prologue. rewrite H.
  destruct (Runner.ShowVersion r); [cbn; split; [repeat constructor | reflexivity]|].
  destruct (nonempty (Runner.CpuProfile r)); cbn.
  - destruct (os_Create w (Runner.CpuProfile r)); cbn; split; eauto; repeat constructor.
  - split; eauto.
Qed.

Lemma empty_index_name_stops_witness :
  Forall (fun e => startupEvent e = true)
    (fst (Run (calm ["{}"]) (exampleRunner "" twoServers false false false)))
  /\ exists e, snd (Run (calm ["{}"]) (exampleRunner "" twoServers false false false))
               = Returned (Some e).
Proof.
  apply (@empty_index_name_stops (calm ["{}"]) (exampleRunner "" twoServers false false false)).
  reflexivity.
Defined.

(** C7 as stated fails: with the version flag set, [Run] with an empty index
    name prints the version and returns [nil]. *)
Lemma empty_index_name_version_counterexample :
  Runner.IndexName (exampleRunner "" twoServers true false false) = ""
  /\ Run (calm ["{}"]) (exampleRunner "" twoServers true false false)
     = ([EvPrintln "dev"], Returned None).
Proof. split; reflexivity. Qed.

(** ** The events of the parts do not mix *)

Ltac by_event e :=
  destruct e; simpl; try reflexivity; try discriminate;
  repeat match goal with
         | m : logmsg |- _ => destruct m
         | s : site |- _ => destruct s
         end; simpl; try reflexivity; try discriminate.

Lemma prepare_not_feed e : prepareEvent e = true -> feedEvent e = false.
Proof. by_event e. Qed.

Lemma worker_not_feed e : workerEvent e = true -> feedEvent e = false.
Proof. by_event e. Qed.

Lemma loop_not_feed e : loopEvent e = true -> feedEvent e = false.
Proof. by_event e. Qed.

Lemma cleanup_not_feed e : cleanupEvent e = true -> feedEvent e = false.
Proof. by_event e. Qed.

Lemma Forall_class (f g : event -> bool) l :
  (forall e, f e = true -> g e = false) ->
  Forall (fun e => f e = true) l -> Forall (fun e => g e = false) l.
Proof. intros H. apply Forall_impl. exact H. Qed.

(** A settings change of the server loop is an event of the server loop. *)
Lemma mutation_in_loop w s req rs i ep ew el ef c st :
  mutationSite i s = true ->
  Forall (fun e => prepareEvent e = true) ep ->
  Forall (fun e => workerEvent e = true) ew ->
  Forall (fun e => feedEvent e = true) ef ->
  In (EvDo s req rs) (fst (leave w (ep ++ ew ++ el ++ ef) c st)) ->
  In (EvDo s req rs) el.
Proof.
  intros Hs Hp Hw Hf Hin. rewrite leave_fst in Hin.
  rewrite Forall_forall in Hp, Hw, Hf.
  repeat (apply in_app_or in Hin; destruct Hin as [Hin|Hin]); auto.
  - apply Hp in Hin. discriminate.
  - apply Hw in Hin. discriminate.
  - apply Hf in Hin. discriminate.
  - exfalso. destruct (runsDeferred st); [|contradiction].
    pose proof (runDefers_cleanup w (defers c) c) as Hc.
    rewrite Forall_forall in Hc. apply Hc in Hin.
    destruct s; simpl in *; congruence.
Qed.

Arguments mutation_in_loop : clear implicits.

(** ** Refreshing cannot be switched off *)

(** C4: when a request that sets [refresh_interval] to [-1] gets a transport
    error or a status code of 400 or more, for whichever server, [Run]
    returns an error, and nothing of what follows the server loop has
    happened: no line was read, none was put on the queue. *)
Theorem refresh_off_failure_aborts w r i req rs :
  In (EvDo (MutRefresh i) req rs) (fst (Run w r)) ->
  failed rs ->
  (exists e, snd (Run w r) = Returned (Some e))
  /\ Forall (fun e => feedEvent e = false) (fst (Run w r)).
Proof.
  intros Hin Hfail.
  destruct (Run_structure w r)
    as (ep & ew & el & ef & cp & c & rl & s & E & Hp & Hw & Hl & Hf
        & _ & _ & _ & Hcp & HL & Hend).
  rewrite E in *.
  apply (mutation_in_loop w _ req rs i ep ew el ef c s) in Hin;
    auto; try (simpl; apply Nat.eqb_refl).
  destruct HL as (_ & _ & HF & _).
  destruct (HF i req rs Hin Hfail) as [e He].
  destruct Hend as [[Hrl ->] | [Hrl _]]; [|congruence].
  assert (s = Returned (Some e)) as -> by congruence.
  split.
  - exists e. apply leave_snd.
  - rewrite leave_fst. simpl runsDeferred. cbv iota. rewrite !Forall_app. conjs.
    + eapply Forall_class; [apply prepare_not_feed | exact Hp].
    + eapply Forall_class; [apply worker_not_feed | exact Hw].
    + eapply Forall_class; [apply loop_not_feed | exact Hl].
    + constructor.
    + eapply Forall_class; [apply cleanup_not_feed | apply runDefers_cleanup].
Qed.

Lemma refresh_off_failure_aborts_witness :
  (exists e, snd (Run (exampleWorld ["{}"] unavailable (fun _ => None))
                    (exampleRunner "idx" [] false false false)) = Returned (Some e))
  /\ Forall (fun e => feedEvent e = false)
       (fst (Run (exampleWorld ["{}"] unavailable (fun _ => None))
               (exampleRunner "idx" [] false false false))).
Proof.
  apply (@refresh_off_failure_aborts (exampleWorld ["{}"] unavailable (fun _ => None))
           (exampleRunner "idx" [] false false false) 0
           (exampleRequest defaultServer "idx" (refreshBody "-1"))
           (inr {| StatusCode := 503; Status := "503 Service Unavailable" |})).
  - find_in.
  - unfold failed. cbn [StatusCode]. lia.
Defined.

(** ** Registration and execution of the cleanup *)

Lemma shutdown_head w r o i nr c :
  exists block, events (shutdown w r o i nr c) = EvRunDeferred i :: block.
Proof.
  unfold shutdown.
  rewrite (bind_val (emit (EvRunDeferred i)) _ c (e1 := [EvRunDeferred i]) (c1 := c) (a := tt))
    by reflexivity.
  unfold events at 1. cbn [fst app]. eexists. reflexivity.
Qed.

Lemma runDefers_runs w r o i nr ds c :
  In (Shutdown r o i nr) ds -> In (EvRunDeferred i) (runDefers w ds c).
Proof.
  intros Hin. rewrite runDefers_events. apply in_flat_map.
  exists (Shutdown r o i nr). split; [exact Hin|]. simpl.
  destruct (shutdown_head w r o i nr c) as [block ->]. now left.
Qed.

Lemma registered_deferred r o cp el c rl i nr :
  loopFacts r o cp el c rl ->
  In (EvDefer i nr) el -> In (Shutdown r o i nr) (defers c).
Proof.
  intros (D & _) Hin. rewrite D. apply in_or_app. left.
  unfold closures. apply in_map_iff. exists (i, nr). split; [reflexivity|].
  apply -> in_rev. now apply registered_In.
Qed.

(** C1, as the code has it: the shutdown function of an iteration is
    registered before the settings requests of that iteration are sent, and
    it runs after them whenever [Run] returns or panics, whichever
    iteration the error came from. *)
Theorem cleanup_registered_before_mutation w r i s req rs :
  mutationSite i s = true ->
  In (EvDo s req rs) (fst (Run w r)) ->
  exists nr l1 l2 l3,
    fst (Run w r) = l1 ++ EvDefer i nr :: l2 ++ EvDo s req rs :: l3
    /\ (In (EvRunDeferred i) l3 \/ runsDeferred (snd (Run w r)) = false).
Proof.
  intros Hs Hin.
  destruct (Run_structure w r)
    as (ep & ew & el & ef & cp & c & rl & st & E & Hp & Hw & Hl & Hf
        & _ & _ & _ & Hcp & HL & Hend).
  rewrite E in *. apply (mutation_in_loop w s req rs i ep ew el ef c st) in Hin; auto.
  pose proof HL as (_ & HB & _).
  destruct (HB i s req rs Hs Hin) as (nr & l1 & l2 & l3 & ->).
  rewrite leave_fst, leave_snd.
  exists nr, (ep ++ ew ++ l1), l2,
    (l3 ++ ef ++ (if runsDeferred st then runDefers w (defers c) c else [])).
  split.
  - repeat (rewrite <- ?app_assoc; simpl). reflexivity.
  - destruct (runsDeferred st); [left | now right].
    apply in_or_app. right. apply in_or_app. right.
    eapply runDefers_runs. eapply registered_deferred; [exact HL|].
    apply in_or_app. right. now left.
Qed.

Lemma cleanup_registered_before_mutation_witness :
  exists nr l1 l2 l3,
    fst (Run (exampleWorld [] secondServerDown (fun _ => None))
           (exampleRunner "idx" twoServers false false false))
    = l1 ++ EvDefer 0 nr :: l2
         ++ EvDo (MutRefresh 0) (exampleRequest "http://a:9200" "idx" (refreshBody "-1"))
              (inr ok200) :: l3
    /\ (In (EvRunDeferred 0) l3
        \/ runsDeferred (snd (Run (exampleWorld [] secondServerDown (fun _ => None))
                                (exampleRunner "idx" twoServers false false false)))
           = false).
Proof.
  apply (@cleanup_registered_before_mutation
           (exampleWorld [] secondServerDown (fun _ => None))
           (exampleRunner "idx" twoServers false false false) 0 (MutRefresh 0)
           (exampleRequest "http://a:9200" "idx" (refreshBody "-1")) (inr ok200)).
  - reflexivity.
  - find_in.
Defined.

Lemma occursBefore_complete (P Q : event -> bool) tr l1 a l2 b l3 :
  tr = l1 ++ a :: l2 ++ b :: l3 -> P a = true -> Q b = true ->
  occursBefore P Q tr = true.
Proof.
  intros -> Ha Hb. induction l1 as [|x l1 IH]; simpl.
  - rewrite Ha. simpl. apply orb_true_iff. left.
    apply existsb_exists. exists b. split; [|exact Hb].
    apply in_or_app. right. now left.
  - rewrite IH. apply orb_true_r.
Qed.

(** C1 as stated fails: in a run that changes the settings of two servers
    without any error, no settings request of the first iteration comes
    before the [defer] statement of that iteration, though the settings were
    changed. *)
Lemma cleanup_registered_after_mutation_counterexample :
  existsb (isMutation 0)
    (fst (Run (calm []) (exampleRunner "idx" twoServers false false false))) = true
  /\ ~ (exists s req rs nr l1 l2 l3,
          mutationSite 0 s = true
          /\ fst (Run (calm []) (exampleRunner "idx" twoServers false false false))
             = l1 ++ EvDo s req rs :: l2 ++ EvDefer 0 nr :: l3).
Proof.
  split; [reflexivity|].
  intros (s & req & rs & nr & l1 & l2 & l3 & Hs & H).
  apply (occursBefore_complete (isMutation 0) (isDefer 0)) in H;
    [ | exact Hs | reflexivity ].
  vm_compute in H. discriminate.
Qed.

(** ** The steps of the cleanup *)

Lemma shutdown_steps w r o i nr c :
  Options.Servers o <> [] ->
  exists block,
    events (shutdown w r o i nr c) = EvRunDeferred i :: block
    /\ cleanupSteps w r o i nr (filter (fun e => negb (isLog e)) block).
Proof.
  intros Hne. unfold shutdown.
  rewrite (bind_val (emit (EvRunDeferred i)) _ c (e1 := [EvRunDeferred i]) (c1 := c) (a := tt))
    by reflexivity.
  unfold events at 1. cbn [fst app].
  set (b1 := refreshBody _). set (b2 := replicasBody _).
  destruct (indexSettingsRequest_cases w (RestoreRefresh i) b1 o c Hne)
    as [(server & e & Hin & Hu & E) | [(req & e & Hb & Hs & E) | (req & resp & Hb & Hs & E)]];
    rewrite (bind_val _ _ _ E); unfold events at 1; cbn [fst app].
  - eexists. split; [reflexivity|]. simpl. eapply refresh_not_built; eauto.
  - eexists. split; [reflexivity|]. simpl. now apply refresh_no_answer.
  - destruct (indexSettingsRequest_cases w (RestoreReplicas i) b2 o c Hne)
      as [(server & e & Hin & Hu & E2)
         | [(req2 & e & Hb2 & Hs2 & E2) | (req2 & resp2 & Hb2 & Hs2 & E2)]];
      rewrite (bind_val _ _ _ E2); unfold events, ctl, result; cbn [fst snd app];
      (eexists; split; [reflexivity|]);
      destruct (Options.Verbose o); simpl.
    all: try (eapply replicas_not_built; eauto; fail).
    all: try (now apply replicas_no_answer).
    all: apply all_three; auto; intros ->; reflexivity.
Qed.

Lemma runDeferredCall_boundary w d c :
  deferredBoundary (events (runDeferredCall w d c) ++ []) /\
  forall rest, deferredBoundary (events (runDeferredCall w d c) ++ rest).
Proof.
  destruct d; simpl.
  - split; [now left | intros; now left].
  - destruct (shutdown_head w r options i numberOfReplicas c) as [block ->].
    simpl. split; [right; eauto | intros; right; eauto].
Qed.

Lemma runDefers_boundary w ds c : deferredBoundary (runDefers w ds c).
Proof.
  rewrite runDefers_events. destruct ds as [|d ds]; simpl; [exact I|].
  apply runDeferredCall_boundary.
Qed.

Lemma runDefers_app w ds1 ds2 c :
  runDefers w (ds1 ++ ds2) c = runDefers w ds1 c ++ runDefers w ds2 c.
Proof. rewrite !runDefers_events. apply flat_map_app. Qed.

Lemma withDefaultServer_options_nonempty r :
  Options.Servers (makeOptions (withDefaultServer r)) <> [].
Proof. apply withDefaultServer_nonempty. Qed.

(** An event of the server loop in a run is an event of the server loop. *)
Lemma defer_in_loop w i nr ep ew el ef c st :
  Forall (fun e => prepareEvent e = true) ep ->
  Forall (fun e => workerEvent e = true) ew ->
  Forall (fun e => feedEvent e = true) ef ->
  In (EvDefer i nr) (fst (leave w (ep ++ ew ++ el ++ ef) c st)) ->
  In (EvDefer i nr) el.
Proof.
  intros Hp Hw Hf Hin. rewrite leave_fst in Hin.
  rewrite Forall_forall in Hp, Hw, Hf.
  repeat (apply in_app_or in Hin; destruct Hin as [Hin|Hin]); auto.
  - apply Hp in Hin. discriminate.
  - apply Hw in Hin. discriminate.
  - apply Hf in Hin. discriminate.
  - exfalso. destruct (runsDeferred st); [|contradiction].
    pose proof (runDefers_cleanup w (defers c) c) as Hc.
    rewrite Forall_forall in Hc. apply Hc in Hin. discriminate.
Qed.

Arguments defer_in_loop : clear implicits.

(** C2, as the code has it: when [Run] returns or panics, the shutdown
    function that an iteration registered runs, and what it does is, in
    this order, the request that sets [refresh_interval] to the configured
    value, the request that sets [number_of_replicas] to the value of the
    snapshot of that iteration, and the flush; a request that cannot be
    built or gets no answer ends it there, an answer with any status lets
    it go on. *)
Theorem cleanup_steps_in_order w r i nr :
  In (EvDefer i nr) (fst (Run w r)) ->
  runsDeferred (snd (Run w r)) = true ->
  exists pre block post doc,
    fst (Run w r) = pre ++ EvRunDeferred i :: block ++ post
    /\ cleanupSteps w (withDefaultServer r) (makeOptions (withDefaultServer r)) i nr
         (filter (fun e => negb (isLog e)) block)
    /\ deferredBoundary post
    /\ In (EvGetSettings i (makeOptions (withDefaultServer r)) (inr doc)) pre
    /\ numberOfReplicasOf (makeOptions (withDefaultServer r)) doc = Some nr.
Proof.
  intros Hin Hrun.
  destruct (Run_structure w r)
    as (ep & ew & el & ef & cp & c & rl & st & E & Hp & Hw & Hl & Hf
        & _ & _ & _ & Hcp & HL & Hend).
  rewrite E in *. rewrite leave_snd in Hrun.
  apply (defer_in_loop w i nr ep ew el ef c st) in Hin; auto.
  pose proof (registered_deferred _ _ HL Hin) as Hd.
  destruct HL as (_ & _ & _ & HS). destruct (HS i nr Hin) as (doc & Hg & Hn).
  apply in_split in Hd. destruct Hd as (d1 & d2 & Hd).
  rewrite leave_fst, Hrun, Hd, runDefers_app. simpl runDefers.
  pose proof (shutdown_keeps w (withDefaultServer r)
                (makeOptions (withDefaultServer r)) i nr c) as K.
  destruct (shutdown_steps w (withDefaultServer r) (makeOptions (withDefaultServer r))
              i nr c (withDefaultServer_options_nonempty r)) as (block & Eb & Hsteps).
  unfold events, ctl in *.
  destruct (shutdown w (withDefaultServer r) (makeOptions (withDefaultServer r)) i nr c)
    as [[evs c'] x]. simpl in K, Eb. subst c' evs.
  exists ((ep ++ ew ++ el ++ ef) ++ runDefers w d1 c), block, (runDefers w d2 c), doc.
  conjs; auto.
  - rewrite <- !app_assoc. reflexivity.
  - apply runDefers_boundary.
  - apply in_or_app. left. apply in_or_app. right. apply in_or_app. right.
    apply in_or_app. now left.
Qed.

Lemma cleanup_steps_in_order_witness :
  exists pre block post doc,
    fst (Run (calm ["{}"]) (exampleRunner "idx" twoServers false false false))
    = pre ++ EvRunDeferred 1 :: block ++ post
    /\ cleanupSteps (calm ["{}"])
         (withDefaultServer (exampleRunner "idx" twoServers false false false))
         (makeOptions (withDefaultServer (exampleRunner "idx" twoServers false false false)))
         1 (JStr "2") (filter (fun e => negb (isLog e)) block)
    /\ deferredBoundary post
    /\ In (EvGetSettings 1
             (makeOptions (withDefaultServer (exampleRunner "idx" twoServers false false false)))
             (inr doc)) pre
    /\ numberOfReplicasOf
         (makeOptions (withDefaultServer (exampleRunner "idx" twoServers false false false)))
         doc = Some (JStr "2").
Proof.
  apply (@cleanup_steps_in_order (calm ["{}"])
           (exampleRunner "idx" twoServers false false false) 1 (JStr "2")).
  - find_in.
  - reflexivity.
Defined.

(** C2 as stated fails: when the request that restores the refresh interval
    gets no answer, the shutdown function ends there; the run below returns
    [nil], its shutdown function has run, and neither the number of replicas
    was restored nor the index flushed. *)
Lemma cleanup_all_steps_counterexample :
  snd (Run (exampleWorld ["{}"] restoreDown (fun _ => None))
         (exampleRunner "idx" ["http://a:9200"] false false false)) = Returned None
  /\ In (EvRunDeferred 0)
       (fst (Run (exampleWorld ["{}"] restoreDown (fun _ => None))
               (exampleRunner "idx" ["http://a:9200"] false false false)))
  /\ existsb isRestoreReplicas
       (fst (Run (exampleWorld ["{}"] restoreDown (fun _ => None))
               (exampleRunner "idx" ["http://a:9200"] false false false))) = false
  /\ existsb isFlush
       (fst (Run (exampleWorld ["{}"] restoreDown (fun _ => None))
               (exampleRunner "idx" ["http://a:9200"] false false false))) = false.
Proof.
  split; [reflexivity|]. split; [find_in|]. split; reflexivity.
Qed.

(** ** The lines that reach the queue *)

Lemma sent_app l1 l2 : sent (l1 ++ l2) = sent l1 ++ sent l2.
Proof. apply flat_map_app. Qed.

Lemma skipped_app l1 l2 : skipped (l1 ++ l2) = skipped l1 ++ skipped l2.
Proof. apply flat_map_app. Qed.

Lemma reported_app l1 l2 : reported (l1 ++ l2) = reported l1 ++ reported l2.
Proof. apply flat_map_app. Qed.

Lemma quiet_events k l :
  Forall (quiet k) l -> sent l = [] /\ skipped l = [] /\ Forall (eq k) (reported l).
Proof.
  induction 1 as [|e l He _ (IH1 & IH2 & IH3)]; [repeat split; constructor|].
  change (e :: l) with ([e] ++ l). rewrite sent_app, skipped_app, reported_app.
  rewrite IH1, IH2.
  destruct e; simpl in *; try contradiction; auto.
  destruct m; simpl; auto.
Qed.

Lemma not_feed_quiet k e : feedEvent e = false -> quiet k e.
Proof. destruct e; simpl; try discriminate; auto. destruct m; simpl; auto. discriminate. Qed.

Lemma not_feed_events (f : event -> bool) k l :
  (forall e, f e = true -> feedEvent e = false) ->
  Forall (fun e => f e = true) l ->
  sent l = [] /\ skipped l = [] /\ Forall (eq k) (reported l).
Proof.
  intros H Hl. apply quiet_events. eapply Forall_impl; [|exact Hl].
  intros e He. apply not_feed_quiet. auto.
Qed.

Lemma readLoop_no_close w r rd n :
  emits (fun e => e <> EvClose /\ reported [e] = []) (readLoop w r rd n).
Proof.
  revert n. induction rd as [|[line err] rest IH]; intros n; simpl.
  - rules. split; [discriminate | reflexivity].
  - rules; try apply IH; try (split; [discriminate | reflexivity]).
    unfold send. rules. split; [discriminate | reflexivity].
Qed.

Lemma send_val w r n line c evs c' :
  send w r n line c = (evs, c', Val tt) -> evs = [EvSend line] /\ c' = c.
Proof.
  unfold send. destruct (Runner.NumWorkers r <=? 0)%Z; [discriminate|].
  destruct (queue_recv w n); [|discriminate]. intros H. inversion H. auto.
Qed.

(** What the read loop has done when it ends at the end of the input. *)
Lemma readLoop_spec w r rd :
  forall n c evs c' k,
    readLoop w r rd n c = (evs, c', Val k) ->
    sent evs = accepted r (linesRead rd)
    /\ skipped evs = (if Runner.Verbose r then broken r (linesRead rd) else [])
    /\ k = n + List.length (accepted r (linesRead rd)).
Proof.
  induction rd as [|[line err] rest IH]; intros n c evs c' k H.
  - inversion H; subst. simpl. destruct (Runner.Verbose r); auto.
  - simpl in H. apply bind_inv in H.
    destruct H as [(s & _ & Hs) | (e1 & c1 & [] & e2 & H1 & H2 & ->)]; [discriminate|].
    inversion H1; subst e1 c1. clear H1.
    destruct err as [[|e]|].
    + inversion H2; subst. simpl. destruct (Runner.Verbose r); auto.
    + discriminate.
    + simpl linesRead. unfold accepted, broken, nonblank in *. simpl map. simpl filter.
      destruct (nonempty (TrimSpace line)) eqn:Hne; simpl negb in H2; cbv iota in H2.
      * simpl filter.
        destruct (Runner.SkipBroken r && negb (IsJSON (TrimSpace line))) eqn:Hb;
          simpl negb; cbv iota.
        -- apply bind_inv in H2.
           destruct H2 as [(s & _ & Hs) | (e1 & c1 & [] & e3 & H1 & H2 & ->)];
             [discriminate|].
           apply IH in H2. destruct H2 as (IH1 & IH2 & IH3).
           change (EvReadString line None :: e1 ++ e3)
             with ([EvReadString line None] ++ e1 ++ e3).
           rewrite !sent_app, !skipped_app, IH1, IH2.
           destruct (Runner.Verbose r); simpl in H1; inversion H1; subst e1 c1;
             simpl; auto.
        -- apply bind_inv in H2.
           destruct H2 as [(s & _ & Hs) | (e1 & c1 & [] & e3 & H1 & H2 & ->)];
             [discriminate|].
           apply send_val in H1. destruct H1 as [-> ->].
           apply IH in H2. destruct H2 as (IH1 & IH2 & IH3).
           change (EvReadString line None :: [EvSend (TrimSpace line)] ++ e3)
             with ([EvReadString line None] ++ [EvSend (TrimSpace line)] ++ e3).
           rewrite !sent_app, !skipped_app, IH1, IH2. simpl.
           repeat split; auto. rewrite IH3. lia.
      * apply IH in H2. destruct H2 as (IH1 & IH2 & IH3).
        change (EvReadString line None :: e2) with ([EvReadString line None] ++ e2).
        rewrite !sent_app, !skipped_app, IH1, IH2. simpl. auto.
Qed.

Lemma reported_none (P : event -> Prop) l :
  (forall e, P e -> reported [e] = []) -> Forall P l -> reported l = [].
Proof.
  intros H. induction 1 as [|e l He _ IH]; [reflexivity|].
  change (e :: l) with ([e] ++ l). now rewrite reported_app, IH, (H e He).
Qed.

(** A run of [feed] that closes the queue has read the input to its end. *)
Lemma feed_closed w r c ef c' x :
  feed w r c = (ef, c', x) ->
  In EvClose ef ->
  exists evs k rest,
    readLoop w r (input w) 0 c = (evs, c, Val k)
    /\ ef = evs ++ EvClose :: rest
    /\ reported evs = []
    /\ Forall (quiet k) rest.
Proof.
  unfold feed. intros H Hin.
  assert (Hgz : when (Runner.FileGzipped r)
                  match gzip_NewReader w with
                  | Some e => emit (EvFatal e);; halt Exited
                  | None => ret tt
                  end c = ([], c, Val tt)
                \/ exists e, ef = [EvFatal e]).
  { destruct (Runner.FileGzipped r); [|now left].
    destruct (gzip_NewReader w) as [e|]; [|now left].
    right. exists e. cbn in H. now inversion H. }
  destruct Hgz as [G | [e ->]]; [|destruct Hin as [Hin|[]]; discriminate].
  rewrite (bind_val _ _ _ G) in H. cbn [app] in H.
  pose proof (readLoop_no_close w r (input w) 0 c) as Hnc.
  pose proof (readLoop_keeps w r (input w) 0 c) as Hk.
  unfold events, ctl in Hnc, Hk.
  destruct (readLoop w r (input w) 0 c) as [[evs c1] [k|s]] eqn:R;
    cbn [fst snd] in Hnc, Hk; subst c1.
  2:{ rewrite (bind_stop _ _ _ R) in H. inversion H; subst.
      rewrite Forall_forall in Hnc. apply Hnc in Hin. now destruct Hin. }
  rewrite (bind_val _ _ _ R) in H.
  match type of H with
  | context [events (bind (emit EvClose) ?k0 c)] =>
      assert (Hq : emits (quiet k) (k0 tt))
        by (cbv beta; unfold wait; rules; simpl; auto);
      rewrite (bind_val (emit EvClose) k0 c (e1 := [EvClose]) (c1 := c) (a := tt)) in H
        by reflexivity
  end.
  unfold events at 1 in H. cbn [fst] in H.
  inversion H; subst.
  exists evs, k. eexists. split; [reflexivity|]. split; [reflexivity|]. split.
  - eapply reported_none; [|exact Hnc]. now intros e [_ He].
  - apply Hq.
Qed.

Lemma withDefaultServer_flags r :
  Runner.SkipBroken (withDefaultServer r) = Runner.SkipBroken r
  /\ Runner.Verbose (withDefaultServer r) = Runner.Verbose r.
Proof. unfold withDefaultServer. destruct (Runner.Servers r); auto. Qed.

Lemma close_in_feed w ep ew el ef c st :
  Forall (fun e => prepareEvent e = true) ep ->
  Forall (fun e => workerEvent e = true) ew ->
  Forall (fun e => loopEvent e = true) el ->
  In EvClose (fst (leave w (ep ++ ew ++ el ++ ef) c st)) ->
  In EvClose ef.
Proof.
  intros Hp Hw Hl Hin. rewrite leave_fst in Hin.
  rewrite Forall_forall in Hp, Hw, Hl.
  repeat (apply in_app_or in Hin; destruct Hin as [Hin|Hin]); auto.
  - apply Hp in Hin. discriminate.
  - apply Hw in Hin. discriminate.
  - apply Hl in Hin. discriminate.
  - exfalso. destruct (runsDeferred st); [|contradiction].
    pose proof (runDefers_cleanup w (defers c) c) as Hc.
    rewrite Forall_forall in Hc. apply Hc in Hin. discriminate.
Qed.

Arguments close_in_feed : clear implicits.

(** What a run that closes the queue has sent, skipped and reported. *)
Lemma Run_lines w r :
  In EvClose (fst (Run w r)) ->
  sent (fst (Run w r)) = accepted r (linesRead (input w))
  /\ skipped (fst (Run w r))
     = (if Runner.Verbose r then broken r (linesRead (input w)) else [])
  /\ Forall (eq (List.length (accepted r (linesRead (input w)))))
       (reported (fst (Run w r))).
Proof.
  intros Hin.
  destruct (Run_structure w r)
    as (ep & ew & el & ef & cp & c & rl & st & E & Hp & Hw & Hl & Hf
        & _ & _ & _ & Hcp & HL & Hend).
  rewrite E in *.
  apply (close_in_feed w ep ew el ef c st) in Hin; auto.
  destruct Hend as [[_ ->] | [_ [->|F]]]; try contradiction.
  destruct (feed_closed _ _ _ F Hin) as (evs & k & rest & R & -> & R0 & Hq).
  apply readLoop_spec in R. destruct R as (R1 & R2 & R3). simpl in R3.
  destruct (withDefaultServer_flags r) as [Fs Fv].
  unfold accepted, broken in R1, R2, R3. rewrite Fs in R1, R2, R3. rewrite Fv in R2.
  fold (accepted r (linesRead (input w))) in R1, R3.
  fold (broken r (linesRead (input w))) in R2.
  set (n := List.length (accepted r (linesRead (input w)))) in *. subst k.
  destruct (not_feed_events _ n prepare_not_feed Hp) as (P1 & P2 & P3).
  destruct (not_feed_events _ n worker_not_feed Hw) as (W1 & W2 & W3).
  destruct (not_feed_events _ n loop_not_feed Hl) as (L1 & L2 & L3).
  destruct (quiet_events Hq) as (Q1 & Q2 & Q3).
  assert (Hd : Forall (fun e => cleanupEvent e = true)
                 (if runsDeferred st then runDefers w (defers c) c else []))
    by (destruct (runsDeferred st); [apply runDefers_cleanup | constructor]).
  destruct (not_feed_events _ n cleanup_not_feed Hd) as (D1 & D2 & D3).
  rewrite leave_fst.
  change (evs ++ EvClose :: rest) with (evs ++ [EvClose] ++ rest) in *.
  rewrite !sent_app, !skipped_app, !reported_app.
  rewrite P1, P2, W1, W2, L1, L2, Q1, Q2, D1, D2, R0, R1, R2. simpl.
  rewrite !app_nil_r. repeat split; auto.
  rewrite !Forall_app. conjs; auto.
Qed.

(** C5, as the code has it: in skip mode, when the input is read to its end,
    the lines put on the queue are exactly the non-blank trimmed lines that
    are valid JSON, in their order; every count that is reported is their
    number; the other non-blank lines are dropped, and they are logged when
    [r.Verbose] is set and only then. *)
Theorem broken_lines_skipped w r :
  Runner.SkipBroken r = true ->
  In EvClose (fst (Run w r)) ->
  sent (fst (Run w r)) = filter IsJSON (nonblank (linesRead (input w)))
  /\ skipped (fst (Run w r))
     = (if Runner.Verbose r
        then filter (fun l => negb (IsJSON l)) (nonblank (linesRead (input w)))
        else [])
  /\ Forall (eq (List.length (filter IsJSON (nonblank (linesRead (input w))))))
       (reported (fst (Run w r))).
Proof.
  intros Hskip Hin. destruct (Run_lines w r Hin) as (H1 & H2 & H3).
  unfold accepted, broken in *. rewrite Hskip in *.
  assert (Ea : forall l, filter (fun x => negb (true && negb (IsJSON x))) l = filter IsJSON l).
  { intros l. apply filter_ext. intros x. simpl. apply negb_involutive. }
  rewrite Ea in H1, H3. auto.
Qed.

Lemma broken_lines_skipped_witness :
  sent (fst (Run (calm tenAndOne) (exampleRunner "idx" twoServers false true true)))
  = filter IsJSON (nonblank (linesRead (input (calm tenAndOne))))
  /\ skipped (fst (Run (calm tenAndOne) (exampleRunner "idx" twoServers false true true)))
     = filter (fun l => negb (IsJSON l)) (nonblank (linesRead (input (calm tenAndOne))))
  /\ Forall (eq (List.length (filter IsJSON (nonblank (linesRead (input (calm tenAndOne)))))))
       (reported (fst (Run (calm tenAndOne)
                         (exampleRunner "idx" twoServers false true true)))).
Proof.
  apply (@broken_lines_skipped (calm tenAndOne)
           (exampleRunner "idx" twoServers false true true)).
  - reflexivity.
  - find_in.
Defined.

(** C5 as stated fails twice.  The input [tenAndOne] is ten lines of valid
    JSON and the line [not json]: in skip mode ten lines are put on the queue
    and ten is the count reported, not nine; and without [r.Verbose] the
    dropped line is not logged. *)
Lemma nine_documents_counterexample :
  List.length tenAndOne = 11
  /\ filter (fun l => negb (IsJSON (TrimSpace l))) tenAndOne = ["not json"]
  /\ List.length
       (sent (fst (Run (calm tenAndOne) (exampleRunner "idx" twoServers false true true))))
     = 10
  /\ reported (fst (Run (calm tenAndOne) (exampleRunner "idx" twoServers false true true)))
     = [10]
  /\ skipped (fst (Run (calm tenAndOne) (exampleRunner "idx" twoServers false true true)))
     = ["not json"]
  /\ List.length
       (sent (fst (Run (calm tenAndOne) (exampleRunner "idx" twoServers false true false))))
     = 10
  /\ skipped (fst (Run (calm tenAndOne) (exampleRunner "idx" twoServers false true false)))
     = [].
Proof. repeat split; vm_compute; reflexivity. Qed.

(** * The pipeline *)

Lemma update_split A (l : list A) k x :
  nth_error l k = Some x ->
  exists l1 l2, l = l1 ++ x :: l2 /\ forall y, update k y l = l1 ++ y :: l2.
Proof.
  revert k. induction l as [|h t IH]; intros [|k] H; simpl in H; try discriminate.
  - inversion H; subst. exists [], t. auto.
  - destruct (IH k H) as (l1 & l2 & -> & Hu). exists (h :: l1), l2.
    split; [reflexivity|]. intros y. simpl. now rewrite Hu.
Qed.

Lemma running_split l1 x l2 :
  List.length (filter running (l1 ++ x :: l2))
  = List.length (filter running l1) + (if running x then 1 else 0)
    + List.length (filter running l2).
Proof.
  rewrite filter_app, length_app. simpl. destruct (running x); simpl; lia.
Qed.

Lemma pending_split l1 x l2 :
  List.concat (map pending (l1 ++ x :: l2))
  = List.concat (map pending l1) ++ pending x ++ List.concat (map pending l2).
Proof. now rewrite map_app, concat_app. Qed.

Lemma perm_grow A (D X b C y : list A) :
  Permutation ((D ++ X ++ b ++ C) ++ y) (D ++ X ++ (b ++ y) ++ C).
Proof.
  rewrite <- !app_assoc. do 3 apply Permutation_app_head. apply Permutation_app_comm.
Qed.

Lemma perm_deliver A (D X b C : list A) :
  Permutation (D ++ X ++ b ++ C) ((D ++ b ++ []) ++ X ++ C).
Proof.
  rewrite app_nil_r, <- app_assoc. apply Permutation_app_head.
  apply Permutation_app_swap_app.
Qed.

Lemma no_running_no_pending l :
  List.length (filter running l) = 0 ->
  Forall (eq Terminated) l /\ List.concat (map pending l) = [].
Proof.
  induction l as [|x l IH]; simpl; [auto|].
  destruct x; simpl; try discriminate. intros H. destruct (IH H). auto.
Qed.

Lemma accepted_cons r line lines :
  accepted r (line :: lines)
  = if negb (nonempty (TrimSpace line)) then accepted r lines
    else if Runner.SkipBroken r && negb (IsJSON (TrimSpace line)) then accepted r lines
         else TrimSpace line :: accepted r lines.
Proof.
  unfold accepted, nonblank. simpl.
  destruct (nonempty (TrimSpace line)); simpl; [|reflexivity].
  now destruct (Runner.SkipBroken r && negb (IsJSON (TrimSpace line))).
Qed.

Lemma start_inv r w : pipelineInv r w (start r w).
Proof.
  constructor; simpl; auto.
  - apply repeat_length.
  - induction (Z.to_nat (Runner.NumWorkers r)); simpl; auto.
  - induction (Z.to_nat (Runner.NumWorkers r)); simpl; auto.
  - intros; discriminate.
Qed.

Lemma produce_inv r w s s' :
  produce r s = Some s' -> pipelineInv r w s -> pipelineInv r w s'.
Proof.
  unfold produce. intros H [Iw Ig Il Ic Icl Ij Ii].
  destruct (prod s) eqn:P; try discriminate.
  - destruct (reads s) as [|[line [[|e]|]] rest] eqn:R.
    + inversion H; subst. constructor; simpl; auto; try discriminate.
      now rewrite app_nil_r in Ii.
    + inversion H; subst. constructor; simpl; auto; try discriminate.
      now rewrite app_nil_r in Ii.
    + inversion H; subst. constructor; simpl; auto; discriminate.
    + simpl in Ii. rewrite accepted_cons in Ii.
      destruct (negb (nonempty (TrimSpace line))).
      * inversion H; subst. constructor; simpl; rewrite ?P; auto; discriminate.
      * destruct (Runner.SkipBroken r && negb (IsJSON (TrimSpace line)));
          inversion H; subst; constructor; simpl; rewrite ?P; auto; discriminate.
  - inversion H; subst. constructor; simpl; auto; try discriminate. lia.
  - inversion H; subst. constructor; simpl; auto; discriminate.
  - destruct (wg s =? 0) eqn:W; [|discriminate]. apply Nat.eqb_eq in W.
    inversion H; subst. constructor; simpl; auto.
Qed.

Lemma step_inv r w a s s' :
  step r a s = Some s' -> pipelineInv r w s -> pipelineInv r w s'.
Proof.
  unfold step. destruct (aborted s) eqn:Ab; [discriminate|].
  destruct a as [|k|k ok|k|k ok].
  - apply produce_inv.
  - intros H [Iw Ig Il Ic Icl Ij Ii].
    destruct (prod s) eqn:P; try discriminate.
    destruct (nth_error (workers s) k) as [[b| | |]|] eqn:N; try discriminate.
    destruct (update_split _ _ N) as (l1 & l2 & E & U).
    inversion H; subst s'; clear H. rewrite E in *.
    constructor; simpl; rewrite ?U; auto; try discriminate.
    + rewrite length_app in *. simpl in *. exact Iw.
    + rewrite running_split in *. unfold receive.
      now destruct (_ <=? _)%Z.
    + rewrite pending_split in *.
      replace (pending (receive r b line)) with (b ++ [line])
        by (unfold receive; now destruct (_ <=? _)%Z).
      simpl pending in Il. rewrite Il. apply perm_grow.
    + rewrite length_app. simpl. lia.
    + rewrite Ii. now rewrite <- app_assoc.
  - intros H [Iw Ig Il Ic Icl Ij Ii].
    destruct (nth_error (workers s) k) as [[b|b|b|]|] eqn:N; try discriminate.
    destruct (update_split _ _ N) as (l1 & l2 & E & U).
    destruct ok; inversion H; subst s'; clear H.
    + rewrite E in *. constructor; simpl; rewrite ?U; auto.
      * rewrite length_app in *. simpl in *. exact Iw.
      * now rewrite running_split in *.
      * rewrite pending_split in *. rewrite concat_app. simpl.
        rewrite Il. apply perm_deliver.
    + constructor; simpl; auto.
  - intros H [Iw Ig Il Ic Icl Ij Ii].
    destruct (nth_error (workers s) k) as [[b|b|b|]|] eqn:N; try discriminate.
    destruct (closed s) eqn:C; [|discriminate].
    destruct (update_split _ _ N) as (l1 & l2 & E & U).
    inversion H; subst s'; clear H. rewrite E in *.
    constructor; simpl; rewrite ?U; auto.
    + rewrite length_app in *. simpl in *. exact Iw.
    + now rewrite running_split in *.
    + now rewrite pending_split in *.
  - intros H [Iw Ig Il Ic Icl Ij Ii].
    destruct (nth_error (workers s) k) as [[b|b|b|]|] eqn:N; try discriminate.
    destruct (update_split _ _ N) as (l1 & l2 & E & U).
    assert (Hs' : s' = abort s \/
                  (workers s' = l1 ++ Terminated :: l2 /\ wg s' = pred (wg s)
                   /\ List.concat (delivered s') = List.concat (delivered s) ++ b
                   /\ prod s' = prod s /\ reads s' = reads s /\ counter s' = counter s
                   /\ closed s' = closed s /\ enqueued s' = enqueued s)).
    { destruct b as [|x b]; [|destruct ok]; inversion H; subst s'; simpl; rewrite ?U;
        auto; right; rewrite ?concat_app; simpl; rewrite ?app_nil_r; auto 10. }
    destruct Hs' as [-> | (Ew & Eg & Ed & Ep & Er & Ec & Ecl & Ee)].
    { constructor; simpl; auto. }
    rewrite E in *.
    constructor; rewrite ?Ew, ?Eg, ?Ed, ?Ep, ?Er, ?Ec, ?Ecl, ?Ee; auto.
    + rewrite length_app in *. simpl in *. exact Iw.
    + rewrite running_split in *. simpl in *. lia.
    + rewrite pending_split in *. simpl in *. rewrite Il.
      rewrite <- !app_assoc. apply Permutation_app_head.
      apply Permutation_app_swap_app.
    + intros Hj. rewrite (Ij Hj). reflexivity.
Qed.

Lemma exec_inv r w acts :
  forall s s', exec r acts s = Some s' -> pipelineInv r w s -> pipelineInv r w s'.
Proof.
  induction acts as [|a acts IH]; simpl; intros s s' H I.
  - now inversion H; subst.
  - destruct (step r a s) as [s1|] eqn:S; [|discriminate].
    eapply IH; [exact H|]. eapply step_inv; eauto.
Qed.

Lemma reachable_inv r w acts s :
  exec r acts (start r w) = Some s -> pipelineInv r w s.
Proof. intros H. eapply exec_inv; [exact H | apply start_inv]. Qed.

(** ** The join *)

(** C3: when [Run] gets past [wg.Wait()], the queue is closed, each of the
    [r.NumWorkers] workers has terminated, the lines that were put on the
    queue are the lines of the input that pass the tests of the read loop,
    and the batches handed to the Transport Client hold exactly these lines,
    each as often as it was put on the queue: none is lost and none is
    sent twice, partial batches included. *)
Theorem run_joins_workers r w acts s :
  exec r acts (start r w) = Some s ->
  prod s = Joined ->
  closed s = true
  /\ List.length (workers s) = Z.to_nat (Runner.NumWorkers r)
  /\ Forall (eq Terminated) (workers s)
  /\ enqueued s = accepted r (linesRead (input w))
  /\ Permutation (List.concat (delivered s)) (enqueued s).
Proof.
  intros H J.
  assert (I : pipelineInv r w s) by (eapply reachable_inv; exact H).
  destruct I as [Iw Ig Il Ic Icl Ij Ii].
  rewrite J in *. specialize (Ij eq_refl). rewrite Ij in Ig. symmetry in Ig.
  destruct (no_running_no_pending _ Ig) as [Ht Hp].
  rewrite Hp, app_nil_r in Il. conjs; auto. now symmetry.
Qed.

Lemma run_joins_workers_witness :
  closed joinedState = true
  /\ List.length (workers joinedState) = 2
  /\ Forall (eq Terminated) (workers joinedState)
  /\ enqueued joinedState
     = accepted (exampleRunner "idx" twoServers false true false)
         (linesRead (input (calm threeLines)))
  /\ Permutation (List.concat (delivered joinedState)) (enqueued joinedState).
Proof.
  apply (@run_joins_workers (exampleRunner "idx" twoServers false true false)
           (calm threeLines) exampleSchedule joinedState);
    vm_compute; reflexivity.
Defined.

(** ** The counter *)

Lemma step_counter r a s s' :
  step r a s = Some s' ->
  counter s' = match a, prod s with
               | Produce, Counting => S (counter s)
               | _, _ => counter s
               end.
Proof.
  unfold step. destruct (aborted s); [discriminate|].
  destruct a as [|k|k ok|k|k ok].
  - unfold produce. destruct (prod s); try discriminate.
    + destruct (reads s) as [|[line [[|e]|]] rest];
        repeat match goal with
               | |- context [if ?b then _ else _] => destruct b
               end; intros H; inversion H; reflexivity.
    + intros H; inversion H; reflexivity.
    + intros H; inversion H; reflexivity.
    + destruct (wg s =? 0); intros H; inversion H; reflexivity.
  - destruct (prod s); try discriminate.
    destruct (nth_error (workers s) k) as [[b|b|b|]|]; try discriminate.
    intros H; inversion H; reflexivity.
  - destruct (nth_error (workers s) k) as [[b|b|b|]|]; try discriminate.
    destruct ok; intros H; inversion H; destruct (prod s); reflexivity.
  - destruct (nth_error (workers s) k) as [[b|b|b|]|]; try discriminate.
    destruct (closed s); intros H; inversion H; destruct (prod s); reflexivity.
  - destruct (nth_error (workers s) k) as [[b|b|b|]|]; try discriminate.
    destruct b; [|destruct ok]; intros H; inversion H; destruct (prod s); reflexivity.
Qed.

(** C6, as the code has it: [counter] is a variable of the producer alone.
    A step of the pipeline changes it only when it is the producer's
    [counter++], which follows each send; no step of a worker touches it.
    It counts the lines put on the queue, the one just sent apart, and
    past the join it is the number of documents in the batches that the
    workers handed to the Transport Client. *)
Theorem counter_owned_by_producer r w acts s a s' :
  exec r acts (start r w) = Some s ->
  step r a s = Some s' ->
  counter s' = match a, prod s with
               | Produce, Counting => S (counter s)
               | _, _ => counter s
               end
  /\ counter s' + match prod s' with Counting => 1 | _ => 0 end
     = List.length (enqueued s')
  /\ match prod s' with
     | Joined => counter s' = List.length (List.concat (delivered s'))
     | _ => True
     end.
Proof.
  intros H S. split; [eapply step_counter; exact S|].
  assert (I : pipelineInv r w s') by (eapply step_inv; [exact S | eapply reachable_inv; exact H]).
  destruct I as [Iw Ig Il Ic Icl Ij Ii].
  split; [exact Ic|].
  destruct (prod s') eqn:P; auto.
  specialize (Ij eq_refl). rewrite Ij in Ig. symmetry in Ig.
  destruct (no_running_no_pending _ Ig) as [_ Hp].
  rewrite Hp, app_nil_r in Il. apply Permutation_length in Il. lia.
Qed.

Lemma counter_owned_by_producer_witness :
  counter flushedState = counter fullBatchState
  /\ counter flushedState + match prod flushedState with Counting => 1 | _ => 0 end
     = List.length (enqueued flushedState)
  /\ match prod flushedState with
     | Joined => counter flushedState = List.length (List.concat (delivered flushedState))
     | _ => True
     end.
Proof.
  apply (@counter_owned_by_producer (exampleRunner "idx" twoServers false true false)
           (calm threeLines) fullBatchSchedule fullBatchState (Flush 0 true) flushedState);
    vm_compute; reflexivity.
Defined.

(** C6 as stated fails: the workers do not increment the counter.  After
    [fullBatchSchedule] two lines are on their way and the counter is 1; the
    first worker then hands both documents to the Transport Client, and the
    counter is still 1. *)
Lemma counter_not_incremented_by_workers_counterexample :
  option_map (fun s => (counter s, delivered s))
    (exec (exampleRunner "idx" twoServers false true false) fullBatchSchedule
       (start (exampleRunner "idx" twoServers false true false) (calm threeLines)))
  = Some (1, [])
  /\ option_map (fun s => (counter s, delivered s))
       (exec (exampleRunner "idx" twoServers false true false)
          (fullBatchSchedule ++ [Flush 0 true])
          (start (exampleRunner "idx" twoServers false true false) (calm threeLines)))
     = Some (1, [["{}"; "[1]"]]).
Proof. split; vm_compute; reflexivity. Qed.

(** * More properties of [Run] *)

Lemma withDefaultServer_fields r :
  Runner.IndexName (withDefaultServer r) = Runner.IndexName r
  /\ Runner.ZeroReplica (withDefaultServer r) = Runner.ZeroReplica r
  /\ Runner.RefreshInterval (withDefaultServer r) = Runner.RefreshInterval r
  /\ Runner.Purge (withDefaultServer r) = Runner.Purge r
  /\ Runner.NumWorkers (withDefaultServer r) = Runner.NumWorkers r
  /\ Runner.FileGzipped (withDefaultServer r) = Runner.FileGzipped r.
Proof. unfold withDefaultServer. destruct (Runner.Servers r); simpl; auto 10. Qed.





(** ** The pre-flight calls *)

Section Aborts.
Context {A B : Type} (bad : error -> event -> Prop).

Lemma aborts_ret (a : A) : aborts bad (ret a).
Proof. intros c e ev []. Qed.

Lemma aborts_halt (s : stop) : aborts bad (@halt A s).
Proof. intros c e ev []. Qed.

Lemma aborts_emit (x : event) : (forall e, ~ bad e x) -> aborts bad (emit x).
Proof. intros H c e ev [<-|[]] Hb. now apply H in Hb. Qed.

Lemma aborts_defer d : aborts bad (defer d).
Proof. intros c e ev []. Qed.

Lemma aborts_bind (m : M A) (k : A -> M B) :
  aborts bad m -> (forall a, aborts bad (k a)) -> aborts bad (bind m k).
Proof.
  intros Hm Hk c e ev. specialize (Hm c e ev). unfold bind, events, result in *.
  destruct (m c) as [[e1 c1] [a|s]]; simpl in *.
  - specialize (Hk a c1 e ev). unfold events, result in Hk.
    destruct (k a c1) as [[e2 c2] r2]; simpl in *.
    intros Hin Hb. apply in_app_or in Hin. destruct Hin as [Hin|Hin]; auto.
    specialize (Hm Hin Hb). discriminate.
  - intros Hin Hb. specialize (Hm Hin Hb). now inversion Hm.
Qed.
End Aborts.

Lemma aborts_when (bad : error -> event -> Prop) b m :
  aborts bad m -> aborts bad (when b m).
Proof. intros H. destruct b; simpl; [exact H | intros c e ev []]. Qed.

Lemma aborts_try (bad : error -> event -> Prop) ev r :
  (forall e, bad e (ev r) -> r = Some e) -> aborts bad (try ev r).
Proof.
  intros H c e x. unfold try, bind, emit, events, result. destruct r as [e0|]; simpl.
  - intros [<-|[]] Hb. apply H in Hb. now inversion Hb.
  - intros [<-|[]] Hb. apply H in Hb. discriminate.
Qed.

(** The errors of the pre-flight calls end [prepare]. *)
Lemma prepare_aborts w r : aborts preflightError (prepare w r).
Proof.
  unfold prepare, prologue, preflight. cbv zeta.
  repeat first
    [ apply aborts_try;
      [ intros e; simpl;
        match goal with
        | |- match ?x with _ => _ end -> _ =>
            destruct x; [intros ->; reflexivity | contradiction]
        end ]
    | apply aborts_bind; [ | intros ? ]
    | apply aborts_when
    | apply aborts_defer
    | apply aborts_emit; [ intros e [] ]
    | match goal with
      | |- aborts _ (match ?x with _ => _ end) => destruct x
      | |- aborts _ (if ?x then _ else _) => destruct x
      | |- aborts _ (return_ _) => intros ? ? ? []
      | |- aborts _ (ret _) => intros ? ? ? []
      | |- aborts _ (halt _) => intros ? ? ? []
      end ].
Qed.

(** ** The four ways the body of [Run] ends *)

Lemma RunBody_cases w r :
  exists ep cp rp,
    prepare w r entry = (ep, cp, rp)
    /\ Forall (fun e => prepareEvent e = true) ep
    /\ (defers cp = [] \/ defers cp = [StopCPUProfile])
    /\ ((exists s, rp = Stop s /\ Run w r = leave w ep cp s)
        \/ (rp = Val (withDefaultServer r, makeOptions (withDefaultServer r))
            /\ exists ew rw,
                startWorkers (withDefaultServer r) (makeOptions (withDefaultServer r)) cp
                = (ew, cp, rw)
                /\ Forall (fun e => workerEvent e = true) ew
                /\ ((exists s, rw = Stop s /\ Run w r = leave w (ep ++ ew) cp s)
                    \/ (rw = Val tt
                        /\ exists el cl rl,
                            serverLoop w (withDefaultServer r)
                              (makeOptions (withDefaultServer r)) cp = (el, cl, rl)
                            /\ Forall (fun e => loopEvent e = true) el
                            /\ ((exists s, rl = Stop s
                                           /\ Run w r = leave w (ep ++ ew ++ el) cl s)
                                \/ (rl = Val tt
                                    /\ exists ef s,
                                        feed w (withDefaultServer r) cl = (ef, cl, Stop s)
                                        /\ Forall (fun e => feedEvent e = true) ef
                                        /\ Run w r
                                           = leave w (ep ++ ew ++ el ++ ef) cl s)))))).
Proof.
  unfold Run, RunBody.
  pose proof (prepare_defers w r entry) as Hcp.
  destruct (prepare w r entry) as [[ep cp] [[r1 o1]|s]] eqn:P;
    unfold ctl in Hcp; simpl in Hcp;
    exists ep, cp; eexists; (split; [reflexivity|]);
    (split; [eapply emits_at; [apply prepare_emits | exact P]|]);
    (split; [exact Hcp|]).
  2:{ left. exists s. split; [reflexivity|]. now rewrite (bind_stop _ _ _ P). }
  right. destruct (prepare_val _ _ _ P) as [-> ->]. split; [reflexivity|].
  rewrite (bind_val _ _ _ P). cbv beta iota.
  set (r' := withDefaultServer r) in *. set (o := makeOptions r') in *.
  destruct (startWorkers r' o cp) as [[ew cw] [[]|s]] eqn:W;
    pose proof (keeps_at _ (startWorkers_keeps r' o) W) as ->;
    exists ew; eexists; (split; [reflexivity|]);
    (split; [eapply emits_at; [apply startWorkers_emits | exact W]|]).
  2:{ left. exists s. split; [reflexivity|]. rewrite (bind_stop _ _ _ W).
      unfold events, ctl, result. reflexivity. }
  right. split; [reflexivity|]. rewrite (bind_val _ _ _ W).
  destruct (serverLoop w r' o cp) as [[el cl] [[]|s]] eqn:L;
    exists el, cl; eexists; (split; [reflexivity|]);
    (split; [eapply emits_at; [apply serverLoop_emits | exact L]|]).
  2:{ left. exists s. split; [reflexivity|]. rewrite (bind_stop _ _ _ L).
      unfold events, ctl, result. reflexivity. }
  right. split; [reflexivity|]. rewrite (bind_val _ _ _ L).
  destruct (feed_stops w r' cl) as [s Hs].
  destruct (feed w r' cl) as [[ef cf] rf] eqn:F. unfold result in Hs. simpl in Hs. subst rf.
  pose proof (keeps_at _ (feed_keeps w r') F) as ->.
  exists ef, s. split; [reflexivity|].
  split; [eapply emits_at; [apply feed_emits | exact F]|].
  unfold events, ctl, result. cbn [fst snd]. rewrite <- ?app_assoc. reflexivity.
Qed.

(** Takes a run apart: one goal for each part of [Run] that ends it. *)
Ltac run_cases w r :=
  let ep := fresh "ep" in let cp := fresh "cp" in let rp := fresh "rp" in
  let P := fresh "P" in let Hp := fresh "Hp" in let Hcp := fresh "Hcp" in
  let ew := fresh "ew" in let rw := fresh "rw" in let W := fresh "W" in
  let Hw := fresh "Hw" in
  let el := fresh "el" in let cl := fresh "cl" in let rl := fresh "rl" in
  let L := fresh "L" in let Hl := fresh "Hl" in
  let ef := fresh "ef" in let F := fresh "F" in let Hf := fresh "Hf" in
  let st := fresh "st" in let E := fresh "E" in
  destruct (RunBody_cases w r)
    as (ep & cp & rp & P & Hp & Hcp
        & [(st & -> & E)
          | (-> & ew & rw & W & Hw
             & [(st & -> & E)
               | (-> & el & cl & rl & L & Hl
                  & [(st & -> & E) | (-> & ef & st & F & Hf & E)])])]);
  rewrite E in *; rewrite ?leave_fst, ?leave_snd in *.

Lemma in_class (f : event -> bool) l e :
  Forall (fun x => f x = true) l -> In e l -> f e = true.
Proof. rewrite Forall_forall. auto. Qed.

Arguments in_class : clear implicits.

(** Closes a goal with a hypothesis that puts an event in a part of the run
    that cannot write it. *)
Ltac wrong_part :=
  match goal with
  | Hc : Forall (fun x => ?f x = true) ?l, Hin : In ?e ?l |- _ =>
      apply (in_class f l e Hc) in Hin; simpl in Hin;
      solve [discriminate | contradiction]
  end.

Lemma in_deferred w s c e :
  In e (if runsDeferred s then runDefers w (defers c) c else []) ->
  cleanupEvent e = true.
Proof.
  destruct (runsDeferred s); [|contradiction].
  apply in_class. apply runDefers_cleanup.
Qed.

Lemma preflightError_class e ev :
  preflightError e ev ->
  prepareEvent ev = true /\ workerEvent ev = false /\ loopEvent ev = false
  /\ feedEvent ev = false /\ cleanupEvent ev = false.
Proof. destruct ev; simpl; try contradiction; auto. Qed.

Lemma cpu_defers w cp :
  defers cp = [] \/ defers cp = [StopCPUProfile] ->
  Forall (fun x => prepareEvent x = true \/ x = EvStopCPUProfile)
    (runDefers w (defers cp) cp).
Proof.
  intros [-> | ->]; simpl; [constructor|].
  constructor; [now right | constructor].
Qed.

(** X2: when [DeleteIndex], [CreateIndex] or [PutMapping] returns an error,
    [Run] returns this error, and nothing has happened but the steps before
    it and the stop of the CPU profile: no worker was started, no setting was
    read or changed, no line was read. *)
Theorem preflight_failure_aborts w r e ev :
  In ev (fst (Run w r)) ->
  preflightError e ev ->
  snd (Run w r) = Returned (Some e)
  /\ Forall (fun x => prepareEvent x = true \/ x = EvStopCPUProfile) (fst (Run w r)).
Proof.
  intros Hin Hbad.
  destruct (preflightError_class _ _ Hbad) as (Cp & Cw & Cl & Cf & Cc).
  pose proof (prepare_aborts w r entry e ev) as Hab.
  run_cases w r; rewrite P in Hab; unfold events, result in Hab; simpl in Hab;
    repeat (apply in_app_or in Hin; destruct Hin as [Hin|Hin]);
    try (specialize (Hab Hin Hbad); try discriminate);
    try (apply in_deferred in Hin; congruence);
    try (match goal with
         | Hc : Forall (fun x => ?f x = true) ?l, Hi : In ev ?l |- _ =>
             apply (in_class f l ev Hc) in Hi; congruence
         end).
  inversion Hab; subst. split; [reflexivity|].
  simpl. apply Forall_app. split.
  - eapply Forall_impl; [|exact Hp]. auto.
  - now apply cpu_defers.
Qed.

Lemma preflight_failure_aborts_witness :
  snd (Run createFails (exampleRunner "idx" twoServers false false false))
  = Returned (Some "connection refused")
  /\ Forall (fun x => prepareEvent x = true \/ x = EvStopCPUProfile)
       (fst (Run createFails (exampleRunner "idx" twoServers false false false))).
Proof.
  apply (@preflight_failure_aborts createFails
           (exampleRunner "idx" twoServers false false false) "connection refused"
           (EvCreateIndex (makeOptions (exampleRunner "idx" twoServers false false false))
              (Some "connection refused"))).
  - find_in.
  - reflexivity.
Defined.

(** ** The workers *)





(** ** The order of the cleanups *)

Lemma seq_split_lt k : forall a l1 x l2,
  seq a k = l1 ++ x :: l2 -> Forall (fun y => y < x) l1.
Proof.
  induction k as [|k IH]; intros a l1 x l2 H; simpl in H.
  - destruct l1; discriminate.
  - destruct l1 as [|y l1]; [constructor|]. inversion H; subst.
    constructor.
    + assert (Hx : In x (seq (S y) k)) by (rewrite H2; apply in_or_app; right; now left).
      apply in_seq in Hx. lia.
    + eapply IH; eauto.
Qed.

Lemma firstn_seq_min k : forall a n, firstn k (seq a n) = seq a (Nat.min k n).
Proof.
  induction k as [|k IH]; intros a [|n]; simpl; try reflexivity.
  now rewrite IH.
Qed.

Lemma ordered_split (l : list (nat * jvalue)) k n i x j y :
  map fst l = firstn k (seq 0 n) ->
  In (i, x) l -> In (j, y) l -> i < j ->
  exists a b c, l = a ++ (i, x) :: b ++ (j, y) :: c.
Proof.
  intros Hl Hi Hj Hlt. apply in_split in Hi. destruct Hi as (a & rest & ->).
  apply in_app_or in Hj. destruct Hj as [Hj|[Hj|Hj]].
  - exfalso. rewrite firstn_seq_min, map_app in Hl. simpl in Hl. symmetry in Hl.
    apply seq_split_lt in Hl. rewrite Forall_forall in Hl.
    assert (j < i); [|lia]. apply Hl. apply in_map_iff. exists (j, y). auto.
  - inversion Hj. lia.
  - apply in_split in Hj. destruct Hj as (b & c & ->). eauto.
Qed.

(** Each iteration that goes on has registered its shutdown function: the
    registered iterations are the first ones of the loop, in their order. *)
Lemma forEach_registered w r o l :
  Options.Servers o <> [] ->
  forall c evs c' rs,
    forEach l (serverIter w r o) c = (evs, c', rs) ->
    exists k, map fst (registered evs) = firstn k l.
Proof.
  intros Hne. induction l as [|i l IH]; intros c evs c' rs H.
  - inversion H; subst. exists 0. reflexivity.
  - simpl in H. apply bind_inv in H.
    assert (Hreg : forall e1 c1 r1, serverIter w r o i c = (e1, c1, r1) ->
                     (registered e1 = [] /\ exists s, r1 = Stop s)
                     \/ exists nr, registered e1 = [(i, nr)]).
    { intros e1 c1 r1 H1. apply serverIter_shape in H1; [|exact Hne].
      destruct H1 as [(s & res & -> & _ & ->)
                     | (doc & nr & logs & post & -> & _ & Hlogs & Hpost & _)].
      - left. split; [reflexivity | eauto].
      - right. exists nr.
        change (EvGetSettings i o (inr doc) :: logs ++ EvDefer i nr :: post)
          with ([EvGetSettings i o (inr doc)] ++ logs ++ [EvDefer i nr] ++ post).
        rewrite !registered_app.
        rewrite (registered_none (P := fun e => isLog e = true) Hlogs)
          by (intros; discriminate).
        rewrite (registered_none Hpost) by (intros; apply mutationEvent_not_defer).
        reflexivity. }
    destruct H as [(s & H & ->) | (e1 & c1 & [] & e2 & H1 & H2 & ->)].
    + destruct (Hreg _ _ _ H) as [[-> _] | [nr ->]]; [exists 0 | exists 1]; reflexivity.
    + destruct (Hreg _ _ _ H1) as [[_ [s Hs]] | [nr E1]]; [discriminate|].
      destruct (IH _ _ _ _ H2) as [k Hk]. exists (S k).
      rewrite registered_app, E1. simpl. now rewrite Hk.
Qed.

Lemma runDefers_order w r o c l i x j y cpu :
  (exists a b d, l = a ++ (i, x) :: b ++ (j, y) :: d) ->
  exists l1 l2 l3,
    runDefers w (closures r o (rev l) ++ cpu) c
    = l1 ++ EvRunDeferred j :: l2 ++ EvRunDeferred i :: l3.
Proof.
  intros (a & b & d & ->).
  replace (a ++ (i, x) :: b ++ (j, y) :: d)
    with (a ++ [(i, x)] ++ b ++ [(j, y)] ++ d) by reflexivity.
  rewrite !rev_app_distr. unfold closures. rewrite !map_app. simpl map.
  rewrite <- !app_assoc. rewrite !runDefers_app. simpl runDefers.
  destruct (shutdown_head w r o j y c) as [bj Ej].
  destruct (shutdown_head w r o i x c) as [bi Ei].
  pose proof (shutdown_keeps w r o j y c) as Kj.
  pose proof (shutdown_keeps w r o i x c) as Ki.
  unfold events, ctl in *.
  destruct (shutdown w r o j y c) as [[evj cj] xj].
  destruct (shutdown w r o i x c) as [[evi ci] xi].
  simpl in *. subst. rewrite !app_nil_r.
  exists (runDefers w (closures r o (rev d)) c),
    (bj ++ runDefers w (closures r o (rev b)) c),
    (bi ++ runDefers w (closures r o (rev a)) c ++ runDefers w cpu c).
  unfold closures. simpl. rewrite <- !app_assoc. reflexivity.
Qed.

(** X4: the cleanups run in the reverse order of their registration: when
    [Run] returns or panics, the shutdown function of a later iteration of
    the server loop runs before the one of an earlier iteration. *)
Theorem cleanups_run_last_registered_first w r i nri j nrj :
  i < j ->
  In (EvDefer i nri) (fst (Run w r)) ->
  In (EvDefer j nrj) (fst (Run w r)) ->
  runsDeferred (snd (Run w r)) = true ->
  exists l1 l2 l3,
    fst (Run w r) = l1 ++ EvRunDeferred j :: l2 ++ EvRunDeferred i :: l3.
Proof.
  intros Hlt Hi Hj Hrun.
  run_cases w r; rewrite Hrun in *;
    repeat (apply in_app_or in Hi; destruct Hi as [Hi|Hi]);
    try wrong_part;
    try (apply (in_class cleanupEvent _ _ (runDefers_cleanup _ _ _)) in Hi; discriminate);
    repeat (apply in_app_or in Hj; destruct Hj as [Hj|Hj]);
    try wrong_part;
    try (apply (in_class cleanupEvent _ _ (runDefers_cleanup _ _ _)) in Hj; discriminate).
  all: match type of L with
       | _ = (_, _, ?x) =>
           assert (HF : loopFacts (withDefaultServer r) (makeOptions (withDefaultServer r))
                          cp el cl x)
             by (eapply serverLoop_facts;
                 [apply withDefaultServer_options_nonempty | exact L])
       end;
    destruct HF as (D & _);
    assert (Hk : exists k, map fst (registered el)
                           = firstn k (seq 0 (List.length
                                                (Options.Servers
                                                   (makeOptions (withDefaultServer r))))))
      by (eapply forEach_registered;
          [apply withDefaultServer_options_nonempty | exact L]);
    destruct Hk as [k Hk];
    apply registered_In in Hi, Hj;
    assert (Hsplit : exists a b d, registered el = a ++ (i, nri) :: b ++ (j, nrj) :: d)
      by (eapply ordered_split; eauto);
    rewrite D;
    edestruct runDefers_order as (l1 & l2 & l3 & Hrd); [exact Hsplit|];
    rewrite Hrd.
  - exists ((ep ++ ew ++ el) ++ l1), l2, l3. now rewrite <- !app_assoc.
  - exists ((ep ++ ew ++ el ++ ef) ++ l1), l2, l3. now rewrite <- !app_assoc.
Qed.

Lemma cleanups_run_last_registered_first_witness :
  exists l1 l2 l3,
    fst (Run (calm ["{}"]) (exampleRunner "idx" twoServers false false false))
    = l1 ++ EvRunDeferred 1 :: l2 ++ EvRunDeferred 0 :: l3.
Proof.
  apply (@cleanups_run_last_registered_first (calm ["{}"])
           (exampleRunner "idx" twoServers false false false)
           0 (JStr "1") 1 (JStr "2")).
  - lia.
  - find_in.
  - find_in.
  - reflexivity.
Defined.

(** ** The end of the input, errors of the reader, and no workers *)

Unset Implicit Arguments.

(** The three ways [feed] ends: the gzip header is bad, the read loop stops
    the function, or the input is read to its end, the queue closed and the
    workers waited for. *)
Lemma feed_cases w r c :
  (exists e, Runner.FileGzipped r = true /\ gzip_NewReader w = Some e
             /\ feed w r c = ([EvFatal e], c, Stop Exited))
  \/ (exists evs s, readLoop w r (input w) 0 c = (evs, c, Stop s)
                    /\ feed w r c = (evs, c, Stop s))
  \/ (exists evs k rest s,
         readLoop w r (input w) 0 c = (evs, c, Val k)
         /\ feed w r c = (evs ++ EvClose :: EvWait :: rest, c, Stop s)
         /\ Forall (fun x => x = EvWriteHeapProfile (Runner.MemProfile r)
                             \/ x = EvLog (LogReport k (Runner.NumWorkers r))) rest
         /\ (s = Exited \/ exists err, s = Returned err)).
Proof.
  unfold feed.
  assert (Hgz : (exists e, Runner.FileGzipped r = true /\ gzip_NewReader w = Some e)
                \/ when (Runner.FileGzipped r)
                     match gzip_NewReader w with
                     | Some e => emit (EvFatal e);; halt Exited
                     | None => ret tt
                     end c = ([], c, Val tt)).
  { destruct (Runner.FileGzipped r); [|now right].
    destruct (gzip_NewReader w) as [e|]; [left; eauto | now right]. }
  destruct Hgz as [(e & G1 & G2) | G].
  { left. exists e. rewrite G1, G2. auto. }
  right. rewrite (bind_val _ _ _ G). unfold events at 1, ctl at 1, result at 1.
  cbn [fst snd app].
  pose proof (readLoop_keeps w r (input w) 0 c) as Hk. unfold ctl in Hk.
  destruct (readLoop w r (input w) 0 c) as [[evs c1] [k|s]] eqn:R;
    cbn [fst snd] in Hk; subst c1.
  2:{ left. exists evs, s. split; [reflexivity|]. rewrite (bind_stop _ _ _ R).
      reflexivity. }
  right. exists evs, k. rewrite (bind_val _ _ _ R).
  unfold wait.
  destruct ((0 <? Runner.NumWorkers r)%Z && negb (workers_done w));
    destruct (nonempty (Runner.MemProfile r));
    try destruct (os_Create w (Runner.MemProfile r));
    destruct (Runner.Verbose r); cbn;
    eexists; eexists; (split; [reflexivity|]); (split; [reflexivity|]);
    (split; [repeat first [apply Forall_nil
                           | apply Forall_cons;
                             [(left; reflexivity) || (right; reflexivity)|]]
           | eauto]).
Qed.

Lemma readLoop_lines w r rd n : emits lineEvent (readLoop w r rd n).
Proof.
  revert n. induction rd as [|[line err] rest IH]; intros n; simpl.
  - rules. exact I.
  - rules; try exact I; try apply IH. unfold send. rules. exact I.
Qed.

Lemma readLoop_lines_at w r rd n c evs c' x e :
  readLoop w r rd n c = (evs, c', x) -> In e evs -> lineEvent e.
Proof.
  intros H Hin. pose proof (readLoop_lines w r rd n c) as Hl.
  rewrite H in Hl. unfold events in Hl. simpl in Hl.
  rewrite Forall_forall in Hl. auto.
Qed.

Lemma prepare_notDeferred e : prepareEvent e = true -> feedEvent e = false /\ notDeferred e.
Proof. by_event e; intros; split; auto; exact I. Qed.

Lemma worker_notDeferred e : workerEvent e = true -> feedEvent e = false /\ notDeferred e.
Proof. by_event e; intros; split; auto; exact I. Qed.

Lemma loop_notDeferred e : loopEvent e = true -> feedEvent e = false /\ notDeferred e.
Proof. by_event e; intros; split; auto; exact I. Qed.

(** X5: when [gzip.NewReader] rejects the input, [Run] ends the process
    with [log.Fatal] at once: no line is read, and no deferred call runs, so
    the settings that the server loop changed are not restored. *)
Theorem gzip_failure_exits_without_cleanup w r e :
  In (EvFatal e) (fst (Run w r)) ->
  snd (Run w r) = Exited
  /\ exists l, fst (Run w r) = l ++ [EvFatal e]
               /\ Forall (fun x => feedEvent x = false /\ notDeferred x) l.
Proof.
  intros Hin.
  run_cases w r;
    repeat (apply in_app_or in Hin; destruct Hin as [Hin|Hin]);
    try wrong_part;
    try (apply in_deferred in Hin; discriminate).
  destruct (feed_cases w (withDefaultServer r) cl)
    as [(e0 & _ & _ & F') | [(evs & s & R & F') | (evs & k & rest & s & R & F' & Hrest & _)]];
    rewrite F' in F; inversion F; subst; clear F.
  - destruct Hin as [Hin|[]]. inversion Hin; subst. split; [reflexivity|].
    exists (ep ++ ew ++ el). simpl. rewrite app_nil_r, <- !app_assoc.
    split; [reflexivity|]. rewrite !Forall_app. conjs.
    + eapply Forall_impl; [apply prepare_notDeferred | exact Hp].
    + eapply Forall_impl; [apply worker_notDeferred | exact Hw].
    + eapply Forall_impl; [apply loop_notDeferred | exact Hl].
  - apply (readLoop_lines_at _ _ _ _ _ _ _ _ _ R) in Hin. contradiction.
  - apply in_app_or in Hin. destruct Hin as [Hin|[Hin|[Hin|Hin]]]; try discriminate.
    + apply (readLoop_lines_at _ _ _ _ _ _ _ _ _ R) in Hin. contradiction.
    + rewrite Forall_forall in Hrest. apply Hrest in Hin. destruct Hin; discriminate.
Qed.

Lemma gzip_failure_exits_without_cleanup_witness :
  snd (Run notGzipped gzipRunner) = Exited
  /\ exists l, fst (Run notGzipped gzipRunner) = l ++ [EvFatal "gzip: invalid header"]
               /\ Forall (fun x => feedEvent x = false /\ notDeferred x) l.
Proof.
  apply (@gzip_failure_exits_without_cleanup notGzipped gzipRunner "gzip: invalid header").
  find_in.
Defined.

Lemma readLoop_error w r line e rd :
  forall n c evs c' x,
    readLoop w r rd n c = (evs, c', x) ->
    In (EvReadString line (Some (io_error e))) evs ->
    x = Stop (Returned (Some e)).
Proof.
  induction rd as [|[l err] rest IH]; intros n c evs c' x H Hin.
  - inversion H; subst. simpl in Hin. destruct Hin as [Hin|[]]. discriminate.
  - simpl in H. apply bind_inv in H.
    destruct H as [(s & H & _) | (e1 & c1 & [] & e2 & H1 & H2 & ->)]; [discriminate|].
    inversion H1; subst e1 c1. clear H1. simpl in Hin.
    destruct Hin as [Hin|Hin].
    + inversion Hin; subst. inversion H2. reflexivity.
    + destruct err as [[|e0]|].
      * inversion H2; subst. contradiction.
      * inversion H2; subst. contradiction.
      * destruct (negb (nonempty (TrimSpace l))); [eapply IH; eauto|].
        destruct (Runner.SkipBroken r && negb (IsJSON (TrimSpace l))).
        -- apply bind_inv in H2.
           destruct H2 as [(s & H2 & _) | (e1 & c1 & [] & e3 & H1 & H2 & ->)].
           ++ destruct (Runner.Verbose r); discriminate.
           ++ apply in_app_or in Hin. destruct Hin as [Hin|Hin]; [|eapply IH; eauto].
              destruct (Runner.Verbose r); inversion H1; subst; simpl in Hin;
                [destruct Hin as [Hin|[]]; discriminate | contradiction].
        -- apply bind_inv in H2.
           destruct H2 as [(s & H2 & _) | (e1 & c1 & [] & e3 & H1 & H2 & ->)].
           ++ unfold send in H2.
              destruct (Runner.NumWorkers r <=? 0)%Z; [|destruct (queue_recv w n)];
                inversion H2; subst; contradiction.
           ++ apply send_val in H1. destruct H1 as [-> ->].
              destruct Hin as [Hin|Hin]; [discriminate | eapply IH; eauto].
Qed.

Lemma not_line_event e l :
  Forall lineEvent l -> In e l -> lineEvent e.
Proof. rewrite Forall_forall. auto. Qed.

(** X6: when the reader fails with an error that is not [io.EOF], [Run]
    returns this error; the queue is not closed and the workers are not
    waited for. *)
Theorem read_error_is_returned w r line e :
  In (EvReadString line (Some (io_error e))) (fst (Run w r)) ->
  snd (Run w r) = Returned (Some e)
  /\ ~ In EvClose (fst (Run w r))
  /\ ~ In EvWait (fst (Run w r)).
Proof.
  intros Hin.
  run_cases w r;
    repeat (apply in_app_or in Hin; destruct Hin as [Hin|Hin]);
    try wrong_part;
    try (apply in_deferred in Hin; discriminate).
  destruct (feed_cases w (withDefaultServer r) cl)
    as [(e0 & _ & _ & F') | [(evs & s & R & F') | (evs & k & rest & s & R & F' & Hrest & _)]];
    rewrite F' in F; inversion F; subst; clear F.
  - destruct Hin as [Hin|[]]. discriminate.
  - pose proof (readLoop_error _ _ _ _ _ _ _ _ _ _ R Hin) as Hs. inversion Hs; subst.
    split; [reflexivity|].
    split; intros Hc;
      repeat (apply in_app_or in Hc; destruct Hc as [Hc|Hc]);
      try wrong_part;
      try (apply (readLoop_lines_at _ _ _ _ _ _ _ _ _ R) in Hc; contradiction);
      try (apply in_deferred in Hc; discriminate).
  - apply in_app_or in Hin. destruct Hin as [Hin|[Hin|[Hin|Hin]]]; try discriminate.
    + pose proof (readLoop_error _ _ _ _ _ _ _ _ _ _ R Hin). discriminate.
    + rewrite Forall_forall in Hrest. apply Hrest in Hin. destruct Hin; discriminate.
Qed.

Lemma read_error_is_returned_witness :
  snd (Run readFails (exampleRunner "idx" twoServers false false false))
  = Returned (Some "unexpected EOF")
  /\ ~ In EvClose (fst (Run readFails (exampleRunner "idx" twoServers false false false)))
  /\ ~ In EvWait (fst (Run readFails (exampleRunner "idx" twoServers false false false))).
Proof.
  apply (@read_error_is_returned readFails
           (exampleRunner "idx" twoServers false false false) "" "unexpected EOF").
  find_in.
Defined.

Lemma linesRead_eof lines last rest :
  linesRead (map (fun l => (l, None)) lines ++ (last, Some io_EOF) :: rest) = lines.
Proof. induction lines as [|l lines IH]; simpl; [reflexivity | now rewrite IH]. Qed.

(** X7: what [ReadString] returns together with [io.EOF], a last line
    without a newline, is dropped: when the input is read to its end, the
    lines put on the queue are the ones among the lines before it that pass
    the tests of the read loop. *)
Theorem unterminated_last_line_is_dropped w r lines last rest :
  input w = map (fun l => (l, None)) lines ++ (last, Some io_EOF) :: rest ->
  In EvClose (fst (Run w r)) ->
  sent (fst (Run w r)) = accepted r lines.
Proof.
  intros Hinput Hin. destruct (Run_lines w r Hin) as (H & _).
  now rewrite Hinput, linesRead_eof in H.
Qed.

Lemma unterminated_last_line_is_dropped_witness :
  sent (fst (Run unterminated (exampleRunner "idx" twoServers false false false)))
  = accepted (exampleRunner "idx" twoServers false false false) ["{}" ^^ newline].
Proof.
  apply (@unterminated_last_line_is_dropped unterminated
           (exampleRunner "idx" twoServers false false false)
           ["{}" ^^ newline] "[1]" []).
  - reflexivity.
  - find_in.
Defined.

(** X8: without skip mode no line is validated: when the input is read to
    its end, every line that is not blank was put on the queue, trimmed, in
    the order of the input, valid JSON or not, and every count reported is
    their number. *)
Theorem every_line_is_sent_without_skip_mode w r :
  Runner.SkipBroken r = false ->
  In EvClose (fst (Run w r)) ->
  sent (fst (Run w r)) = nonblank (linesRead (input w))
  /\ skipped (fst (Run w r)) = []
  /\ Forall (eq (List.length (nonblank (linesRead (input w))))) (reported (fst (Run w r))).
Proof.
  intros Hskip Hin. destruct (Run_lines w r Hin) as (H1 & H2 & H3).
  unfold accepted, broken in *. rewrite Hskip in *. simpl in *.
  assert (Et : forall l : list string, filter (fun _ => true) l = l).
  { induction l as [|x l IH]; simpl; [reflexivity | now rewrite IH]. }
  assert (Ef : forall l : list string, filter (fun _ => false) l = []).
  { induction l as [|x l IH]; simpl; [reflexivity | exact IH]. }
  rewrite Et in H1, H3. rewrite Ef in H2.
  repeat split; auto. now destruct (Runner.Verbose r).
Qed.

Lemma every_line_is_sent_without_skip_mode_witness :
  sent (fst (Run (calm tenAndOne) (exampleRunner "idx" twoServers false false true)))
  = nonblank (linesRead (input (calm tenAndOne)))
  /\ skipped (fst (Run (calm tenAndOne) (exampleRunner "idx" twoServers false false true)))
     = []
  /\ Forall (eq (List.length (nonblank (linesRead (input (calm tenAndOne))))))
       (reported (fst (Run (calm tenAndOne)
                         (exampleRunner "idx" twoServers false false true)))).
Proof.
  apply (@every_line_is_sent_without_skip_mode (calm tenAndOne)
           (exampleRunner "idx" twoServers false false true)).
  - reflexivity.
  - find_in.
Defined.




Lemma readLoop_blocked w r raw :
  (Runner.NumWorkers r <= 0)%Z ->
  nonempty (TrimSpace raw) = true ->
  Runner.SkipBroken r && negb (IsJSON (TrimSpace raw)) = false ->
  forall rd n c evs c' x,
    readLoop w r rd n c = (evs, c', x) ->
    In (EvReadString raw None) evs ->
    x = Stop Blocked /\ exists l, evs = l ++ [EvReadString raw None].
Proof.
  intros Hn Hne Hok. apply Z.leb_le in Hn.
  induction rd as [|[l err] rest IH]; intros n c evs c' x H Hin.
  - inversion H; subst. simpl in Hin. destruct Hin as [Hin|[]]. discriminate.
  - simpl in H. apply bind_inv in H.
    destruct H as [(s & H & _) | (e1 & c1 & [] & e2 & H1 & H2 & ->)]; [discriminate|].
    inversion H1; subst e1 c1. clear H1. simpl in Hin.
    destruct err as [[|e0]|].
    + inversion H2; subst. destruct Hin as [Hin|[]]. discriminate.
    + inversion H2; subst. destruct Hin as [Hin|[]]. discriminate.
    + assert (Hrec : forall e3 x3,
                 readLoop w r rest n c = (e3, c', x3) ->
                 In (EvReadString raw None) e3 ->
                 x3 = Stop Blocked
                 /\ exists l0, EvReadString l None :: e3 = l0 ++ [EvReadString raw None]).
      { intros e3 x3 H3 Hin3. destruct (IH _ _ _ _ _ H3 Hin3) as (-> & l0 & ->).
        split; [reflexivity|]. exists (EvReadString l None :: l0). reflexivity. }
      destruct (nonempty (TrimSpace l)) eqn:Nl; simpl negb in H2; cbv iota in H2.
      * destruct (Runner.SkipBroken r && negb (IsJSON (TrimSpace l))) eqn:Bl.
        -- destruct Hin as [Hin|Hin]; [inversion Hin; subst; congruence|].
           apply bind_inv in H2.
           destruct H2 as [(s & H2 & _) | (e1 & c1 & [] & e3 & H1 & H2 & ->)].
           ++ destruct (Runner.Verbose r); discriminate.
           ++ assert (c1 = c /\ forall y, In y e1 -> y = EvSkipped (TrimSpace l))
                as [-> He1].
              { destruct (Runner.Verbose r); inversion H1; subst; split; auto;
                  simpl; intros y Hy; [destruct Hy as [<-|[]]; reflexivity | contradiction]. }
              apply in_app_or in Hin. destruct Hin as [Hin|Hin].
              { apply He1 in Hin. discriminate. }
              destruct (IH _ _ _ _ _ H2 Hin) as (-> & l0 & ->).
              split; [reflexivity|]. exists (EvReadString l None :: e1 ++ l0).
              simpl. now rewrite <- app_assoc.
        -- apply bind_inv in H2.
           destruct H2 as [(s & H2 & ->) | (e1 & c1 & [] & e3 & H1 & _ & _)].
           ++ unfold send in H2. rewrite Hn in H2. inversion H2; subst.
              destruct Hin as [Hin|[]].
              split; [reflexivity|]. exists []. now inversion Hin.
           ++ unfold send in H1. rewrite Hn in H1. discriminate.
      * destruct Hin as [Hin|Hin]; [inversion Hin; subst; congruence|].
        now apply Hrec.
Qed.

(** X10: without workers nobody receives from the queue: [Run] never gets
    past the send of the first line that passes the tests of the read loop
    (it blocks there, unless the runtime ends the process for the deadlock);
    nothing follows the read of this line, and no deferred call runs. *)
Theorem no_worker_blocks_first_send w r raw :
  (Runner.NumWorkers r <= 0)%Z ->
  nonempty (TrimSpace raw) = true ->
  Runner.SkipBroken r && negb (IsJSON (TrimSpace raw)) = false ->
  In (EvReadString raw None) (fst (Run w r)) ->
  snd (Run w r) = Blocked
  /\ exists l, fst (Run w r) = l ++ [EvReadString raw None].
Proof.
  intros Hn Hne Hok Hin.
  destruct (withDefaultServer_fields r) as (_ & _ & _ & _ & En & _).
  destruct (withDefaultServer_flags r) as [Es _].
  run_cases w r;
    repeat (apply in_app_or in Hin; destruct Hin as [Hin|Hin]);
    try wrong_part;
    try (apply in_deferred in Hin; discriminate).
  destruct (feed_cases w (withDefaultServer r) cl)
    as [(e0 & _ & _ & F') | [(evs & s & R & F') | (evs & k & rest & s & R & F' & Hrest & _)]];
    rewrite F' in F; inversion F; subst; clear F.
  - destruct Hin as [Hin|[]]. discriminate.
  - rewrite <- En in Hn. rewrite <- Es in Hok.
    destruct (readLoop_blocked _ _ _ Hn Hne Hok _ _ _ _ _ _ R Hin) as (Hs & l & ->).
    inversion Hs; subst. split; [reflexivity|].
    exists (ep ++ ew ++ el ++ l). simpl. now rewrite app_nil_r, <- !app_assoc.
  - exfalso. apply in_app_or in Hin. destruct Hin as [Hin|[Hin|[Hin|Hin]]];
      try discriminate.
    + rewrite <- En in Hn. rewrite <- Es in Hok.
      destruct (readLoop_blocked _ _ _ Hn Hne Hok _ _ _ _ _ _ R Hin) as (Hs & _).
      discriminate.
    + rewrite Forall_forall in Hrest. apply Hrest in Hin. destruct Hin; discriminate.
Qed.

Lemma no_worker_blocks_first_send_witness :
  snd (Run (calm ["  "; "{}"; "[1]"]) noWorkers) = Blocked
  /\ exists l, fst (Run (calm ["  "; "{}"; "[1]"]) noWorkers)
               = l ++ [EvReadString ("{}" ^^ newline) None].
Proof.
  apply (@no_worker_blocks_first_send (calm ["  "; "{}"; "[1]"]) noWorkers
           ("{}" ^^ newline)).
  - vm_compute. discriminate.
  - reflexivity.
  - reflexivity.
  - find_in.
Defined.

(** ** Failures of the cleanup *)

Lemma same_bind {A B} (m m' : M A) (k k' : A -> M B) :
  same m m' -> (forall a, same (k a) (k' a)) -> same (bind m k) (bind m' k').
Proof.
  intros Hm Hk c. unfold bind. rewrite Hm.
  destruct (m' c) as [[e1 c1] [a|s]]; [|reflexivity]. now rewrite Hk.
Qed.

Lemma same_refl {A} (m : M A) : same m m.
Proof. intros c. reflexivity. Qed.

Lemma same_forEach {A} (l : list A) f f' :
  (forall a, same (f a) (f' a)) -> same (forEach l f) (forEach l f').
Proof.
  intros H. induction l as [|a l IH]; simpl; [apply same_refl|].
  apply same_bind; [apply H | intros _; exact IH].
Qed.

Lemma readLoop_failCleanup w r rd :
  forall n, same (readLoop (failCleanup w) r rd n) (readLoop w r rd n).
Proof.
  induction rd as [|[line err] rest IH]; intros n; simpl; [apply same_refl|].
  apply same_bind; [apply same_refl|]. intros _.
  destruct err as [[|e]|]; try apply same_refl.
  destruct (negb (nonempty (TrimSpace line))); [apply IH|].
  destruct (Runner.SkipBroken r && negb (IsJSON (TrimSpace line))).
  - apply same_bind; [apply same_refl | intros _; apply IH].
  - apply same_bind; [apply same_refl | intros _; apply IH].
Qed.

Lemma RunBody_failCleanup w r : same (RunBody (failCleanup w) r) (RunBody w r).
Proof.
  unfold RunBody. apply same_bind; [apply same_refl|]. intros [r' o].
  apply same_bind; [apply same_refl|]. intros _.
  apply same_bind.
  - unfold serverLoop. apply same_forEach. intros i. apply same_refl.
  - intros _. unfold feed. apply same_bind; [apply same_refl|]. intros _.
    apply same_bind; [apply readLoop_failCleanup|]. intros k. apply same_refl.
Qed.

(** X11: a cleanup that fails is not reported.  In the world in which no
    request of a shutdown function gets an answer and no flush succeeds,
    [Run] ends as in the given world, and up to the deferred calls it does
    the same: the errors of the deferred calls reach neither the result nor
    the caller. *)
Theorem cleanup_failures_are_not_reported w r :
  snd (Run (failCleanup w) r) = snd (Run w r)
  /\ exists body d d',
       fst (Run w r) = body ++ d
       /\ fst (Run (failCleanup w) r) = body ++ d'
       /\ Forall (fun e => cleanupEvent e = true) d
       /\ Forall (fun e => cleanupEvent e = true) d'.
Proof.
  unfold Run. rewrite (RunBody_failCleanup w r entry).
  destruct (RunBody w r entry) as [[evs c] [[]|s]].
  - rewrite !leave_snd, !leave_fst. split; [reflexivity|]. simpl.
    exists evs. do 2 eexists. split; [reflexivity|]. split; [reflexivity|].
    split; apply runDefers_cleanup.
  - rewrite !leave_snd, !leave_fst. split; [reflexivity|].
    exists evs. do 2 eexists. split; [reflexivity|]. split; [reflexivity|].
    destruct (runsDeferred s); split; try constructor; apply runDefers_cleanup.
Qed.

(** ** The settings snapshot *)

Unset Implicit Arguments.





(** ** Purging *)

(** X13: without [r.Purge] the index is never deleted, and [Run] never
    sleeps. *)
Theorem no_purge_no_delete w r :
  Runner.Purge r = false ->
  Forall notPurge (fst (Run w r)).
Proof.
  intros Hp.
  destruct (withDefaultServer_fields r) as (_ & _ & _ & Epu & _).
  apply Run_forall.
  - unfold prepare, prologue, preflight. cbv zeta. rewrite Epu, Hp.
    cbn [when]. rules; exact I.
  - unfold startWorkers. rules; try exact I.
    apply emits_forEach. intros; rules. exact I.
  - eapply emits_weaken; [|apply serverLoop_emits]. intros e. by_event e.
  - eapply emits_weaken; [|apply feed_emits]. intros e. by_event e.
  - exact I.
  - intros i nr. eapply emits_weaken; [|apply shutdown_emits]. intros e. by_event e.
Qed.

Lemma no_purge_no_delete_witness :
  Forall notPurge (fst (Run (calm ["{}"]) (exampleRunner "idx" twoServers false false false))).
Proof.
  apply (@no_purge_no_delete (calm ["{}"])
           (exampleRunner "idx" twoServers false false false)).
  reflexivity.
Defined.

(** ** The flushed server *)

Lemma shutdown_flush w r o iter nr c i o' a :
  loopvar_per_iteration w = false ->
  In (EvFlushIndex i o' a) (events (shutdown w r o iter nr c)) ->
  i = loopvar c.
Proof.
  intros Hw Hin. unfold events in Hin.
  destruct (shutdown w r o iter nr c) as [[evs c'] x] eqn:H. simpl in Hin.
  unfold shutdown in H. apply bind_inv in H.
  destruct H as [(s & H & _) | (x1 & c1 & [] & x2 & H1 & H & ->)]; [discriminate|].
  inversion H1; subst x1 c1. clear H1.
  destruct Hin as [Hin|Hin]; [discriminate|]. simpl in Hin.
  apply bind_inv in H.
  destruct H as [(s & H & _) | (x1 & c1 & r1 & x3 & H1 & H & ->)].
  - pose proof (indexSettingsRequest_emits w (RestoreRefresh iter)
                  (refreshBody (Runner.RefreshInterval r)) o c) as E.
    unfold events in E. rewrite H in E. simpl in E.
    rewrite Forall_forall in E. apply E in Hin. simpl in Hin. contradiction.
  - pose proof (indexSettingsRequest_emits w (RestoreRefresh iter)
                  (refreshBody (Runner.RefreshInterval r)) o c) as E.
    pose proof (indexSettingsRequest_keeps w (RestoreRefresh iter)
                  (refreshBody (Runner.RefreshInterval r)) o c) as K.
    unfold events in E. unfold ctl in K. rewrite H1 in E, K. simpl in E, K. subst c1.
    apply in_app_or in Hin. destruct Hin as [Hin|Hin].
    { rewrite Forall_forall in E. apply E in Hin. simpl in Hin. contradiction. }
    destruct r1 as [e|resp]; [inversion H; subst; contradiction|].
    apply bind_inv in H.
    destruct H as [(s & H & _) | (x5 & c1 & r2 & x4 & H2 & H & ->)].
    + pose proof (indexSettingsRequest_emits w (RestoreReplicas iter)
                    (replicasBody (fmt_q w nr)) o c) as E2.
      unfold events in E2. rewrite H in E2. simpl in E2.
      rewrite Forall_forall in E2. apply E2 in Hin. simpl in Hin. contradiction.
    + pose proof (indexSettingsRequest_emits w (RestoreReplicas iter)
                    (replicasBody (fmt_q w nr)) o c) as E2.
      pose proof (indexSettingsRequest_keeps w (RestoreReplicas iter)
                    (replicasBody (fmt_q w nr)) o c) as K2.
      unfold events in E2. unfold ctl in K2. rewrite H2 in E2, K2. simpl in E2, K2.
      subst c1.
      apply in_app_or in Hin. destruct Hin as [Hin|Hin].
      { rewrite Forall_forall in E2. apply E2 in Hin. simpl in Hin. contradiction. }
      destruct r2 as [e|resp2]; [inversion H; subst; contradiction|].
      rewrite Hw in H. inversion H; subst.
      destruct Hin as [Hin|[]]. inversion Hin. reflexivity.
Qed.

Lemma keepsVar_keeps A (m : M A) : keeps m -> keepsVar m.
Proof. intros K c. now rewrite K. Qed.

Lemma keepsVar_bind A B (m : M A) (k : A -> M B) :
  keepsVar m -> (forall a, keepsVar (k a)) -> keepsVar (bind m k).
Proof.
  intros Hm Hk c. specialize (Hm c). unfold bind, ctl in *.
  destruct (m c) as [[e1 c1] [a|s]]; simpl in *; [|exact Hm].
  specialize (Hk a c1). unfold ctl in Hk.
  destruct (k a c1) as [[e2 c2] x]. simpl in *. congruence.
Qed.

Lemma serverIter_loopvar w r o j c : loopvar (ctl (serverIter w r o j c)) = j.
Proof.
  unfold serverIter.
  match goal with |- context [bind (setLoopvar j) ?k] => set (rest := k) end.
  assert (K : keepsVar (rest tt)).
  { subst rest. cbv beta. apply keepsVar_bind; [apply keepsVar_keeps, keeps_emit|].
    intros _. destruct (GetSettings w j o) as [e|doc];
      [apply keepsVar_keeps, keeps_halt|].
    destruct (numberOfReplicasOf o doc) as [nr|]; [|apply keepsVar_keeps, keeps_halt].
    apply keepsVar_bind; [apply keepsVar_keeps, keeps_when, keeps_emit|]. intros _.
    apply keepsVar_bind; [apply keepsVar_keeps, keeps_when, keeps_emit|]. intros _.
    apply keepsVar_bind; [apply keepsVar_keeps, keeps_emit|]. intros _.
    apply keepsVar_bind; [intros c0; reflexivity|]. intros _.
    apply keepsVar_keeps, mutate_keeps. }
  specialize (K {| defers := defers c; loopvar := j |}).
  unfold bind, setLoopvar, ctl in *.
  destruct (rest tt _) as [[e2 c2] x]. simpl in *. exact K.
Qed.

Lemma serverIter_snapshot w r o j c e1 c1 r1 k o2 res :
  Options.Servers o <> [] ->
  serverIter w r o j c = (e1, c1, r1) ->
  (exists res', In (EvGetSettings j o res') e1)
  /\ (In (EvGetSettings k o2 res) e1 -> k = j).
Proof.
  intros Hne H. apply serverIter_shape in H; [|exact Hne].
  destruct H as [(s & res' & _ & _ & ->)
                | (doc & nr & logs & post & -> & _ & Hlogs & Hpost & _)].
  - split; [exists res'; now left|]. intros [Hin|[]]. now inversion Hin.
  - split; [exists (inr doc); now left|]. intros [Hin|Hin]; [now inversion Hin|].
    exfalso. apply in_app_or in Hin. destruct Hin as [Hin|[Hin|Hin]]; [|discriminate|].
    + rewrite Forall_forall in Hlogs. apply Hlogs in Hin. discriminate.
    + rewrite Forall_forall in Hpost. apply Hpost in Hin.
      destruct Hin as [Hin | (s & q & a & Hin & _)]; discriminate.
Qed.

Lemma forEach_loopvar w r o :
  Options.Servers o <> [] ->
  forall n a c evs c' rs,
    forEach (seq a n) (serverIter w r o) c = (evs, c', rs) ->
    (evs = [] /\ c' = c)
    \/ (a <= loopvar c'
        /\ (exists o2 res, In (EvGetSettings (loopvar c') o2 res) evs)
        /\ forall k o2 res, In (EvGetSettings k o2 res) evs -> k <= loopvar c').
Proof.
  intros Hne. induction n as [|n IH]; intros a c evs c' rs H.
  - inversion H; subst. now left.
  - right. simpl in H. apply bind_inv in H.
    destruct H as [(s & H & ->) | (e1 & c1 & [] & e2 & H1 & H2 & ->)].
    + pose proof (serverIter_loopvar w r o a c) as V. unfold ctl in V.
      rewrite H in V. simpl in V. rewrite V. split; [lia|]. split.
      * destruct (serverIter_snapshot w r o a c _ _ _ 0 o (inl "") Hne H)
          as [(res' & Hin) _]. now exists o, res'.
      * intros k o2 res Hin.
        destruct (serverIter_snapshot w r o a c _ _ _ k o2 res Hne H) as [_ E].
        rewrite (E Hin). lia.
    + pose proof (serverIter_loopvar w r o a c) as V. unfold ctl in V.
      rewrite H1 in V. simpl in V.
      destruct (IH _ _ _ _ _ H2) as [(-> & ->) | (Hle & (o3 & res3 & Hin3) & Hall)].
      * rewrite V, app_nil_r. split; [lia|]. split.
        -- destruct (serverIter_snapshot w r o a c _ _ _ 0 o (inl "") Hne H1)
             as [(res' & Hin) _]. now exists o, res'.
        -- intros k o2 res Hin.
           destruct (serverIter_snapshot w r o a c _ _ _ k o2 res Hne H1) as [_ E].
           rewrite (E Hin). lia.
      * split; [lia|]. split.
        -- exists o3, res3. apply in_or_app. now right.
        -- intros k o2 res Hin. apply in_app_or in Hin. destruct Hin as [Hin|Hin].
           ++ destruct (serverIter_snapshot w r o a c _ _ _ k o2 res Hne H1) as [_ E].
              rewrite (E Hin). lia.
           ++ eapply Hall. exact Hin.
Qed.

Lemma runDefers_flush w i o a :
  loopvar_per_iteration w = false ->
  forall ds c, In (EvFlushIndex i o a) (runDefers w ds c) ->
               i = loopvar c /\ exists r' o' j nr, In (Shutdown r' o' j nr) ds.
Proof.
  intros Hw. induction ds as [|d ds IH]; intros c Hin; [contradiction|].
  simpl in Hin.
  pose proof (runDeferredCall_keeps w d c) as K. unfold ctl in K.
  destruct (runDeferredCall w d c) as [[evs c1] x] eqn:D. simpl in K. subst c1.
  apply in_app_or in Hin. destruct Hin as [Hin|Hin].
  - destruct d as [|r' o' j nr].
    + inversion D; subst. destruct Hin as [Hin|[]]. discriminate.
    + split.
      * apply (shutdown_flush w r' o' j nr c i o a Hw).
        unfold events. simpl in D. rewrite D. exact Hin.
      * exists r', o', j, nr. now left.
  - destruct (IH c Hin) as (E & r' & o' & j & nr & Hd). split; [exact E|].
    exists r', o', j, nr. now right.
Qed.

(** X14: with one loop variable [i] shared by all iterations of the server
    loop (Go before 1.22), every [FlushIndex(i, options)] of the shutdown
    functions goes to the server the loop reached last: the highest index
    whose settings were fetched, whichever iteration registered the
    function. *)
Theorem shared_loop_variable_flushes_last_server w r i o a :
  loopvar_per_iteration w = false ->
  In (EvFlushIndex i o a) (fst (Run w r)) ->
  (exists o2 res, In (EvGetSettings i o2 res) (fst (Run w r)))
  /\ (forall k o2 res, In (EvGetSettings k o2 res) (fst (Run w r)) -> k <= i).
Proof.
  intros Hw Hin.
  assert (Hcp : forall cp, defers cp = [] \/ defers cp = [StopCPUProfile] ->
                 ~ In (EvFlushIndex i o a) (runDefers w (defers cp) cp)).
  { intros cp Hd Hf. apply (runDefers_flush w i o a Hw) in Hf.
    destruct Hf as (_ & r' & o' & j & nr & Hs).
    destruct Hd as [Hd|Hd]; rewrite Hd in Hs; [contradiction|].
    destruct Hs as [Hs|[]]. discriminate. }
  run_cases w r;
    repeat (apply in_app_or in Hin; destruct Hin as [Hin|Hin]);
    try wrong_part;
    try (destruct (runsDeferred st); [|contradiction];
         exfalso; eapply Hcp; eassumption).
  all: unfold serverLoop in L;
    apply (forEach_loopvar w _ _ (withDefaultServer_options_nonempty r)) in L.
  all: destruct (runsDeferred _); [|contradiction].
  all: destruct L as [(-> & ->) | (_ & (o3 & res3 & Hin3) & Hall)];
    [exfalso; eapply Hcp; eassumption|].
  all: apply (runDefers_flush w i o a Hw) in Hin; destruct Hin as [-> _].
  all: split;
    [ exists o3, res3; rewrite ?in_app_iff; tauto
    | intros k o2 res Hk;
      repeat (apply in_app_or in Hk; destruct Hk as [Hk|Hk]);
      try wrong_part; try (eapply Hall; eassumption);
      try (apply in_class with (f := cleanupEvent) in Hk;
           [discriminate | apply runDefers_cleanup]) ].
Qed.

Lemma shared_loop_variable_flushes_last_server_witness :
  (exists o2 res,
      In (EvGetSettings 1 o2 res)
        (fst (Run (calm ["{}"]) (exampleRunner "idx" twoServers false false false))))
  /\ (forall k o2 res,
         In (EvGetSettings k o2 res)
           (fst (Run (calm ["{}"]) (exampleRunner "idx" twoServers false false false))) ->
         k <= 1).
Proof.
  apply (shared_loop_variable_flushes_last_server (calm ["{}"])
           (exampleRunner "idx" twoServers false false false) 1
           (makeOptions (exampleRunner "idx" twoServers false false false)) None).
  - reflexivity.
  - find_in.
Defined.

(** ** What a [nil] result means *)

Section StopsWith.
Context {A B : Type} (Q : stop -> Prop).

Lemma stopsWith_ret (a : A) : stopsWith Q (ret a).
Proof. intros c s H. discriminate. Qed.

Lemma stopsWith_halt (s : stop) : Q s -> stopsWith Q (@halt A s).
Proof. intros HQ c s' H. inversion H; subst. exact HQ. Qed.

Lemma stopsWith_emit (e : event) : stopsWith Q (emit e).
Proof. intros c s H. discriminate. Qed.

Lemma stopsWith_defer d : stopsWith Q (defer d).
Proof. intros c s H. discriminate. Qed.

Lemma stopsWith_setLoopvar i : stopsWith Q (setLoopvar i).
Proof. intros c s H. discriminate. Qed.

Lemma stopsWith_getLoopvar : stopsWith Q getLoopvar.
Proof. intros c s H. discriminate. Qed.

Lemma stopsWith_bind (m : M A) (k : A -> M B) :
  stopsWith Q m -> (forall a, stopsWith Q (k a)) -> stopsWith Q (bind m k).
Proof.
  intros Hm Hk c s. specialize (Hm c). unfold bind, result in *.
  destruct (m c) as [[e1 c1] [a|s1]]; simpl in *.
  - specialize (Hk a c1). unfold result in Hk.
    destruct (k a c1) as [[e2 c2] x]; simpl in *. exact (Hk s).
  - intros H. inversion H; subst. now apply Hm.
Qed.

End StopsWith.

Lemma stopsWith_when (Q : stop -> Prop) b m : stopsWith Q m -> stopsWith Q (when b m).
Proof. destruct b; simpl; auto. intros _. apply stopsWith_ret. Qed.

Lemma stopsWith_forEach A (Q : stop -> Prop) (l : list A) f :
  (forall a, stopsWith Q (f a)) -> stopsWith Q (forEach l f).
Proof.
  intros H. induction l; simpl; [apply stopsWith_ret | apply stopsWith_bind; auto].
Qed.

Ltac stop_step :=
  first
    [ apply stopsWith_bind; [ | intros ? ]
    | apply stopsWith_when
    | apply stopsWith_ret
    | apply stopsWith_emit
    | apply stopsWith_defer
    | apply stopsWith_setLoopvar
    | apply stopsWith_getLoopvar
    | apply stopsWith_halt; discriminate
    | match goal with
      | |- stopsWith _ (match ?x with _ => _ end) => destruct x
      | |- stopsWith _ (if ?x then _ else _) => destruct x
      end ].

Ltac stop_rules := unfold return_, try; repeat stop_step.

Lemma indexSettingsRequest_notNil w at_ body o :
  stopsWith notNil (indexSettingsRequest w at_ body o).
Proof. unfold indexSettingsRequest, notNil. stop_rules. Qed.

Lemma prepare_notNil w r :
  Runner.ShowVersion r = false -> stopsWith notNil (prepare w r).
Proof.
  intros Hv. unfold prepare, prologue, preflight, notNil. cbv zeta. rewrite Hv.
  cbn [when]. stop_rules.
Qed.

Lemma startWorkers_notNil r o : stopsWith notNil (startWorkers r o).
Proof.
  unfold startWorkers, notNil. stop_rules.
  apply stopsWith_forEach. intros i. apply stopsWith_emit.
Qed.

Lemma serverLoop_notNil w r o : stopsWith notNil (serverLoop w r o).
Proof.
  unfold serverLoop. apply stopsWith_forEach. intros i.
  unfold serverIter, mutate, notNil. stop_rules;
    apply indexSettingsRequest_notNil.
Qed.

Lemma readLoop_notNil w r rd : forall n, stopsWith notNil (readLoop w r rd n).
Proof.
  induction rd as [|[line err] rest IH]; intros n; simpl.
  - unfold notNil. stop_rules.
  - unfold send, notNil. stop_rules; apply IH.
Qed.

Lemma bind_val_inv A B (m : M A) (k : A -> M B) c evs c' b :
  bind m k c = (evs, c', Val b) ->
  exists e1 c1 a e2,
    m c = (e1, c1, Val a) /\ k a c1 = (e2, c', Val b) /\ evs = e1 ++ e2.
Proof.
  intros H. apply bind_inv in H.
  destruct H as [(s & _ & H) | H]; [discriminate | exact H].
Qed.

Lemma prepare_created w r c ep cp x :
  prepare w r c = (ep, cp, Val x) ->
  In (EvCreateIndex (makeOptions (withDefaultServer r)) None) ep.
Proof.
  unfold prepare, preflight. cbv zeta. intros H.
  apply bind_val_inv in H. destruct H as (e1 & c1 & a1 & e2 & _ & H & ->).
  apply in_or_app. right.
  do 3 (apply bind_val_inv in H; destruct H as (? & ? & ? & ? & _ & H & ->);
        apply in_or_app; right).
  apply bind_val_inv in H. destruct H as (e3 & c3 & a3 & e4 & H & _ & ->).
  apply in_or_app. left. unfold try in H.
  destruct (CreateIndex w (makeOptions (withDefaultServer r))).
  - apply bind_val_inv in H. destruct H as (? & ? & ? & ? & _ & H & _). discriminate.
  - inversion H. now left.
Qed.

Lemma mutate_val w r o i c evs c' x :
  Options.Servers o <> [] ->
  mutate w r o i c = (evs, c', Val x) ->
  exists req resp, In (EvDo (MutRefresh i) req (inr resp)) evs /\ StatusCode resp < 400.
Proof.
  intros Hne H. unfold mutate in H.
  destruct (indexSettingsRequest_cases w (MutRefresh i) (refreshBody "-1") o c Hne)
    as [(server & e & _ & _ & E) | [(req0 & e & _ & _ & E) | (req0 & resp & _ & _ & E)]];
    rewrite (bind_val _ _ _ E) in H; try discriminate.
  exists req0, resp. inversion H; subst evs. split; [now left|].
  destruct (400 <=? StatusCode resp) eqn:T; [|apply Nat.leb_gt in T; exact T].
  exfalso. unfold result in *.
  destruct (httputil_DumpResponse w resp); discriminate.
Qed.

Lemma serverIter_val w r o i c evs c' x :
  Options.Servers o <> [] ->
  serverIter w r o i c = (evs, c', Val x) ->
  exists req resp, In (EvDo (MutRefresh i) req (inr resp)) evs /\ StatusCode resp < 400.
Proof.
  intros Hne H. unfold serverIter in H.
  do 2 (apply bind_val_inv in H; destruct H as (? & ? & ? & ? & _ & H & ->)).
  destruct (GetSettings w i o) as [e|doc]; [discriminate|].
  destruct (numberOfReplicasOf o doc) as [nr|]; [|discriminate].
  do 4 (apply bind_val_inv in H; destruct H as (? & ? & ? & ? & _ & H & ->)).
  destruct (mutate_val _ _ _ _ _ _ _ _ Hne H) as (req & resp & Hin & Hs).
  exists req, resp. split; [|exact Hs].
  rewrite !in_app_iff. tauto.
Qed.

Lemma forEach_serverIter_val w r o l :
  Options.Servers o <> [] ->
  forall c evs c' x,
    forEach l (serverIter w r o) c = (evs, c', Val x) ->
    forall i, In i l ->
      exists req resp, In (EvDo (MutRefresh i) req (inr resp)) evs /\ StatusCode resp < 400.
Proof.
  intros Hne. induction l as [|j l IH]; intros c evs c' x H i Hi; [contradiction|].
  simpl in H. apply bind_val_inv in H.
  destruct H as (e1 & c1 & a & e2 & H1 & H2 & ->).
  destruct Hi as [->|Hi].
  - destruct (serverIter_val _ _ _ _ _ _ _ _ Hne H1) as (req & resp & Hin & Hs).
    exists req, resp. split; [apply in_or_app; now left | exact Hs].
  - destruct (IH _ _ _ _ H2 i Hi) as (req & resp & Hin & Hs).
    exists req, resp. split; [apply in_or_app; now right | exact Hs].
Qed.

Lemma readLoop_val w r rd :
  forall n c evs c' k,
    readLoop w r rd n c = (evs, c', Val k) ->
    exists line, In (EvReadString line (Some io_EOF)) evs.
Proof.
  induction rd as [|[line err] rest IH]; intros n c evs c' k H; simpl in H.
  - inversion H. exists "". now left.
  - apply bind_val_inv in H. destruct H as (e1 & c1 & [] & e2 & H1 & H & ->).
    inversion H1; subst e1 c1.
    destruct err as [[|e]|].
    + exists line. now left.
    + discriminate.
    + assert (R : exists n' c0 e3, readLoop w r rest n' c0 = (e3, c', Val k)
                                   /\ incl e3 e2).
      { destruct (negb (nonempty (TrimSpace line))).
        - exists n, c, e2. split; [exact H | apply incl_refl].
        - destruct (Runner.SkipBroken r && negb (IsJSON (TrimSpace line))).
          + apply bind_val_inv in H. destruct H as (e3 & c3 & a & e4 & _ & H & ->).
            exists n, c3, e4. split; [exact H | apply incl_appr, incl_refl].
          + apply bind_val_inv in H. destruct H as (e3 & c3 & a & e4 & _ & H & ->).
            exists (S n), c3, e4. split; [exact H | apply incl_appr, incl_refl]. }
      destruct R as (n' & c0 & e3 & R & Hincl).
      destruct (IH _ _ _ _ _ R) as (l & Hl). exists l. right. apply Hincl, Hl.
Qed.

(** X15: when [Run] returns [nil] and was not asked for the version, it has
    done all of its work: the index was created without an error, every
    iteration of the server loop switched refreshing off and got a status
    below 400, the input was read to its end, the queue was closed and the
    workers were waited for. *)
Theorem nil_result_means_complete w r :
  Runner.ShowVersion r = false ->
  snd (Run w r) = Returned None ->
  complete r (fst (Run w r)).
Proof.
  intros Hv Hnil.
  run_cases w r; simpl in Hnil; subst st.
  - exfalso. apply (prepare_notNil w r Hv entry (Returned None)); [|reflexivity].
    unfold result. now rewrite P.
  - exfalso.
    apply (startWorkers_notNil (withDefaultServer r) (makeOptions (withDefaultServer r))
             cp (Returned None)); [|reflexivity].
    unfold result. now rewrite W.
  - exfalso.
    apply (serverLoop_notNil w (withDefaultServer r) (makeOptions (withDefaultServer r))
             cp (Returned None)); [|reflexivity].
    unfold result. now rewrite L.
  - pose proof (prepare_created _ _ _ _ _ _ P) as Hc.
    unfold serverLoop in L.
    pose proof (forEach_serverIter_val _ _ _ _ (withDefaultServer_options_nonempty r)
                  _ _ _ _ L) as Hs.
    destruct (feed_cases w (withDefaultServer r) cl)
      as [(e & _ & _ & F') | [(evs & s & R & F') | (evs & k & rest & s & R & F' & _ & _)]];
      rewrite F' in F; inversion F; subst.
    + exfalso.
      apply (readLoop_notNil w (withDefaultServer r) (input w) 0 cl (Returned None));
        [|reflexivity].
      unfold result. now rewrite R.
    + destruct (readLoop_val _ _ _ _ _ _ _ _ R) as (line & Hline).
      unfold complete. cbv zeta. conjs.
      * rewrite !in_app_iff. tauto.
      * intros i Hi. destruct (Hs i) as (req & resp & Hin & Hst).
        { apply in_seq. lia. }
        exists req, resp. split; [|exact Hst]. rewrite !in_app_iff. tauto.
      * exists line. rewrite !in_app_iff. tauto.
      * rewrite !in_app_iff. simpl. tauto.
      * rewrite !in_app_iff. simpl. tauto.
Qed.

Lemma nil_result_means_complete_witness :
  complete (exampleRunner "idx" twoServers false false false)
    (fst (Run (calm ["{}"]) (exampleRunner "idx" twoServers false false false))).
Proof.
  apply (nil_result_means_complete (calm ["{}"])
           (exampleRunner "idx" twoServers false false false)).
  - reflexivity.
  - vm_compute. reflexivity.
Defined.

(** ** The CPU profile *)

Lemma prologue_cpu w r e1 c1 x f :
  prologue w r entry = (e1, c1, x) ->
  In (EvStartCPUProfile f) e1 ->
  defers c1 = [StopCPUProfile].
Proof.
  unfold prologue.
  destruct (Runner.ShowVersion r), (nonempty (Runner.CpuProfile r)),
    (os_Create w (Runner.CpuProfile r)), (nonempty (Runner.IndexName r));
    cbn; intros H Hin; inversion H; subst; simpl in Hin;
    first [contradiction | reflexivity | exfalso; intuition discriminate].
Qed.

Lemma prepare_cpu w r ep cp rp f :
  prepare w r entry = (ep, cp, rp) ->
  In (EvStartCPUProfile f) ep ->
  defers cp = [StopCPUProfile].
Proof.
  unfold prepare. intros H Hin. apply bind_inv in H.
  destruct H as [(s & H & _) | (e1 & c1 & [] & e2 & H1 & H2 & ->)].
  - eapply prologue_cpu; eassumption.
  - pose proof (keeps_at _ (preflight_keeps w r) H2) as ->.
    apply in_app_or in Hin. destruct Hin as [Hin|Hin].
    + eapply prologue_cpu; eassumption.
    + exfalso.
      assert (E : emits (fun e => e <> EvStartCPUProfile f) (preflight w r)).
      { unfold preflight. cbv zeta. rules; discriminate. }
      specialize (E c1). unfold events in E. rewrite H2 in E. simpl in E.
      rewrite Forall_forall in E. now apply (E _ Hin).
Qed.

Lemma shutdown_not_stop w r o i nr :
  emits (fun e => e <> EvStopCPUProfile) (shutdown w r o i nr).
Proof.
  unfold shutdown. rules; try discriminate;
    apply isr_emits; intros e He ->; exact He.
Qed.

Lemma closures_not_stop w r o l c :
  ~ In EvStopCPUProfile (runDefers w (closures r o l) c).
Proof.
  intros Hin.
  assert (F : Forall (fun e => e <> EvStopCPUProfile) (runDefers w (closures r o l) c)).
  { apply runDefers_forall. intros d Hd. apply closures_In in Hd.
    destruct Hd as (i & nr & -> & _). apply shutdown_not_stop. }
  rewrite Forall_forall in F. now apply (F _ Hin).
Qed.

(** X16: a CPU profile that was started is stopped as the very last step,
    and only once, when [Run] returns or panics; when the run ends in
    [log.Fatal] or blocks for ever, the profile is never stopped. *)
Theorem cpu_profile_stopped_last w r f :
  In (EvStartCPUProfile f) (fst (Run w r)) ->
  if runsDeferred (snd (Run w r))
  then exists l, fst (Run w r) = l ++ [EvStopCPUProfile] /\ ~ In EvStopCPUProfile l
  else ~ In EvStopCPUProfile (fst (Run w r)).
Proof.
  intros Hin.
  run_cases w r.
  all: assert (Hd : defers cp = [StopCPUProfile])
    by (eapply (prepare_cpu w r _ _ _ f P);
        destruct (runsDeferred st);
        repeat (apply in_app_or in Hin; destruct Hin as [Hin|Hin]);
        try assumption; try contradiction; try wrong_part;
        try (apply in_class with (f := cleanupEvent) in Hin;
             [discriminate | apply runDefers_cleanup])).
  all: try (apply serverLoop_facts in L; [|apply withDefaultServer_options_nonempty];
            destruct L as (D & _); rewrite Hd in D).
  all: destruct (runsDeferred st).
  all: try (intros Hs; repeat (apply in_app_or in Hs; destruct Hs as [Hs|Hs]);
            solve [contradiction | wrong_part]).
  - exists (ep). rewrite Hd. simpl. split; [reflexivity|]. intros Hs. wrong_part.
  - exists (ep ++ ew). rewrite Hd. simpl. split; [reflexivity|].
    intros Hs. apply in_app_or in Hs. destruct Hs as [Hs|Hs]; wrong_part.
  - rewrite D, runDefers_app. simpl runDefers.
    exists ((ep ++ ew ++ el)
            ++ runDefers w (closures (withDefaultServer r)
                              (makeOptions (withDefaultServer r))
                              (rev (registered el))) cl).
    split; [apply app_assoc|].
    intros Hs. repeat (apply in_app_or in Hs; destruct Hs as [Hs|Hs]);
      try wrong_part. now apply closures_not_stop in Hs.
  - rewrite D, runDefers_app. simpl runDefers.
    exists ((ep ++ ew ++ el ++ ef)
            ++ runDefers w (closures (withDefaultServer r)
                              (makeOptions (withDefaultServer r))
                              (rev (registered el))) cl).
    split; [apply app_assoc|].
    intros Hs. repeat (apply in_app_or in Hs; destruct Hs as [Hs|Hs]);
      try wrong_part. now apply closures_not_stop in Hs.
Qed.

Lemma cpu_profile_stopped_last_witness :
  if runsDeferred (snd (Run (calm ["{}"]) profiledRunner))
  then exists l, fst (Run (calm ["{}"]) profiledRunner) = l ++ [EvStopCPUProfile]
                 /\ ~ In EvStopCPUProfile l
  else ~ In EvStopCPUProfile (fst (Run (calm ["{}"]) profiledRunner)).
Proof.
  apply (cpu_profile_stopped_last (calm ["{}"]) profiledRunner "cpu.prof").
  find_in.
Defined.

(** ** The user flag of [main] *)

Lemma Split_nonempty s sep : Split s sep <> [].
Proof.
  destruct s as [|c rest]; simpl; [discriminate|].
  destruct (Ascii.eqb c sep); [discriminate|].
  destruct (Split rest sep); discriminate.
Qed.

Lemma Split_plain p : noColon p = true -> Split p colon = [p].
Proof.
  induction p as [|c rest IH]; simpl; [reflexivity|].
  intros H. apply andb_prop in H. destruct H as [Hc Hr].
  apply negb_true_iff in Hc. rewrite Hc, (IH Hr). reflexivity.
Qed.

Lemma Split_first u rest :
  noColon u = true -> Split (u ^^ ":" ^^ rest) colon = u :: Split rest colon.
Proof.
  induction u as [|c u IH]; simpl in *; [reflexivity|].
  intros H. apply andb_prop in H. destruct H as [Hc Hr].
  apply negb_true_iff in Hc. rewrite Hc, (IH Hr). reflexivity.
Qed.

Lemma Split_one s x : Split s colon = [x] -> s = x /\ noColon x = true.
Proof.
  revert x. induction s as [|c rest IH]; simpl; intros x H.
  - inversion H. auto.
  - destruct (Ascii.eqb c colon) eqn:Hc.
    + inversion H. exfalso. eapply Split_nonempty. eassumption.
    + destruct (Split rest colon) as [|part parts] eqn:S.
      * exfalso. eapply Split_nonempty. eassumption.
      * inversion H; subst. destruct (IH part eq_refl) as [-> Hn].
        simpl. rewrite Hc, Hn. auto.
Qed.

Lemma Split_more s x y l :
  Split s colon = x :: y :: l ->
  exists rest, s = x ^^ ":" ^^ rest /\ noColon x = true /\ Split rest colon = y :: l.
Proof.
  revert x. induction s as [|c rest IH]; simpl; intros x H; [discriminate|].
  destruct (Ascii.eqb c colon) eqn:Hc.
  - inversion H; subst. apply Ascii.eqb_eq in Hc. subst c. exists rest. auto.
  - destruct (Split rest colon) as [|part parts] eqn:S; [discriminate|].
    inversion H; subst. destruct (IH part eq_refl) as (rest' & -> & Hn & HS).
    exists rest'. simpl. rewrite Hc, Hn. auto.
Qed.

(** X17: [main] takes a user flag apart at its only colon: it accepts
    exactly the empty flag, which gives an empty name and password, and the
    flags [username:password] in which neither part holds a colon; every
    other flag, a password with a colon in it among them, ends the program
    with the syntax message. *)
Theorem user_flag_has_one_colon user username password :
  credentials user = inr (username, password)
  <-> (user = "" /\ username = "" /\ password = "")
      \/ (user = username ^^ ":" ^^ password
          /\ noColon username = true /\ noColon password = true).
Proof.
  unfold credentials. split.
  - destruct user as [|c rest]; [intros H; inversion H; auto|].
    cbn [nonempty]. intros H. right.
    destruct (Split (String c rest) colon) as [|x [|y [|z l]]] eqn:S; try discriminate.
    inversion H; subst.
    destruct (Split_more _ _ _ _ S) as (rest' & E & Hx & S').
    destruct (Split_one _ _ S') as [-> Hy]. auto.
  - intros [(-> & -> & ->) | (-> & Hu & Hp)]; [reflexivity|].
    rewrite (Split_first _ _ Hu), (Split_plain _ Hp).
    destruct username; reflexivity.
Qed.

(** ** Where the errors of [Run] come from *)

Lemma stopsWith_bind_yields A B (Q : stop -> Prop) (P : A -> Prop) (m : M A)
    (k : A -> M B) :
  stopsWith Q m -> yields P m -> (forall a, P a -> stopsWith Q (k a)) ->
  stopsWith Q (bind m k).
Proof.
  intros Hm Hy Hk c s. specialize (Hm c). specialize (Hy c). unfold bind, result in *.
  destruct (m c) as [[e1 c1] [a|s1]]; simpl in *.
  - specialize (Hk a (Hy a eq_refl) c1). unfold result in Hk.
    destruct (k a c1) as [[e2 c2] x]; simpl in *. exact (Hk s).
  - intros H. inversion H; subst. now apply Hm.
Qed.

Ltac stop_step_eq :=
  first
    [ apply stopsWith_bind; [ | intros ? ]
    | apply stopsWith_when
    | apply stopsWith_ret
    | apply stopsWith_emit
    | apply stopsWith_defer
    | apply stopsWith_setLoopvar
    | apply stopsWith_getLoopvar
    | apply stopsWith_halt
    | match goal with
      | |- stopsWith _ (match ?x with _ => _ end) => destruct x eqn:?
      | |- stopsWith _ (if ?x then _ else _) => destruct x eqn:?
      end ].

Ltac stop_rules_eq := unfold return_, try; repeat stop_step_eq.

(** Finds the origin of an error among the hypotheses. *)
Ltac pick :=
  unfold explained, origin; cbv zeta;
  solve [ exact I | repeat (first [ left; solve [eauto 6] | right ]); eauto 6 ].

Lemma indexSettingsRequest_explained w r at_ body o :
  stopsWith (explained w r) (indexSettingsRequest w at_ body o).
Proof. unfold indexSettingsRequest. stop_rules_eq; exact I. Qed.

Lemma indexSettingsRequest_yields w at_ body o :
  yields (fun a => match a with
                   | inl e => (exists link, url_Parse w link = Some e)
                              \/ exists req, pester_Do w at_ req = inl e
                   | inr resp => exists req, pester_Do w at_ req = inr resp
                   end)
    (indexSettingsRequest w at_ body o).
Proof.
  intros c a. unfold indexSettingsRequest.
  destruct (List.length (Options.Servers o)); [discriminate|].
  unfold http_NewRequest.
  match goal with |- context [url_Parse w ?l] => destruct (url_Parse w l) eqn:U end.
  - intros H. inversion H; subst. left. eauto.
  - match goal with |- context [pester_Do w at_ ?q] =>
      destruct (pester_Do w at_ q) eqn:D end.
    + intros H. inversion H; subst. right. eauto.
    + unfold bind, emit, when, ret, result.
      destruct (Options.Verbose o); intros H; inversion H; subst; eauto.
Qed.

Lemma mutate_explained w r i :
  stopsWith (explained w r)
    (mutate w (withDefaultServer r) (makeOptions (withDefaultServer r)) i).
Proof.
  unfold mutate.
  eapply stopsWith_bind_yields;
    [apply indexSettingsRequest_explained | apply indexSettingsRequest_yields|].
  intros [e|resp] Hy.
  - apply stopsWith_halt. destruct Hy as [(link & U) | (req & D)]; pick.
  - destruct Hy as (req & D). apply stopsWith_bind.
    + destruct (400 <=? StatusCode resp) eqn:T; [|apply stopsWith_ret].
      apply Nat.leb_le in T.
      destruct (httputil_DumpResponse w resp) as [e|b] eqn:Dump;
        apply stopsWith_halt; unfold explained, origin; cbv zeta;
        do 9 right; left; exists i, req, resp; eauto 6.
    + intros _. apply stopsWith_when.
      eapply stopsWith_bind_yields;
        [apply indexSettingsRequest_explained | apply indexSettingsRequest_yields|].
      intros [e|resp2] Hy; [|apply stopsWith_ret].
      apply stopsWith_halt. destruct Hy as [(link & U) | (req2 & D2)]; pick.
Qed.

Lemma withDefaultServer_paths r :
  Runner.Mapping (withDefaultServer r) = Runner.Mapping r
  /\ Runner.MemProfile (withDefaultServer r) = Runner.MemProfile r.
Proof. unfold withDefaultServer. destruct (Runner.Servers r); auto. Qed.

Lemma prepare_explained w r : stopsWith (explained w r) (prepare w r).
Proof.
  destruct (withDefaultServer_paths r) as [Em _].
  unfold prepare, prologue, preflight. cbv zeta. rewrite Em.
  stop_rules_eq; pick.
Qed.

Lemma serverLoop_explained w r :
  stopsWith (explained w r)
    (serverLoop w (withDefaultServer r) (makeOptions (withDefaultServer r))).
Proof.
  unfold serverLoop. apply stopsWith_forEach. intros i. unfold serverIter.
  apply stopsWith_bind; [apply stopsWith_setLoopvar|]. intros _.
  apply stopsWith_bind; [apply stopsWith_emit|]. intros _.
  destruct (GetSettings w i (makeOptions (withDefaultServer r))) as [e|doc] eqn:G.
  - apply stopsWith_halt. pick.
  - destruct (numberOfReplicasOf _ doc); [|apply stopsWith_halt; exact I].
    do 4 (apply stopsWith_bind;
          [first [apply stopsWith_when, stopsWith_emit | apply stopsWith_emit
                 | apply stopsWith_defer]|]; intros _).
    apply mutate_explained.
Qed.

Lemma readLoop_explained w r r' rd :
  incl rd (input w) ->
  forall n, stopsWith (explained w r) (readLoop w r' rd n).
Proof.
  induction rd as [|[line err] rest IH]; intros Hincl n; simpl.
  - stop_rules_eq.
  - assert (Hrest : incl rest (input w)) by (intros x Hx; apply Hincl; now right).
    assert (Hhere : In (line, err) (input w)) by (apply Hincl; now left).
    apply stopsWith_bind; [apply stopsWith_emit|]. intros _.
    destruct err as [[|e]|].
    + apply stopsWith_ret.
    + apply stopsWith_halt. pick.
    + unfold send. stop_rules_eq; try exact I; now apply IH.
Qed.

Lemma feed_explained w r : stopsWith (explained w r) (feed w (withDefaultServer r)).
Proof.
  destruct (withDefaultServer_paths r) as [_ Em].
  unfold feed, wait. rewrite Em.
  apply stopsWith_bind; [stop_rules_eq; exact I|]. intros _.
  apply stopsWith_bind; [apply readLoop_explained, incl_refl|]. intros k.
  stop_rules_eq; pick.
Qed.

(** X18: every error that [Run] returns has one of these origins: the
    check of the index name; [os.Create] for a profile; [DeleteIndex],
    [CreateIndex], [os.Open] of the mapping file, [PutMapping];
    [GetSettings]; the parsing of a settings URL; [pester.Do] for a request
    of the server loop; a status of 400 and above for the request that
    switches refreshing off; the reader.  The status of any other answer, the
    requests of the shutdown functions and [FlushIndex] are not among them. *)
Theorem returned_error_origin w r e :
  snd (Run w r) = Returned (Some e) -> origin w r e.
Proof.
  intros H.
  assert (Hb : stopsWith (explained w r) (RunBody w r)).
  { unfold RunBody.
    eapply stopsWith_bind_yields with
      (P := fun ro => ro = (withDefaultServer r, makeOptions (withDefaultServer r))).
    - apply prepare_explained.
    - intros c [r' o] Hv. unfold result in Hv.
      destruct (prepare w r c) as [[ep cp] x] eqn:P. simpl in Hv. subst x.
      destruct (prepare_val _ _ _ P) as [-> ->]. reflexivity.
    - intros ro ->.
      apply stopsWith_bind; [|intros _].
      { unfold startWorkers. stop_rules_eq; try exact I.
        apply stopsWith_forEach. intros i. apply stopsWith_emit. }
      apply stopsWith_bind; [apply serverLoop_explained|]. intros _.
      apply feed_explained. }
  specialize (Hb entry). unfold Run, result in *.
  destruct (RunBody w r entry) as [[evs c] [[]|s]]; rewrite leave_snd in H.
  - discriminate.
  - subst s. exact (Hb _ eq_refl).
Qed.

Lemma returned_error_origin_witness :
  origin (exampleWorld ["{}"] secondServerDown (fun _ => None))
    (exampleRunner "idx" twoServers false false false) "connection refused".
Proof.
  apply (returned_error_origin (exampleWorld ["{}"] secondServerDown (fun _ => None))
           (exampleRunner "idx" twoServers false false false) "connection refused").
  vm_compute. reflexivity.
Defined.
